(** * MPlot: a shallow embedding of the plot bookkeeping and mouse tools

    The development follows three translation units of the repository:
    - [MPlotSeriesData.h]: the series data models (vector model, real-time
      model with index-tracked extremes);
    - [MPlot.h]: the plot, its index-based accessors and the deferred
      autoscale;
    - the tools ([MPlotPlotSelectorTool], [MPlotWheelZoomerTool],
      [MPlotDragZoomerTool], [MPlotCursorTool]).

    Conventions.
    - [qreal] is [double], IEEE binary64.  The wheel zoomer computes with
      it, and is modelled on binary64 itself (the primitive floats, module
      [Binary64] below), operation for operation, rounding, infinities and
      NaN included.  The other code only stores, copies and compares such
      values, or computes in files outside the sources; there a [qreal] is
      the rational [Q] it denotes, comparisons are the ones the code writes
      ([<], [>]) and equality of computed values is [==].
    - [int] is a [Z] in the 32-bit signed range, [unsigned] is a [Z] taken
      modulo [2^32]; casts are written out.
    - A pointer is an address ([nat]); a pointer that may be null is an
      [option] of an address, [None] standing for [0].  Objects live in
      stores (total functions from addresses), so that two pointers to the
      same object alias.
    - An operation the language leaves undefined (an out-of-range
      [QList::at], a modulo by zero) yields [Undefined]. *)

From Stdlib Require Import ZArith QArith Qabs Qminmax Lqa Lia List Bool.
From Stdlib Require PrimFloat FloatOps SpecFloat Uint63.
From stdpp Require Import base option list functions.
Import ListNotations.

Local Open Scope Z_scope.

(** ** Outcomes of straight-line C++ code *)

Inductive outcome (A : Type) : Type :=
  | Ret (a : A)
  | Undefined.
Arguments Ret {A} a.
Arguments Undefined {A}.

#[global] Instance outcome_ret : MRet outcome := fun A a => Ret a.
#[global] Instance outcome_bind : MBind outcome :=
  fun A B k m => match m with Ret a => k a | Undefined => Undefined end.

Definition defined {A} (m : outcome A) : Prop := exists a, m = Ret a.

(** ** Machine integers *)

Definition INT_MAX : Z := 2 ^ 31 - 1.
Definition INT_MIN : Z := - 2 ^ 31.
Definition UINT_MOD : Z := 2 ^ 32.

Definition is_int (z : Z) : Prop := INT_MIN <= z <= INT_MAX.

(** [(unsigned)z] for an [int] [z]. *)
Definition to_unsigned (z : Z) : Z := z mod UINT_MOD.

(** [QList<T>::count()]. *)
Definition count {A} (l : list A) : Z := Z.of_nat (length l).

(** [QList<T>::at(i)]: the index must be valid. *)
Definition at_ {A} (l : list A) (i : Z) : outcome A :=
  if (0 <=? i) && (i <? count l)
  then match l !! Z.to_nat i with Some a => Ret a | None => Undefined end
  else Undefined.

(** ** Geometry and axis scales *)

Abbreviation qreal := Q.

Record QPointF : Type := mkPoint { px : qreal; py : qreal }.

(** [QRectF(left, top, width, height)]. *)
Record QRectF : Type := mkRect { left : qreal; top : qreal; width : qreal; height : qreal }.

Definition QRectF_eq (r s : QRectF) : Prop :=
  (left r == left s /\ top r == top s /\ width r == width s /\ height r == height s)%Q.

Definition right_ (r : QRectF) : qreal := (left r + width r)%Q.
Definition bottom (r : QRectF) : qreal := (top r + height r)%Q.

Record MPlotAxisRange : Type := mkRange { rmin : qreal; rmax : qreal }.

Inductive Orientation : Type := Horizontal | Vertical.

(** Modelled from the spec: [MPlotAxisScale] is declared in [MPlotAxis.h],
    which is not among the sources.  The glossary calls it the mapping between
    a data-value range and drawing coordinates for one plot axis; the tools
    read [orientation()], [min()], [max()], [dataRange()] and write through
    [setDataRange(range, false)] and [setAutoScaleEnabled(bool)].  The record
    keeps exactly that state; the setters store their argument. *)
Record MPlotAxisScale : Type := mkAxisScale {
  orientation : Orientation;
  dataRange : MPlotAxisRange;
  autoScaleEnabled : bool
}.

Definition axis_min (a : MPlotAxisScale) : qreal := rmin (dataRange a).
Definition axis_max (a : MPlotAxisScale) : qreal := rmax (dataRange a).

(** Modelled from the spec: [setDataRange(range, false)], as the tools call
    it, makes [range] the data range of the axis scale. *)
Definition setDataRange (r : MPlotAxisRange) (a : MPlotAxisScale) : MPlotAxisScale :=
  {| orientation := orientation a; dataRange := r; autoScaleEnabled := autoScaleEnabled a |}.

(** Modelled from the spec: [setAutoScaleEnabled(bool)] sets the flag that
    [autoScaleEnabled()] reads. *)
Definition setAutoScaleEnabled (b : bool) (a : MPlotAxisScale) : MPlotAxisScale :=
  {| orientation := orientation a; dataRange := dataRange a; autoScaleEnabled := b |}.

(** The store of axis scales: address to object. *)
Abbreviation AxisStore := (nat -> MPlotAxisScale).

(** ** Mouse events *)

Inductive MouseButton : Type := LeftButton | RightButton | MidButton | NoButton.

Definition MouseButton_eqb (a b : MouseButton) : bool :=
  match a, b with
  | LeftButton, LeftButton | RightButton, RightButton
  | MidButton, MidButton | NoButton, NoButton => true
  | _, _ => false
  end.

(** The part of [QGraphicsSceneMouseEvent] the tools read. *)
Record QGraphicsSceneMouseEvent : Type := mkMouse {
  button : MouseButton;
  pos : QPointF;
  scenePos : QPointF;
  buttonDownPos_Left : QPointF;
  buttonDownScenePos_Left : QPointF
}.

(** ** [MPlot]: index-based accessors (MPlot.h) *)

Module MPlotAccessors.

Record MPlot : Type := mkPlot {
  items_ : list nat;
  axes_ : list nat;
  axisScales_ : list nat
}.

Definition null {A} : option A := None.

(** [MPlotItem* item(int index) const
    { if(index>=0 && index<items_.count()) return items_.at(index); else return 0; }] *)
Definition item (p : MPlot) (index : Z) : outcome (option nat) :=
  if (index >=? 0) && (index <? count (items_ p))
  then a ← at_ (items_ p) index; mret (Some a)
  else mret null.

(** [MPlotAxis* axis(int axisIndex)
    { if((unsigned)axisIndex >= (unsigned)axes_.count()) return 0;  return axes_.at(axisIndex); }] *)
Definition axis (p : MPlot) (axisIndex : Z) : outcome (option nat) :=
  if to_unsigned axisIndex >=? to_unsigned (count (axes_ p))
  then mret null
  else a ← at_ (axes_ p) axisIndex; mret (Some a).

(** [MPlotAxisScale* axisScale(int axisScaleIndex)], same shape on [axisScales_]. *)
Definition axisScale (p : MPlot) (axisScaleIndex : Z) : outcome (option nat) :=
  if to_unsigned axisScaleIndex >=? to_unsigned (count (axisScales_ p))
  then mret null
  else a ← at_ (axisScales_ p) axisScaleIndex; mret (Some a).

(** A [QList] never holds more than [INT_MAX] elements. *)
Definition lists_fit (p : MPlot) : Prop :=
  count (items_ p) <= INT_MAX /\ count (axes_ p) <= INT_MAX /\
  count (axisScales_ p) <= INT_MAX.

(** [int numItems() const { return items_.count(); }] *)
Definition numItems (p : MPlot) : Z := count (items_ p).

(** [QList<MPlotItem*> plotItems() const { return items_; }] *)
Definition plotItems (p : MPlot) : list nat := items_ p.

(** [QList<T>::indexOf(value)]: the index of the first occurrence of
    [value], [-1] when there is none. *)
Fixpoint indexOf_from (l : list nat) (value : nat) (from : Z) : Z :=
  match l with
  | [] => -1
  | x :: rest => if Nat.eqb x value then from else indexOf_from rest value (from + 1)
  end.

Definition indexOf (l : list nat) (value : nat) : Z := indexOf_from l value 0.

(** [int indexOfAxis(MPlotAxis* axis) const { return axes_.indexOf(axis); }] *)
Definition indexOfAxis (p : MPlot) (a : nat) : Z := indexOf (axes_ p) a.

(** [int indexOfAxisScale(const MPlotAxisScale* axisScale) const
    { return axisScales_.indexOf(const_cast<MPlotAxisScale*>(axisScale)); }] *)
Definition indexOfAxisScale (p : MPlot) (a : nat) : Z := indexOf (axisScales_ p) a.

(** [enum StandardAxis { Left = 0, Bottom, Right, Top, VerticalRelative,
    HorizontalRelative };] *)
Inductive StandardAxis : Type :=
  | Left | Bottom | Right | Top | VerticalRelative | HorizontalRelative.

Definition StandardAxis_value (which : StandardAxis) : Z :=
  match which with
  | Left => 0 | Bottom => 1 | Right => 2 | Top => 3
  | VerticalRelative => 4 | HorizontalRelative => 5
  end.

(** The accessors by name read the list without a guard:
    [MPlotAxis* axisLeft() { return axes_.at(MPlot::Left); }] and its
    siblings [axisBottom], [axisRight], [axisTop]. *)
Definition axisNamed (p : MPlot) (which : StandardAxis) : outcome (option nat) :=
  a ← at_ (axes_ p) (StandardAxis_value which); mret (Some a).

Definition axisLeft (p : MPlot) : outcome (option nat) := axisNamed p Left.
Definition axisBottom (p : MPlot) : outcome (option nat) := axisNamed p Bottom.
Definition axisRight (p : MPlot) : outcome (option nat) := axisNamed p Right.
Definition axisTop (p : MPlot) : outcome (option nat) := axisNamed p Top.

(** [MPlotAxisScale* axisScaleLeft() { return axisScales_.at(MPlot::Left); }]
    and its siblings, up to [axisScaleHorizontalRelative] and
    [axisScaleVerticalRelative]. *)
Definition axisScaleNamed (p : MPlot) (which : StandardAxis) : outcome (option nat) :=
  a ← at_ (axisScales_ p) (StandardAxis_value which); mret (Some a).

Definition axisScaleLeft (p : MPlot) : outcome (option nat) := axisScaleNamed p Left.
Definition axisScaleBottom (p : MPlot) : outcome (option nat) := axisScaleNamed p Bottom.
Definition axisScaleRight (p : MPlot) : outcome (option nat) := axisScaleNamed p Right.
Definition axisScaleTop (p : MPlot) : outcome (option nat) := axisScaleNamed p Top.
Definition axisScaleHorizontalRelative (p : MPlot) : outcome (option nat) :=
  axisScaleNamed p HorizontalRelative.
Definition axisScaleVerticalRelative (p : MPlot) : outcome (option nat) :=
  axisScaleNamed p VerticalRelative.

(** [qreal margins_[4]] and
    [qreal margin(MPlot::StandardAxis which) const { return margins_[(int)which]; }]:
    a read of the array at the value of the enumerator; a read past its four
    elements is undefined. *)
Record Margins : Type := mkMargins {
  margin0 : qreal; margin1 : qreal; margin2 : qreal; margin3 : qreal
}.

Definition margin (margins_ : Margins) (which : StandardAxis) : outcome qreal :=
  match StandardAxis_value which with
  | 0 => Ret (margin0 margins_)
  | 1 => Ret (margin1 margins_)
  | 2 => Ret (margin2 margins_)
  | 3 => Ret (margin3 margins_)
  | _ => Undefined
  end.

(** [marginLeft() { return margins_[MPlot::Left]; }] and its siblings. *)
Definition marginLeft (margins_ : Margins) : qreal := margin0 margins_.
Definition marginBottom (margins_ : Margins) : qreal := margin1 margins_.
Definition marginRight (margins_ : Margins) : qreal := margin2 margins_.
Definition marginTop (margins_ : Margins) : qreal := margin3 margins_.

End MPlotAccessors.

(** ** [MPlotCursorTool] (MPlotTools) *)

Module MPlotCursorTool.

(** The part of [MPlotPoint] the tool reads and writes. *)
Record MPlotPoint : Type := mkMPlotPoint {
  value_ : QPointF;
  plot_of : option nat;
  yAxisTarget : option nat;
  xAxisTarget : option nat
}.

(** Everything a handler of the tool can reach: the tool's members, the
    function-local [static unsigned activeCursor], and the objects behind
    the pointers. *)
Record World : Type := mkWorld {
  cursors_ : list nat;
  plot : option nat;
  activeCursor : Z;
  points : nat -> MPlotPoint;
  plots : nat -> MPlotAccessors.MPlot;
  scales : AxisStore;
  valueChanged : list (Z * QPointF)
}.

(** [unsigned numCursors() const { return cursors_.count(); }] *)
Definition numCursors (w : World) : Z := to_unsigned (count (cursors_ w)).

(** [a % b] on [unsigned]: undefined for [b = 0]. *)
Definition umod (a b : Z) : outcome Z :=
  if b =? 0 then Undefined else Ret (a mod b).

(** [QPointF value(unsigned cursorIndex) const]. *)
Definition value (w : World) (cursorIndex : Z) : outcome QPointF :=
  if cursorIndex <? numCursors w
  then c ← at_ (cursors_ w) cursorIndex; mret (value_ (points w c))
  else mret (mkPoint 0%Q 0%Q).

(** [MPlotPoint* cursor(unsigned cursorIndex) const]. *)
Definition cursor (w : World) (cursorIndex : Z) : outcome (option nat) :=
  if cursorIndex <? numCursors w
  then c ← at_ (cursors_ w) cursorIndex; mret (Some c)
  else mret None.

Definition setValue (v : QPointF) (p : MPlotPoint) : MPlotPoint :=
  {| value_ := v; plot_of := plot_of p;
     yAxisTarget := yAxisTarget p; xAxisTarget := xAxisTarget p |}.

(** Modelled from the spec: [MPlot::addItem] is defined in [MPlot.cpp], which
    is not among the sources.  Per the comments of [MPlot.h] it appends the
    item to the plot's items, makes it a child of the plot, and targets it
    at the plot's default (left, bottom) axis scales. *)
Definition addItem (pl item : nat) (w : World) : outcome World :=
  y ← MPlotAccessors.axisScale (plots w pl) 0;
  x ← MPlotAccessors.axisScale (plots w pl) 1;
  let p := points w item in
  let p' := {| value_ := value_ p; plot_of := Some pl;
               yAxisTarget := y; xAxisTarget := x |} in
  let P := plots w pl in
  let P' := {| MPlotAccessors.items_ := MPlotAccessors.items_ P ++ [item];
               MPlotAccessors.axes_ := MPlotAccessors.axes_ P;
               MPlotAccessors.axisScales_ := MPlotAccessors.axisScales_ P |} in
  mret {| cursors_ := cursors_ w; plot := plot w; activeCursor := activeCursor w;
          points := <[item := p']> (points w);
          plots := <[pl := P']> (plots w);
          scales := scales w; valueChanged := valueChanged w |}.

Definition option_nat_eqb (a b : option nat) : bool :=
  match a, b with
  | Some x, Some y => Nat.eqb x y
  | None, None => true
  | _, _ => false
  end.

Section Handlers.

(** [MPlotAxisScale::mapDrawingToData(qreal)] is defined outside the
    sources; the handlers are read for any such mapping. *)
Variable mapDrawingToData : MPlotAxisScale -> qreal -> qreal.

(** [void MPlotCursorTool::mousePressEvent(QGraphicsSceneMouseEvent* event)]:
    [[
    if(event->button() == Qt::LeftButton) {
      static unsigned activeCursor = 0;
      unsigned c = activeCursor % numCursors();
      MPlotPoint* cursor = cursors_.at(c);
      if(cursor->plot() != plot()) plot()->addItem(cursor);
      qreal y = event->pos().y();  qreal x = event->pos().x();
      if(cursor->yAxisTarget()) y = cursor->yAxisTarget()->mapDrawingToData(y);
      if(cursor->xAxisTarget()) x = cursor->xAxisTarget()->mapDrawingToData(x);
      QPointF newPos(x, y);
      cursor->setValue(newPos);
      emit valueChanged(c, newPos);
      activeCursor++;
    }
    event->ignore();
    ]] *)
Definition mousePressEvent (event : QGraphicsSceneMouseEvent) (w : World)
  : outcome World :=
  if MouseButton_eqb (button event) LeftButton then
    c ← umod (activeCursor w) (numCursors w);
    cur ← at_ (cursors_ w) c;
    w1 ← (if option_nat_eqb (plot_of (points w cur)) (plot w) then mret w
          else match plot w with
               | Some pl => addItem pl cur w
               | None => Undefined
               end);
    let y := py (pos event) in
    let x := px (pos event) in
    let y := match yAxisTarget (points w1 cur) with
             | Some a => mapDrawingToData (scales w1 a) y
             | None => y
             end in
    let x := match xAxisTarget (points w1 cur) with
             | Some a => mapDrawingToData (scales w1 a) x
             | None => x
             end in
    let newPos := mkPoint x y in
    mret {| cursors_ := cursors_ w1; plot := plot w1;
            activeCursor := (activeCursor w1 + 1) mod UINT_MOD;
            points := <[cur := setValue newPos (points w1 cur)]> (points w1);
            plots := plots w1; scales := scales w1;
            valueChanged := valueChanged w1 ++ [(c, newPos)] |}
  else mret w.

End Handlers.

(** The tool as its constructor leaves it: no cursors. *)
Definition fresh_tool (pl : option nat) (pts : nat -> MPlotPoint)
    (pls : nat -> MPlotAccessors.MPlot) (sc : AxisStore) : World :=
  {| cursors_ := []; plot := pl; activeCursor := 0; points := pts;
     plots := pls; scales := sc; valueChanged := [] |}.

(** [MPlotMarkerShape::HorizontalBeam] and the other two shapes
    [addCursor] uses. *)
Inductive MarkerShape : Type := HorizontalBeam | VerticalBeam | Cross.

(** The tool with what [addCursor] sets on a cursor besides the members of
    [MPlotPoint] above (the selectable flag and the marker), and the number of
    [qWarning()] messages it has written. *)
Record Scene : Type := mkScene {
  world : World;
  selectableOf : nat -> bool;
  markerOf : nat -> option (MarkerShape * qreal);
  warnings : nat
}.

(** [MPlotItem::setYAxisTarget], [setXAxisTarget]: the item takes the axis
    scale as its target. *)
Definition setYAxisTarget (a : nat) (p : MPlotPoint) : MPlotPoint :=
  {| value_ := value_ p; plot_of := plot_of p;
     yAxisTarget := Some a; xAxisTarget := xAxisTarget p |}.
Definition setXAxisTarget (a : nat) (p : MPlotPoint) : MPlotPoint :=
  {| value_ := value_ p; plot_of := plot_of p;
     yAxisTarget := yAxisTarget p; xAxisTarget := Some a |}.

Definition with_points (pts : nat -> MPlotPoint) (w : World) : World :=
  {| cursors_ := cursors_ w; plot := plot w; activeCursor := activeCursor w;
     points := pts; plots := plots w; scales := scales w;
     valueChanged := valueChanged w |}.

Definition with_cursors (cs : list nat) (w : World) : World :=
  {| cursors_ := cs; plot := plot w; activeCursor := activeCursor w;
     points := points w; plots := plots w; scales := scales w;
     valueChanged := valueChanged w |}.

Section Cursors.

(** [MPLOT_CURSOR_BIG_HACK], the state of a default-constructed [MPlotPoint]
    and [MPlot::removeItem] are defined outside the sources.  [removeItem]
    works on the plots and on the items. *)
Variable MPLOT_CURSOR_BIG_HACK : qreal.
Variable defaultPoint : MPlotPoint.
Variable removeItem :
  nat -> nat -> (nat -> MPlotAccessors.MPlot) * (nat -> MPlotPoint) ->
  (nat -> MPlotAccessors.MPlot) * (nat -> MPlotPoint).

(** [[
    if(!xAxisScale && yAxisScale)      newCursor->setMarker(MPlotMarkerShape::HorizontalBeam, MPLOT_CURSOR_BIG_HACK);
    else if(xAxisScale && !yAxisScale) newCursor->setMarker(MPlotMarkerShape::VerticalBeam, MPLOT_CURSOR_BIG_HACK);
    else                               newCursor->setMarker(MPlotMarkerShape::Cross, MPLOT_CURSOR_BIG_HACK);
    ]] *)
Definition cursorMarker (xAxisScale yAxisScale : option nat) : MarkerShape :=
  match xAxisScale, yAxisScale with
  | None, Some _ => HorizontalBeam
  | Some _, None => VerticalBeam
  | _, _ => Cross
  end.

(** [void MPlotCursorTool::addCursor(MPlotAxisScale* xAxisScale,
    MPlotAxisScale* yAxisScale, const QPointF& initialPos)]; [newCursor] is
    the address [new MPlotPoint()] returns.
    [[
    if(!plot()) { qWarning() << "..."; return; }
    MPlotPoint* newCursor = new MPlotPoint();
    newCursor->setSelectable(false);
    ... setMarker ...
    plot()->addItem(newCursor);
    if(yAxisScale) newCursor->setYAxisTarget(yAxisScale);
    if(xAxisScale) newCursor->setXAxisTarget(xAxisScale);
    newCursor->setValue(initialPos);
    cursors_ << newCursor;
    ]] *)
Definition addCursor (newCursor : nat) (xAxisScale yAxisScale : option nat)
    (initialPos : QPointF) (sc : Scene) : outcome Scene :=
  match plot (world sc) with
  | None =>
      mret {| world := world sc; selectableOf := selectableOf sc;
              markerOf := markerOf sc; warnings := S (warnings sc) |}
  | Some pl =>
      let w0 := with_points (<[newCursor := defaultPoint]> (points (world sc))) (world sc) in
      w1 ← addItem pl newCursor w0;
      let pt := points w1 newCursor in
      let pt := match yAxisScale with Some a => setYAxisTarget a pt | None => pt end in
      let pt := match xAxisScale with Some a => setXAxisTarget a pt | None => pt end in
      let pt := setValue initialPos pt in
      mret {| world := with_cursors (cursors_ w1 ++ [newCursor])
                         (with_points (<[newCursor := pt]> (points w1)) w1);
              selectableOf := <[newCursor := false]> (selectableOf sc);
              markerOf := <[newCursor := Some (cursorMarker xAxisScale yAxisScale,
                                               MPLOT_CURSOR_BIG_HACK)]> (markerOf sc);
              warnings := warnings sc |}
  end.

(** [[
    void MPlotCursorTool::removeCursor() {
      if(numCursors() > 0) {
        MPlotPoint* removeMe = cursors_.takeLast();
        if(plot()) plot()->removeItem(removeMe);
        delete removeMe;
      }
    }
    ]]
    After [delete] the object is gone; the stores keep no trace of that. *)
Definition removeCursor (sc : Scene) : outcome Scene :=
  let w := world sc in
  if numCursors w >? 0 then
    match list.last (cursors_ w) with
    | Some removeMe =>
        let stores := match plot w with
                      | Some pl => removeItem pl removeMe (plots w, points w)
                      | None => (plots w, points w)
                      end in
        mret {| world := {| cursors_ := removelast (cursors_ w); plot := plot w;
                            activeCursor := activeCursor w;
                            points := snd stores; plots := fst stores;
                            scales := scales w;
                            valueChanged := valueChanged w |};
                selectableOf := selectableOf sc; markerOf := markerOf sc;
                warnings := warnings sc |}
    | None => Undefined
    end
  else mret sc.

End Cursors.

End MPlotCursorTool.

(** ** [MPlotVectorSeriesData] (MPlotSeriesData.h) *)

Module MPlotVectorSeriesData.

Record t : Type := mkVec { xValues_ : list qreal; yValues_ : list qreal }.

(** [virtual int count() const { return xValues_.count(); }] *)
Definition count_ (d : t) : Z := count (xValues_ d).

(** [virtual qreal x(unsigned index) const { return xValues_.at(index); }]
    and its sibling [y]: "You can assume that index is valid". *)
Definition x (d : t) (index : Z) : outcome qreal := at_ (xValues_ d) index.
Definition y (d : t) (index : Z) : outcome qreal := at_ (yValues_ d) index.

(** Modelled from the spec: the three setters are defined in
    [MPlotSeriesData.cpp], which is not among the sources; the header
    documents them.  "Set the X and Y values. xValues and yValues must have
    the same size(); if not, this does nothing and returns false." *)
Definition setValues (xValues yValues : list qreal) (d : t) : t * bool :=
  if count xValues =? count yValues
  then ({| xValues_ := xValues; yValues_ := yValues |}, true)
  else (d, false).

(** Modelled from the spec: "Set a specfic X value. index must be in range
    for the current data, otherwise does nothing and returns false." *)
Definition setXValue (index : Z) (xValue : qreal) (d : t) : t * bool :=
  if (0 <=? index) && (index <? count (xValues_ d))
  then ({| xValues_ := <[Z.to_nat index := xValue]> (xValues_ d);
           yValues_ := yValues_ d |}, true)
  else (d, false).

(** Modelled from the spec: "Set a specific Y value. index must be in range
    for the current data, otherwise does nothing and returns false." *)
Definition setYValue (index : Z) (yValue : qreal) (d : t) : t * bool :=
  if (0 <=? index) && (index <? count (yValues_ d))
  then ({| xValues_ := xValues_ d;
           yValues_ := <[Z.to_nat index := yValue]> (yValues_ d) |}, true)
  else (d, false).

(** [[
    virtual void xValues(unsigned indexStart, unsigned indexEnd, qreal *outputValues) const
    { memcpy(outputValues, xValues_.constData()+indexStart,
             (indexEnd-indexStart+1)*sizeof(qreal)); }
    ]]
    The number of values is computed on [unsigned]; the values written to
    [outputValues] are returned.  Reading past the end of the vector is
    undefined. *)
Definition blockRead (l : list qreal) (indexStart indexEnd : Z) : outcome (list qreal) :=
  let n := (indexEnd - indexStart + 1) mod UINT_MOD in
  if indexStart + n <=? count l
  then Ret (take (Z.to_nat n) (drop (Z.to_nat indexStart) l))
  else Undefined.

Definition xValues (d : t) (indexStart indexEnd : Z) : outcome (list qreal) :=
  blockRead (xValues_ d) indexStart indexEnd.
Definition yValues (d : t) (indexStart indexEnd : Z) : outcome (list qreal) :=
  blockRead (yValues_ d) indexStart indexEnd.

End MPlotVectorSeriesData.

(** ** Comparisons on [qreal] as the code writes them *)

Definition qlt (a b : qreal) : bool := negb (Qle_bool b a).
Definition qgt (a b : qreal) : bool := qlt b a.

(** [QPointF::manhattanLength()]. *)
Definition manhattanLength (p : QPointF) : qreal := (Qabs (px p) + Qabs (py p))%Q.

(** [QPointF operator-]. *)
Definition point_sub (p q : QPointF) : QPointF :=
  mkPoint (px p - px q)%Q (py p - py q)%Q.

(** [QRectF(topLeft, bottomRight)]. *)
Definition rect_of_corners (p q : QPointF) : QRectF :=
  mkRect (px p) (py p) (px q - px p)%Q (py q - py p)%Q.

(** [QRectF()]. *)
Definition null_rect : QRectF := mkRect 0%Q 0%Q 0%Q 0%Q.

(** ** [MPlotPlotSelectorTool] (MPlotTools) *)

Module MPlotPlotSelectorTool.

(** The part of [MPlotItem] the tool reads and writes. *)
Record MPlotItem : Type := mkItem { selectable : bool; selected : bool }.

Definition setSelected (b : bool) (it : MPlotItem) : MPlotItem :=
  {| selectable := selectable it; selected := b |}.

(** What the handler does to the world outside the tool, in order: calls
    of [MPlotItem::setSelected] and the signals it emits. *)
Inductive Signal : Type :=
  | setSelectedCall (item : nat) (b : bool)
  | itemSelected (s : nat)
  | deselected.

(** The tool's member [selectedItem_], the function-local
    [static unsigned int selIndex], the plot's item list and the items. *)
Record World : Type := mkWorld {
  selectedItem_ : option nat;
  selIndex : Z;
  plotItems : list nat;
  items : nat -> MPlotItem;
  emitted : list Signal
}.

(** [MPlotItem* selectedItem() { return selectedItem_; }] *)
Definition selectedItem (w : World) : option nat := selectedItem_ w.

Definition ptr_eqb (a : nat) (b : option nat) : bool :=
  match b with Some y => Nat.eqb a y | None => false end.

(** The world with the static [selIndex] at a new value. *)
Definition with_selIndex (n : Z) (w : World) : World :=
  {| selectedItem_ := selectedItem_ w; selIndex := n; plotItems := plotItems w;
     items := items w; emitted := emitted w |}.

Section Handlers.

(** [MPLOT_SELECTION_BALLPARK] and the hit test
    [s2->shape().intersects(s2->mapRectFromScene(clickRegion))] belong to
    headers and to the scene framework outside the sources. *)
Variable MPLOT_SELECTION_BALLPARK : qreal.
Variable shapeIntersects : nat -> MPlotItem -> QRectF -> bool.

Definition clickRegion (event : QGraphicsSceneMouseEvent) : QRectF :=
  mkRect (px (scenePos event) - MPLOT_SELECTION_BALLPARK)%Q
         (py (scenePos event) - MPLOT_SELECTION_BALLPARK)%Q
         (2 * MPLOT_SELECTION_BALLPARK)%Q (2 * MPLOT_SELECTION_BALLPARK)%Q.

(** The [foreach] that filters the plot items in range of the click. *)
Definition selectedPossibilities (event : QGraphicsSceneMouseEvent) (w : World)
  : list nat :=
  List.filter
    (fun s2 => selectable (items w s2)
               && shapeIntersects s2 (items w s2) (clickRegion event))
    (plotItems w).

(** [[
    if(selectedPossibilities.count() > 0)
      s = selectedPossibilities.at( (selIndex++) % selectedPossibilities.count() );
    else
      s = 0;
    ]]
    returns [s] and the new value of [selIndex]. *)
Definition choose (poss : list nat) (sel : Z) : outcome (option nat * Z) :=
  if count poss >? 0
  then s ← at_ poss (sel mod to_unsigned (count poss));
       mret (Some s, (sel + 1) mod UINT_MOD)
  else mret (None, sel).

(** [[
    if(s && s != selectedItem_) {
      if(selectedItem_) selectedItem_->setSelected(false);
      s->setSelected(true);
      emit itemSelected(selectedItem_ = s);
    }
    ]] *)
Definition selectNew (s : option nat) (w : World) : World :=
  match s with
  | Some s' =>
      if negb (ptr_eqb s' (selectedItem_ w)) then
        let items1 := match selectedItem_ w with
                      | Some old => <[old := setSelected false (items w old)]> (items w)
                      | None => items w
                      end in
        let items2 := <[s' := setSelected true (items1 s')]> items1 in
        {| selectedItem_ := Some s'; selIndex := selIndex w;
           plotItems := plotItems w; items := items2;
           emitted := emitted w
                      ++ match selectedItem_ w with
                         | Some old => [setSelectedCall old false]
                         | None => []
                         end
                      ++ [setSelectedCall s' true; itemSelected s'] |}
      else w
  | None => w
  end.

(** [[
    if(!s && selectedItem_) {
      selectedItem_->setSelected(false);
      selectedItem_ = 0;
      emit deselected();
    }
    ]] *)
Definition deselectOld (s : option nat) (w : World) : World :=
  match s, selectedItem_ w with
  | None, Some old =>
      {| selectedItem_ := None; selIndex := selIndex w;
         plotItems := plotItems w;
         items := <[old := setSelected false (items w old)]> (items w);
         emitted := emitted w ++ [setSelectedCall old false; deselected] |}
  | _, _ => w
  end.

(** [void MPlotPlotSelectorTool::mousePressEvent(QGraphicsSceneMouseEvent* event)]. *)
Definition mousePressEvent (event : QGraphicsSceneMouseEvent) (w : World)
  : outcome World :=
  let poss := selectedPossibilities event w in
  r ← choose poss (selIndex w);
  mret (deselectOld (fst r) (selectNew (fst r) (with_selIndex (snd r) w))).

(** A run of presses, stopping at the first undefined one. *)
Fixpoint presses (events : list QGraphicsSceneMouseEvent) (w : World)
  : outcome World :=
  match events with
  | [] => mret w
  | e :: rest => w' ← mousePressEvent e w; presses rest w'
  end.

End Handlers.

(** The constructor sets [selectedItem_ = 0]; [selIndex] is a static shared
    by all presses, so its value at the first press of a given tool is
    arbitrary. *)
Definition fresh (sel : Z) (its : list nat) (st : nat -> MPlotItem) : World :=
  {| selectedItem_ := None; selIndex := sel; plotItems := its; items := st;
     emitted := [] |}.

(** No item is selected but the one the tool tracks. *)
Definition only_tracked (w : World) : Prop :=
  forall p, selected (items w p) = true -> selectedItem_ w = Some p.

End MPlotPlotSelectorTool.

(** ** Binary64: the [qreal] the wheel zoomer computes with *)

Module Binary64.

Import PrimFloat.

(** [fabs]. *)
Definition fabs (x : float) : float := abs x.

(** The conversion of an [int] to [double]; it is exact. *)
Definition double_of_int (z : Z) : float :=
  if (z <? 0)%Z then opp (of_uint63 (Uint63.of_Z (- z)))
  else of_uint63 (Uint63.of_Z z).

(** [template <typename T> const T &qMin(const T &a, const T &b)
    { return (a < b) ? a : b; }] *)
Definition qMin (a b : float) : float := if (a <? b)%float then a else b.

(** The rational a finite double denotes, in lowest terms; none for an
    infinity or a NaN.  A finite double is [(-1)^s m 2^e]. *)
Definition value (f : float) : option Q :=
  match FloatOps.Prim2SF f with
  | SpecFloat.S754_zero _ => Some 0%Q
  | SpecFloat.S754_finite s m e =>
      let n := if s then Zneg m else Zpos m in
      Some match e with
           | Zneg k => Qred (Qmake n (2 ^ k)%positive)
           | _ => inject_Z (n * 2 ^ e)
           end
  | SpecFloat.S754_infinity _ | SpecFloat.S754_nan => None
  end.

Record QPointF : Type := mkPoint { px : float; py : float }.

Record MPlotAxisRange : Type := mkRange { rmin : float; rmax : float }.

(** Modelled from the spec: the axis scale of [MPlotAxis.h], as above, with
    its range in binary64. *)
Record MPlotAxisScale : Type := mkAxisScale {
  orientation : Orientation;
  dataRange : MPlotAxisRange;
  autoScaleEnabled : bool
}.

Definition axis_min (a : MPlotAxisScale) : float := rmin (dataRange a).
Definition axis_max (a : MPlotAxisScale) : float := rmax (dataRange a).

(** Modelled from the spec: [setDataRange(range, false)] makes [range] the
    data range of the axis scale. *)
Definition setDataRange (r : MPlotAxisRange) (a : MPlotAxisScale) : MPlotAxisScale :=
  {| orientation := orientation a; dataRange := r;
     autoScaleEnabled := autoScaleEnabled a |}.

End Binary64.

(** ** [MPlotWheelZoomerTool] (MPlotTools) *)

Module MPlotWheelZoomerTool.

Import PrimFloat Binary64.

(** The store of axis scales the tool works on. *)
Abbreviation AxisStore := (nat -> Binary64.MPlotAxisScale).

(** The part of [QGraphicsSceneWheelEvent] the tool reads. *)
Record QGraphicsSceneWheelEvent : Type := mkWheel {
  wpos : Binary64.QPointF;
  delta : Z
}.

Record Tool : Type := mkTool { zf_ : float; targetAxes_ : list nat }.

(** [void setZoomIncrement(qreal zi) { zf_ = fabs(zi); }] *)
Definition setZoomIncrement (zi : float) (t : Tool) : Tool :=
  {| zf_ := fabs zi; targetAxes_ := targetAxes_ t |}.

(** [[
    qreal F = (1 - qMin(zf_ * fabs(event->delta()) / 120, 0.9));
    if(event->delta() < 0) F = 1/F;
    ]]
    [0.9] is the double nearest to nine tenths, [1] and [120] are converted
    from [int]. *)
Definition zoomFactor (zf : float) (d : Z) : float :=
  let F := (1 - qMin (zf * fabs (double_of_int d) / 120) 0.9)%float in
  if (d <? 0)%Z then (1 / F)%float else F.

Section Handlers.

(** [MPlotAxisScale::mapDrawingToData(qreal)] is defined outside the
    sources. *)
Variable mapDrawingToData : Binary64.MPlotAxisScale -> float -> float.

(** The position of the cursor on one axis, in data coordinates. *)
Definition dataPos (event : QGraphicsSceneWheelEvent) (a : Binary64.MPlotAxisScale)
    : float :=
  let drawingPos := match orientation a with
                    | Vertical => py (wpos event)
                    | Horizontal => px (wpos event)
                    end in
  mapDrawingToData a drawingPos.

(** The body of [foreach(MPlotAxisScale* axis, targetAxes_)], on the
    object [axis] points to:
    [[
    qreal dataPos = axis->mapDrawingToData(drawingPos);
    newMin = dataPos + F*(axis->min() - dataPos);
    newMax = dataPos + F*(axis->max() - dataPos);
    axis->setDataRange(MPlotAxisRange(newMin, newMax), false);
    ]] *)
Definition zoomScale (event : QGraphicsSceneWheelEvent) (F : float)
    (a : Binary64.MPlotAxisScale) : Binary64.MPlotAxisScale :=
  let x := dataPos event a in
  let newMin := (x + F * (axis_min a - x))%float in
  let newMax := (x + F * (axis_max a - x))%float in
  setDataRange (mkRange newMin newMax) a.

Definition zoomAxis (event : QGraphicsSceneWheelEvent) (F : float)
    (s : AxisStore) (axis : nat) : AxisStore :=
  <[axis := zoomScale event F (s axis)]> s.

(** [void MPlotWheelZoomerTool::wheelEvent(QGraphicsSceneWheelEvent* event)]. *)
Definition wheelEvent (event : QGraphicsSceneWheelEvent) (t : Tool)
    (s : AxisStore) : AxisStore :=
  let F := zoomFactor (zf_ t) (delta event) in
  fold_left (zoomAxis event F) (targetAxes_ t) s.

End Handlers.

(** [qreal zoomIncrement() const { return zf_; }] *)
Definition zoomIncrement (t : Tool) : float := zf_ t.

(** The two relations the comment above [wheelEvent] derives the new range
    from, read on the rationals the doubles denote: "the new scale is ...
    multiplied by factor F", and "distance from x to min, as fraction of
    total axis range, stays constant". *)
Definition scaled_by (F mn mx mn' mx' : Q) : Prop :=
  (mx' - mn' == F * (mx - mn))%Q.
Definition keeps_fraction (x mn mx mn' mx' : Q) : Prop :=
  ((x - mn) / (mx - mn) == (x - mn') / (mx' - mn'))%Q.

(** An end [e'] of the new range that is the unrounded [x + F (e - x)]. *)
Definition unrounded (x F e e' : Q) : Prop := (e' == x + F * (e - x))%Q.

End MPlotWheelZoomerTool.

(** ** [MPlotDragZoomerTool] (MPlotTools) *)

Module MPlotDragZoomerTool.

(** One entry of the recall stack:
    [QList<QPair<MPlotAxisScale*, MPlotAxisRange> >]. *)
Abbreviation ZoomList := (list (nat * MPlotAxisRange)).

(** [oldZooms_] is a [QStack]; the head of the list is its top. *)
Record Tool : Type := mkTool {
  dragStarted_ : bool;
  dragInProgress_ : bool;
  targetAxes_ : list nat;
  oldZooms_ : list ZoomList;
  selectionRect_ : QRectF
}.

(** The constructor: an empty rubber band, no drag. *)
Definition fresh (targets : list nat) : Tool :=
  {| dragStarted_ := false; dragInProgress_ := false; targetAxes_ := targets;
     oldZooms_ := []; selectionRect_ := null_rect |}.

(** Modelled from the spec: the target axes are a member of the tool base
    class, whose header is outside the sources; the client can change them
    between two events ("might have removed this axis scale as a target axis
    (active on this tool) since then", says [mouseReleaseEvent]). *)
Definition setTargetAxes (targets : list nat) (t : Tool) : Tool :=
  {| dragStarted_ := dragStarted_ t; dragInProgress_ := dragInProgress_ t;
     targetAxes_ := targets; oldZooms_ := oldZooms_ t;
     selectionRect_ := selectionRect_ t |}.

Abbreviation World := (Tool * AxisStore)%type.

(** [targetAxes_.contains(axis)]. *)
Definition contains (l : list nat) (a : nat) : bool := existsb (Nat.eqb a) l.

(** [foreach(MPlotAxisScale* axis, targetAxes_) axis->setAutoScaleEnabled(b);] *)
Definition setAutoScaleAll (b : bool) (targets : list nat) (s : AxisStore) : AxisStore :=
  fold_left (fun s axis => <[axis := setAutoScaleEnabled b (s axis)]> s) targets s.

(** [[
    void MPlotDragZoomerTool::mousePressEvent(QGraphicsSceneMouseEvent* event) {
      if(event->button() == Qt::LeftButton) dragStarted_ = true;
    }
    ]] *)
Definition mousePressEvent (event : QGraphicsSceneMouseEvent) (w : World) : World :=
  let (t, s) := w in
  if MouseButton_eqb (button event) LeftButton then
    ({| dragStarted_ := true; dragInProgress_ := dragInProgress_ t;
        targetAxes_ := targetAxes_ t; oldZooms_ := oldZooms_ t;
        selectionRect_ := selectionRect_ t |}, s)
  else w.

Section Handlers.

(** [MPLOT_RUBBERBAND_DEADZONE] comes from a header outside the sources,
    like [MPlotAxisScale::mapDrawingToData(const MPlotAxisRange&)]. *)
Variable MPLOT_RUBBERBAND_DEADZONE : qreal.
Variable mapDrawingToDataRange : MPlotAxisScale -> MPlotAxisRange -> MPlotAxisRange.

(** [[
    if(dragStarted_) {
      QPointF dragDistance = event->buttonDownScenePos(Qt::LeftButton) - event->scenePos();
      if(dragDistance.manhattanLength() > MPLOT_RUBBERBAND_DEADZONE) {
        dragInProgress_ = true;
        dragStarted_ = false;
        foreach(MPlotAxisScale* axis, targetAxes_) axis->setAutoScaleEnabled(false);
      }
    }
    if(dragInProgress_)
      selectionRect_->setRect(QRectF(event->buttonDownPos(Qt::LeftButton), event->pos()));
    ]] *)
Definition mouseMoveEvent (event : QGraphicsSceneMouseEvent) (w : World) : World :=
  let (t, s) := w in
  let dragDistance := point_sub (buttonDownScenePos_Left event) (scenePos event) in
  let '(t1, s1) :=
    if dragStarted_ t && qgt (manhattanLength dragDistance) MPLOT_RUBBERBAND_DEADZONE
    then ({| dragStarted_ := false; dragInProgress_ := true;
             targetAxes_ := targetAxes_ t; oldZooms_ := oldZooms_ t;
             selectionRect_ := selectionRect_ t |},
          setAutoScaleAll false (targetAxes_ t) s)
    else (t, s) in
  if dragInProgress_ t1
  then ({| dragStarted_ := dragStarted_ t1; dragInProgress_ := dragInProgress_ t1;
           targetAxes_ := targetAxes_ t1; oldZooms_ := oldZooms_ t1;
           selectionRect_ := rect_of_corners (buttonDownPos_Left event) (pos event) |},
        s1)
  else (t1, s1).

(** The body of the zooming [foreach]: record the old range of the axis,
    then zoom it to the rubber band.
    [[
    oldZoomList << QPair<MPlotAxisScale*, MPlotAxisRange>(axis, axis->dataRange());
    if(axis->orientation() == Qt::Vertical) {
      newRangeMin = event->buttonDownPos(Qt::LeftButton).y();  newRangeMax = event->pos().y();
    } else {
      newRangeMin = event->buttonDownPos(Qt::LeftButton).x();  newRangeMax = event->pos().x();
    }
    if(newRangeMin > newRangeMax) qSwap(newRangeMin, newRangeMax);
    axis->setDataRange(axis->mapDrawingToData(MPlotAxisRange(newRangeMin, newRangeMax)), false);
    ]] *)
Definition zoomAxis (event : QGraphicsSceneMouseEvent)
    (acc : ZoomList * AxisStore) (axis : nat) : ZoomList * AxisStore :=
  let (oldZoomList, s) := acc in
  let a := s axis in
  let '(newRangeMin, newRangeMax) :=
    match orientation a with
    | Vertical => (py (buttonDownPos_Left event), py (pos event))
    | Horizontal => (px (buttonDownPos_Left event), px (pos event))
    end in
  let '(newRangeMin, newRangeMax) :=
    if qgt newRangeMin newRangeMax then (newRangeMax, newRangeMin)
    else (newRangeMin, newRangeMax) in
  (oldZoomList ++ [(axis, dataRange a)],
   <[axis := setDataRange (mapDrawingToDataRange a (mkRange newRangeMin newRangeMax)) a]> s).

(** The body of the restoring [foreach]:
    [[
    MPlotAxisScale* axis = oldZoomSetting.first;
    if(targetAxes_.contains(axis)) axis->setDataRange(oldZoomSetting.second, false);
    ]] *)
Definition restoreAxis (targets : list nat) (s : AxisStore)
    (oldZoomSetting : nat * MPlotAxisRange) : AxisStore :=
  let axis := fst oldZoomSetting in
  if contains targets axis
  then <[axis := setDataRange (snd oldZoomSetting) (s axis)]> s
  else s.

(** The left-button half of [mouseReleaseEvent]. *)
Definition releaseLeft (event : QGraphicsSceneMouseEvent) (w : World) : World :=
  let (t, s) := w in
  if MouseButton_eqb (button event) LeftButton then
    if dragInProgress_ t then
      let (oldZoomList, s') := fold_left (zoomAxis event) (targetAxes_ t) ([], s) in
      ({| dragStarted_ := false; dragInProgress_ := false;
          targetAxes_ := targetAxes_ t; oldZooms_ := oldZoomList :: oldZooms_ t;
          selectionRect_ := null_rect |}, s')
    else
      ({| dragStarted_ := false; dragInProgress_ := dragInProgress_ t;
          targetAxes_ := targetAxes_ t; oldZooms_ := oldZooms_ t;
          selectionRect_ := null_rect |}, s)
  else w.

(** The right-button half of [mouseReleaseEvent]:
    [[
    if(!dragInProgress_ && event->button() == Qt::RightButton) {
      if(oldZooms_.count() > 0) {
        QList<QPair<MPlotAxisScale*, MPlotAxisRange> > oldZoomList = oldZooms_.pop();
        foreach(oldZoomSetting, oldZoomList) { ... }
      }
      else {
        foreach(MPlotAxisScale* axis, targetAxes_) axis->setAutoScaleEnabled(true);
      }
    }
    ]] *)
Definition releaseRight (event : QGraphicsSceneMouseEvent) (w : World) : World :=
  let (t, s) := w in
  if negb (dragInProgress_ t) && MouseButton_eqb (button event) RightButton then
    match oldZooms_ t with
    | oldZoomList :: rest =>
        ({| dragStarted_ := dragStarted_ t; dragInProgress_ := dragInProgress_ t;
            targetAxes_ := targetAxes_ t; oldZooms_ := rest;
            selectionRect_ := selectionRect_ t |},
         fold_left (restoreAxis (targetAxes_ t)) oldZoomList s)
    | [] => (t, setAutoScaleAll true (targetAxes_ t) s)
    end
  else w.

(** [void MPlotDragZoomerTool::mouseReleaseEvent(QGraphicsSceneMouseEvent* event)]. *)
Definition mouseReleaseEvent (event : QGraphicsSceneMouseEvent) (w : World) : World :=
  releaseRight event (releaseLeft event w).

(** Mouse events as the scene delivers them to the tool. *)
Inductive Event : Type :=
  | Press (e : QGraphicsSceneMouseEvent)
  | Move (e : QGraphicsSceneMouseEvent)
  | Release (e : QGraphicsSceneMouseEvent).

Definition handle (ev : Event) (w : World) : World :=
  match ev with
  | Press e => mousePressEvent e w
  | Move e => mouseMoveEvent e w
  | Release e => mouseReleaseEvent e w
  end.

Definition run (evs : list Event) (w : World) : World :=
  fold_left (fun w ev => handle ev w) evs w.

(** A move of the mouse that stays within the rubber-band deadzone. *)
Definition within_deadzone (e : QGraphicsSceneMouseEvent) : Prop :=
  (manhattanLength (point_sub (buttonDownScenePos_Left e) (scenePos e))
   <= MPLOT_RUBBERBAND_DEADZONE)%Q.

(** The left button over a trace: it goes down only when up, and up only
    when down.  [left_after down evs] is its state after [evs]. *)
Fixpoint buttons_ok (down : bool) (evs : list Event) : Prop :=
  match evs with
  | [] => True
  | Press e :: rest =>
      if MouseButton_eqb (button e) LeftButton
      then down = false /\ buttons_ok true rest
      else buttons_ok down rest
  | Release e :: rest =>
      if MouseButton_eqb (button e) LeftButton
      then down = true /\ buttons_ok false rest
      else buttons_ok down rest
  | Move _ :: rest => buttons_ok down rest
  end.

Fixpoint left_after (down : bool) (evs : list Event) : bool :=
  match evs with
  | [] => down
  | Press e :: rest =>
      left_after (if MouseButton_eqb (button e) LeftButton then true else down) rest
  | Release e :: rest =>
      left_after (if MouseButton_eqb (button e) LeftButton then false else down) rest
  | Move _ :: rest => left_after down rest
  end.

End Handlers.

(** The range of the rubber band on one axis scale, in drawing coordinates,
    as the zooming [foreach] computes it before it hands it to
    [mapDrawingToData]: the coordinate of the button-down position and that of
    the release, swapped when the first is the greater. *)
Definition rubberBandRange (event : QGraphicsSceneMouseEvent) (a : MPlotAxisScale)
    : MPlotAxisRange :=
  let '(newRangeMin, newRangeMax) :=
    match orientation a with
    | Vertical => (py (buttonDownPos_Left event), py (pos event))
    | Horizontal => (px (buttonDownPos_Left event), px (pos event))
    end in
  if qgt newRangeMin newRangeMax then mkRange newRangeMax newRangeMin
  else mkRange newRangeMin newRangeMax.

(** A move of the mouse that leaves the rubber-band deadzone. *)
Definition beyond_deadzone (MPLOT_RUBBERBAND_DEADZONE : qreal)
    (e : QGraphicsSceneMouseEvent) : Prop :=
  (MPLOT_RUBBERBAND_DEADZONE
   < manhattanLength (point_sub (buttonDownScenePos_Left e) (scenePos e)))%Q.

(** A drag-zoom gesture: the left button goes down, the mouse leaves the
    deadzone, the left button goes up. *)
Record Gesture : Type := mkGesture {
  g_press : QGraphicsSceneMouseEvent;
  g_move : QGraphicsSceneMouseEvent;
  g_release : QGraphicsSceneMouseEvent
}.

Definition gesture_events (g : Gesture) : list Event :=
  [Press (g_press g); Move (g_move g); Release (g_release g)].

Definition is_drag (MPLOT_RUBBERBAND_DEADZONE : qreal) (g : Gesture) : Prop :=
  button (g_press g) = LeftButton
  /\ beyond_deadzone MPLOT_RUBBERBAND_DEADZONE (g_move g)
  /\ button (g_release g) = LeftButton.

(** With the left button up, no drag is started or in progress. *)
Definition at_rest (down : bool) (t : Tool) : Prop :=
  down = false -> dragStarted_ t = false /\ dragInProgress_ t = false.

(** The events of a list of gestures, one gesture after the other. *)
Definition gestures_events (gs : list Gesture) : list Event :=
  concat (map gesture_events gs).

(** What the handlers keep true of a tool with target axes [targets] that
    started on the store [s0]: the rubber band is null unless a drag is in
    progress; during a drag auto-scaling is off on the targets; every entry
    of the zoom stack lists the targets; no other axis scale was written. *)
Definition coherent (targets : list nat) (s0 : AxisStore) (w : World) : Prop :=
  targetAxes_ (fst w) = targets
  /\ (dragInProgress_ (fst w) = false -> selectionRect_ (fst w) = null_rect)
  /\ (dragInProgress_ (fst w) = true ->
      forall a, In a targets -> autoScaleEnabled (snd w a) = false)
  /\ (forall zl, In zl (oldZooms_ (fst w)) -> map fst zl = targets)
  /\ (forall a, ~ In a targets -> snd w a = s0 a).

End MPlotDragZoomerTool.

(** ** [MPlotAbstractSeriesData] and [MPlotRealtimeModel] (MPlotSeriesData.h) *)

Module MPlotRealtimeModel.

(** [QQueue<qreal> xval_, yval_] and the four tracked indexes. *)
Record t : Type := mkModel {
  xval_ : list qreal;
  yval_ : list qreal;
  minYIndex_ : Z;
  maxYIndex_ : Z;
  minXIndex_ : Z;
  maxXIndex_ : Z
}.

(** [virtual int count() const]. *)
Definition count_ (m : t) : Z := count (xval_ m).

(** [list.at(i)] read as a value; [0] stands for a read the container
    would reject. *)
Definition valueAt (l : list qreal) (i : Z) : qreal :=
  if i <? 0 then 0%Q else default 0%Q (l !! Z.to_nat i).

(** Minimum and maximum differ by the comparison only: [better a b] says
    that [a] beats the record [b], [qlt] for a minimum and [qgt] for a
    maximum. *)
Section Search.

Variable better : qreal -> qreal -> bool.

(** Modelled from the spec: everything below in this module is defined in
    [MPlotSeriesData.cpp], which is not among the sources.  The header says:
    the base class [boundingRect()] "does a linear search through the data
    for the maximum and minimum values" and is
    [QRectF(minX, minY, maxX-minX, maxY-minY)]; [searchMinX()] and its
    siblings are called "only when count() > 0". *)
Definition searchExtreme (l : list qreal) : qreal :=
  match l with
  | [] => 0%Q
  | v :: rest => fold_left (fun extreme d => if better d extreme then d else extreme) rest v
  end.

(** Modelled from the spec: [int searchMinIndex(const QList<qreal>&)] and
    [searchMaxIndex], the index of an extreme element by linear search;
    [-1] for an empty list, the value the indexes have in an empty model. *)
Fixpoint searchLoop (rest : list qreal) (i mi : Z) (vmi : qreal) : Z :=
  match rest with
  | [] => mi
  | v :: rest' =>
      if better v vmi then searchLoop rest' (i + 1) i v
      else searchLoop rest' (i + 1) mi vmi
  end.

Definition searchIndex (l : list qreal) : Z :=
  match l with [] => -1 | v :: rest => searchLoop rest 1 0 v end.

(** Modelled from the spec: "Check if an added point @ index is the new min.
    or max record holder", for one record: the new value [v] at [index]
    against the record holder at [tracked]. *)
Definition addCheck (l : list qreal) (v : qreal) (index tracked : Z) : Z :=
  if better v (valueAt l tracked) then index else tracked.

(** After the first point is gone: a record holder at place [0] is lost and
    searched again, the others move down by one place. *)
Definition afterFront (l : list qreal) (i : Z) : Z :=
  if i =? 0 then searchIndex l else i - 1.

(** After the last point is gone: a record holder at the removed place is
    lost and searched again. *)
Definition afterBack (l : list qreal) (i : Z) : Z :=
  if i =? count l then searchIndex l else i.

(** Modelled from the spec: "Check if a point modified at index causes us to
    lose our record holders, or is a new record holder", for one record:
    [l] is the list before the change and [l'] after it.  The record holder
    itself keeps the record unless it got worse; another point takes it when
    it beats the holder. *)
Definition changeCheck (l l' : list qreal) (newVal : qreal) (index tracked : Z) : Z :=
  if index =? tracked
  then (if better (valueAt l index) newVal then searchIndex l' else tracked)
  else (if better newVal (valueAt l tracked) then index else tracked).

End Search.

Definition searchMin : list qreal -> qreal := searchExtreme qlt.
Definition searchMax : list qreal -> qreal := searchExtreme qgt.
Definition searchMinIndex : list qreal -> Z := searchIndex qlt.
Definition searchMaxIndex : list qreal -> Z := searchIndex qgt.

(** [MPlotAbstractSeriesData::boundingRect()], without its cache. *)
Definition searchBoundingRect (m : t) : QRectF :=
  if count_ m =? 0 then null_rect
  else mkRect (searchMin (xval_ m)) (searchMin (yval_ m))
              (searchMax (xval_ m) - searchMin (xval_ m))%Q
              (searchMax (yval_ m) - searchMin (yval_ m))%Q.

(** "Warning: only call these if the list is not empty". *)
Definition minY (m : t) : qreal := valueAt (yval_ m) (minYIndex_ m).
Definition maxY (m : t) : qreal := valueAt (yval_ m) (maxYIndex_ m).
Definition minX (m : t) : qreal := valueAt (xval_ m) (minXIndex_ m).
Definition maxX (m : t) : qreal := valueAt (xval_ m) (maxXIndex_ m).

(** The constructor: no data, no record holders. *)
Definition empty : t :=
  {| xval_ := []; yval_ := []; minYIndex_ := -1; maxYIndex_ := -1;
     minXIndex_ := -1; maxXIndex_ := -1 |}.

(** Modelled from the spec: [minMaxAddCheck(x, y, index)], "Must call this
    AFTER adding both x and y to the xval_ and y_val lists".  The first point
    of a model holds all four records. *)
Definition minMaxAddCheck (x y : qreal) (index : Z) (m : t) : t :=
  if count (xval_ m) =? 1 then
    {| xval_ := xval_ m; yval_ := yval_ m; minYIndex_ := index;
       maxYIndex_ := index; minXIndex_ := index; maxXIndex_ := index |}
  else
    {| xval_ := xval_ m; yval_ := yval_ m;
       minYIndex_ := addCheck qlt (yval_ m) y index (minYIndex_ m);
       maxYIndex_ := addCheck qgt (yval_ m) y index (maxYIndex_ m);
       minXIndex_ := addCheck qlt (xval_ m) x index (minXIndex_ m);
       maxXIndex_ := addCheck qgt (xval_ m) x index (maxXIndex_ m) |}.

(** Modelled from the spec: "This allows you to add data points at the
    beginning"; every stored point moves up by one place. *)
Definition insertPointFront (x y : qreal) (m : t) : t :=
  minMaxAddCheck x y 0
    {| xval_ := x :: xval_ m; yval_ := y :: yval_ m;
       minYIndex_ := minYIndex_ m + 1; maxYIndex_ := maxYIndex_ m + 1;
       minXIndex_ := minXIndex_ m + 1; maxXIndex_ := maxXIndex_ m + 1 |}.

(** Modelled from the spec: "This allows you to add data points at the end". *)
Definition insertPointBack (x y : qreal) (m : t) : t :=
  minMaxAddCheck x y (count (xval_ m))
    {| xval_ := xval_ m ++ [x]; yval_ := yval_ m ++ [y];
       minYIndex_ := minYIndex_ m; maxYIndex_ := maxYIndex_ m;
       minXIndex_ := minXIndex_ m; maxXIndex_ := maxXIndex_ m |}.

(** Modelled from the spec: "Remove a point at the front (Returns true if
    successful)". *)
Definition removePointFront (m : t) : t * bool :=
  match xval_ m with
  | [] => (m, false)
  | _ :: _ =>
      let xs := tail (xval_ m) in
      let ys := tail (yval_ m) in
      ({| xval_ := xs; yval_ := ys;
          minYIndex_ := afterFront qlt ys (minYIndex_ m);
          maxYIndex_ := afterFront qgt ys (maxYIndex_ m);
          minXIndex_ := afterFront qlt xs (minXIndex_ m);
          maxXIndex_ := afterFront qgt xs (maxXIndex_ m) |}, true)
  end.

(** Modelled from the spec: "Remove a point at the back (returns true if
    successful)". *)
Definition removePointBack (m : t) : t * bool :=
  match xval_ m with
  | [] => (m, false)
  | _ :: _ =>
      let xs := removelast (xval_ m) in
      let ys := removelast (yval_ m) in
      ({| xval_ := xs; yval_ := ys;
          minYIndex_ := afterBack qlt ys (minYIndex_ m);
          maxYIndex_ := afterBack qgt ys (maxYIndex_ m);
          minXIndex_ := afterBack qlt xs (minXIndex_ m);
          maxXIndex_ := afterBack qgt xs (maxXIndex_ m) |}, true)
  end.

(** Modelled from the spec: [minMaxChangeCheckX(newVal, index)], which also
    "Inserts the point (modifies the data array)". *)
Definition minMaxChangeCheckX (newVal : qreal) (index : Z) (m : t) : t :=
  let l := xval_ m in
  let l' := <[Z.to_nat index := newVal]> l in
  {| xval_ := l'; yval_ := yval_ m;
     minYIndex_ := minYIndex_ m; maxYIndex_ := maxYIndex_ m;
     minXIndex_ := changeCheck qlt l l' newVal index (minXIndex_ m);
     maxXIndex_ := changeCheck qgt l l' newVal index (maxXIndex_ m) |}.

Definition minMaxChangeCheckY (newVal : qreal) (index : Z) (m : t) : t :=
  let l := yval_ m in
  let l' := <[Z.to_nat index := newVal]> l in
  {| xval_ := xval_ m; yval_ := l';
     minYIndex_ := changeCheck qlt l l' newVal index (minYIndex_ m);
     maxYIndex_ := changeCheck qgt l l' newVal index (maxYIndex_ m);
     minXIndex_ := minXIndex_ m; maxXIndex_ := maxXIndex_ m |}.

(** Modelled from the spec: [setData(index, value, role)] of the table
    model; [row] and [column] are those of the [QModelIndex], column 0
    holding x and column 1 holding y; "This allows editing of values within
    range". *)
Definition setData (row column : Z) (value : qreal) (m : t) : t * bool :=
  if (0 <=? row) && (row <? count (xval_ m)) then
    if column =? 0 then (minMaxChangeCheckX value row m, true)
    else if column =? 1 then (minMaxChangeCheckY value row m, true)
    else (m, false)
  else (m, false).

(** Modelled from the spec: [MPlotRealtimeModel::boundingRect()], from the
    tracked indexes ("fast (usually constant-time) lookups of the min and
    max values for each axis"). *)
Definition boundingRect (m : t) : QRectF :=
  if count_ m =? 0 then null_rect
  else mkRect (minX m) (minY m) (maxX m - minX m)%Q (maxY m - minY m)%Q.

Inductive Op : Type :=
  | InsertPointFront (x y : qreal)
  | InsertPointBack (x y : qreal)
  | RemovePointFront
  | RemovePointBack
  | SetData (row column : Z) (value : qreal).

Definition apply (m : t) (op : Op) : t :=
  match op with
  | InsertPointFront x y => insertPointFront x y m
  | InsertPointBack x y => insertPointBack x y m
  | RemovePointFront => fst (removePointFront m)
  | RemovePointBack => fst (removePointBack m)
  | SetData row column value => fst (setData row column value m)
  end.

Definition run (ops : list Op) (m : t) : t := fold_left apply ops m.

(** [i] is the place of an extreme element of [l]: [le v w] reads "[v] is at
    least as extreme as [w]". *)
Definition is_extreme_index (le : qreal -> qreal -> Prop) (l : list qreal) (i : Z) : Prop :=
  0 <= i /\ exists v, l !! Z.to_nat i = Some v /\ Forall (le v) l.

Definition is_min_index : list qreal -> Z -> Prop :=
  is_extreme_index (fun v w => (v <= w)%Q).
Definition is_max_index : list qreal -> Z -> Prop :=
  is_extreme_index (fun v w => (w <= v)%Q).

(** The tracked indexes identify the extreme stored values. *)
Definition tracked (m : t) : Prop :=
  length (xval_ m) = length (yval_ m) /\
  (xval_ m <> [] ->
   is_min_index (xval_ m) (minXIndex_ m) /\ is_max_index (xval_ m) (maxXIndex_ m) /\
   is_min_index (yval_ m) (minYIndex_ m) /\ is_max_index (yval_ m) (maxYIndex_ m)).

End MPlotRealtimeModel.

(** ** [MPlot]: the deferred autoscale (MPlot.h) *)

Module MPlotAutoScale.

(** The part of [MPlotItem] the autoscale reads. *)
Record MPlotItem : Type := mkItem {
  dataRect : QRectF;
  yAxisTarget : nat;
  xAxisTarget : nat
}.

Definition setDataRect (r : QRectF) (it : MPlotItem) : MPlotItem :=
  {| dataRect := r; yAxisTarget := yAxisTarget it; xAxisTarget := xAxisTarget it |}.

(** What an observer of the plot sees happen, in order. *)
Inductive Action : Type := Recomputed | Painted.

(** The plot members [items_], [axisScales_], [autoScaleScheduled_], the
    objects behind the pointers, the number of calls of the slot
    [doDelayedAutoscale()] the plot has queued on the event loop, and the
    observable history. *)
Record World : Type := mkWorld {
  items_ : list nat;
  axisScales_ : list nat;
  autoScaleScheduled_ : bool;
  itemStore : nat -> MPlotItem;
  scales : AxisStore;
  queued : nat;
  history : list Action
}.

(** The extents the items of the plot put on axis scale [a]: the vertical
    extent of an item whose y target is [a], the horizontal extent of an
    item whose x target is [a]. *)
Definition extentsOn (a : nat) (it : MPlotItem) : list (qreal * qreal) :=
  (if Nat.eqb (yAxisTarget it) a
   then [(top (dataRect it), bottom (dataRect it))] else [])
  ++ (if Nat.eqb (xAxisTarget it) a
      then [(left (dataRect it), right_ (dataRect it))] else []).

Definition extents (w : World) (a : nat) : list (qreal * qreal) :=
  flat_map (fun p => extentsOn a (itemStore w p)) (items_ w).

(** The bounding interval of a list of extents. *)
Definition widen (r : MPlotAxisRange) (e : qreal * qreal) : MPlotAxisRange :=
  mkRange (Qmin (rmin r) (fst e)) (Qmax (rmax r) (snd e)).

Definition hull (es : list (qreal * qreal)) : option MPlotAxisRange :=
  match es with
  | [] => None
  | e :: rest => Some (fold_left widen rest (mkRange (fst e) (snd e)))
  end.

(** Modelled from the spec: the recomputation is defined in [MPlot.cpp],
    which is not among the sources.  Glossary: "Autoscale: automatic
    recomputation of an axis's data range to fit the bounding box of plotted
    items"; [MPlot.h]: a "fit of the axis range to match the extent of all
    the items currently plotted on that axis".  An axis scale with
    auto-scaling disabled, or with no item on it, keeps its range. *)
Definition autoScaleAxis (w : World) (s : AxisStore) (a : nat) : AxisStore :=
  if autoScaleEnabled (s a) then
    match hull (extents w a) with
    | Some r => <[a := setDataRange r (s a)]> s
    | None => s
    end
  else s.

Definition recompute (w : World) : AxisStore :=
  fold_left (autoScaleAxis w) (axisScales_ w) (scales w).

(** Modelled from the spec: [doDelayedAutoScale()], "this completes a delayed
    autoscale"; [autoScaleScheduled_] "indicates that a re-autoscale has
    been scheduled". *)
Definition doDelayedAutoScale (w : World) : World :=
  if autoScaleScheduled_ w then
    {| items_ := items_ w; axisScales_ := axisScales_ w;
       autoScaleScheduled_ := false; itemStore := itemStore w;
       scales := recompute w; queued := queued w;
       history := history w ++ [Recomputed] |}
  else w.

(** Modelled from the spec: [scheduleDelayedAutoScale()], "Request a deferred
    auto-scale": "actually doing it is deferred until returning back to the
    event loop". *)
Definition scheduleDelayedAutoScale (w : World) : World :=
  if autoScaleScheduled_ w then w
  else {| items_ := items_ w; axisScales_ := axisScales_ w;
          autoScaleScheduled_ := true; itemStore := itemStore w;
          scales := scales w; queued := S (queued w);
          history := history w |}.

(** Auto-scaling is enabled on an axis scale the item is plotted on. *)
Definition autoScaled (w : World) (source : nat) : bool :=
  autoScaleEnabled (scales w (yAxisTarget (itemStore w source)))
  || autoScaleEnabled (scales w (xAxisTarget (itemStore w source))).

(** Modelled from the spec: [onBoundsChanged(MPlotItem* source)], "called
    when the x-y data in a plot item might have changed, such that a
    re-autoscale is necessary". *)
Definition onBoundsChanged (source : nat) (w : World) : World :=
  if autoScaled w source then scheduleDelayedAutoScale w else w.

(** The bounds of a plot item change: the item takes its new data rectangle
    and signals the plot. *)
Definition boundsChange (w : World) (c : nat * QRectF) : World :=
  onBoundsChanged (fst c)
    {| items_ := items_ w; axisScales_ := axisScales_ w;
       autoScaleScheduled_ := autoScaleScheduled_ w;
       itemStore := <[fst c := setDataRect (snd c) (itemStore w (fst c))]> (itemStore w);
       scales := scales w; queued := queued w; history := history w |}.

Definition boundsChanges (cs : list (nat * QRectF)) (w : World) : World :=
  fold_left boundsChange cs w.

(** Control returns to the event loop: the queued slot calls run, then the
    plot is painted. *)
Definition dispatchQueued (w : World) : World :=
  let w' := Nat.iter (queued w) doDelayedAutoScale w in
  {| items_ := items_ w'; axisScales_ := axisScales_ w';
     autoScaleScheduled_ := autoScaleScheduled_ w'; itemStore := itemStore w';
     scales := scales w'; queued := 0%nat; history := history w' |}.

Definition paint (w : World) : World :=
  {| items_ := items_ w; axisScales_ := axisScales_ w;
     autoScaleScheduled_ := autoScaleScheduled_ w; itemStore := itemStore w;
     scales := scales w; queued := queued w;
     history := history w ++ [Painted] |}.

Definition returnToEventLoop (w : World) : World := paint (dispatchQueued w).

(** Nothing is pending: what holds each time the event loop is idle. *)
Definition idle (w : World) : Prop :=
  autoScaleScheduled_ w = false /\ queued w = 0%nat.

(** The flag and the queue agree: a recomputation is scheduled exactly when
    one slot call is queued. *)
Definition consistent (w : World) : Prop :=
  (autoScaleScheduled_ w = true /\ queued w = 1%nat) \/ idle w.

End MPlotAutoScale.

(** ** [MPlotRectangle] (MPlotRectangle.h) *)

Module MPlotRectangle.

(** [QRect(x, y, width, height)]: a rectangle with integer coordinates, and
    the [QRectF] it converts to. *)
Record QRect : Type := mkQRect { qx : Z; qy : Z; qwidth : Z; qheight : Z }.

Definition toRectF (r : QRect) : QRectF :=
  mkRect (inject_Z (qx r)) (inject_Z (qy r)) (inject_Z (qwidth r)) (inject_Z (qheight r)).

(** The calls a setter makes on the scene framework and on [MPlotItem]. *)
Inductive Call : Type := prepareGeometryChange | emitBoundsChanged | update.

Section Rectangle.

(** Pens and brushes are values of the GUI toolkit. *)
Variables QPen QBrush : Type.

Record t : Type := mkRectangle {
  pen_ : QPen;
  brush_ : QBrush;
  rect_ : QRectF;
  calls : list Call
}.

(** [QPen pen() const { return pen_; }], [brush()], [rect()]. *)
Definition pen (m : t) : QPen := pen_ m.
Definition brush (m : t) : QBrush := brush_ m.
Definition rect (m : t) : QRectF := rect_ m.

(** [virtual QRectF dataRect() const { return rect_; }] *)
Definition dataRect (m : t) : QRectF := rect_ m.

(** [virtual QBrush legendColor() const { return brush_; }] *)
Definition legendColor (m : t) : QBrush := brush_ m.

(** [void setPen(const QPen& pen) { prepareGeometryChange(); pen_ = pen; update(); }] *)
Definition setPen (p : QPen) (m : t) : t :=
  {| pen_ := p; brush_ := brush_ m; rect_ := rect_ m;
     calls := calls m ++ [prepareGeometryChange; update] |}.

(** [void setBrush(const QBrush& brush) { brush_ = brush; update(); }] *)
Definition setBrush (b : QBrush) (m : t) : t :=
  {| pen_ := pen_ m; brush_ := b; rect_ := rect_ m;
     calls := calls m ++ [update] |}.

(** [[
    void setRect(const QRect& rectangle) {
      prepareGeometryChange();
      rect_ = rectangle;
      emitBoundsChanged();
      update();
    }
    ]] *)
Definition setRect (rectangle : QRect) (m : t) : t :=
  {| pen_ := pen_ m; brush_ := brush_ m; rect_ := toRectF rectangle;
     calls := calls m ++ [prepareGeometryChange; emitBoundsChanged; update] |}.

Inductive Op : Type :=
  | SetPen (p : QPen)
  | SetBrush (b : QBrush)
  | SetRect (rectangle : QRect).

Definition apply (m : t) (op : Op) : t :=
  match op with
  | SetPen p => setPen p m
  | SetBrush b => setBrush b m
  | SetRect r => setRect r m
  end.

Definition run (ops : list Op) (m : t) : t := fold_left apply ops m.

(** The rectangles a sequence of calls passes to [setRect], in order. *)
Definition rectsSet (ops : list Op) : list QRect :=
  flat_map (fun op => match op with SetRect r => [r] | _ => [] end) ops.

End Rectangle.

(** A rectangle whose four numbers are integers. *)
Definition integral (r : QRectF) : Prop :=
  exists q : QRect, r = toRectF q.

(** How often a call occurs in a history. *)
Definition occurrences (c : Call) (l : list Call) : nat :=
  length (List.filter (fun c' => match c, c' with
                                 | prepareGeometryChange, prepareGeometryChange
                                 | emitBoundsChanged, emitBoundsChanged
                                 | update, update => true
                                 | _, _ => false
                                 end) l).

End MPlotRectangle.

(** ** Sample plots, tools and events *)

Module Samples.

(** A linear axis scale on a drawing range of 100 pixels. *)
Definition mapDrawingToData (a : MPlotAxisScale) (d : qreal) : qreal :=
  (axis_min a + d / 100 * (axis_max a - axis_min a))%Q.

Definition mapDrawingToDataRange (a : MPlotAxisScale) (r : MPlotAxisRange)
    : MPlotAxisRange :=
  mkRange (mapDrawingToData a (rmin r)) (mapDrawingToData a (rmax r)).

(** Axis scale 0 is horizontal, every other one vertical; all show [0, 10]. *)
Definition axes (autoScale : bool) : AxisStore :=
  fun a => {| orientation := match a with O => Horizontal | _ => Vertical end;
              dataRange := mkRange 0%Q 10%Q;
              autoScaleEnabled := autoScale |}.

Definition origin : QPointF := mkPoint 0%Q 0%Q.

Definition mouse (b : MouseButton) (x y : qreal) : QGraphicsSceneMouseEvent :=
  {| button := b; pos := mkPoint x y; scenePos := mkPoint x y;
     buttonDownPos_Left := origin; buttonDownScenePos_Left := origin |}.

(** The wheel zoomer's samples, in binary64. *)
Module Wheel.

Import PrimFloat.

(** An axis scale whose drawing coordinates are its data coordinates. *)
Definition mapDrawingToData (a : Binary64.MPlotAxisScale) (d : float) : float := d.

(** Axis scale 0 is horizontal, every other one vertical; all show the
    range from [lo] to [hi]. *)
Definition axes (lo hi : float) : nat -> Binary64.MPlotAxisScale :=
  fun a => {| Binary64.orientation := match a with O => Horizontal | _ => Vertical end;
              Binary64.dataRange := Binary64.mkRange lo hi;
              Binary64.autoScaleEnabled := true |}.

(** One notch of the wheel ([delta] 120) with the cursor at [x]. *)
Definition notch (x : float) (delta : Z) : MPlotWheelZoomerTool.QGraphicsSceneWheelEvent :=
  {| MPlotWheelZoomerTool.wpos := Binary64.mkPoint x x;
     MPlotWheelZoomerTool.delta := delta |}.

(** The default zoom increment, 25%. *)
Definition zoomer (targets : list nat) : MPlotWheelZoomerTool.Tool :=
  {| MPlotWheelZoomerTool.zf_ := 0.25%float;
     MPlotWheelZoomerTool.targetAxes_ := targets |}.

End Wheel.

(** A drag zoomer in the middle of a drag, with an empty zoom stack. *)
Definition dragging : MPlotDragZoomerTool.Tool :=
  {| MPlotDragZoomerTool.dragStarted_ := false;
     MPlotDragZoomerTool.dragInProgress_ := true;
     MPlotDragZoomerTool.targetAxes_ := [0%nat; 1%nat];
     MPlotDragZoomerTool.oldZooms_ := [];
     MPlotDragZoomerTool.selectionRect_ := null_rect |}.

(** Press at the origin, drag to (30, 40), release there. *)
Definition dragGesture : MPlotDragZoomerTool.Gesture :=
  {| MPlotDragZoomerTool.g_press := mouse LeftButton 0 0;
     MPlotDragZoomerTool.g_move := mouse NoButton 30 40;
     MPlotDragZoomerTool.g_release := mouse LeftButton 30 40 |}.

Definition plot : MPlotAccessors.MPlot :=
  {| MPlotAccessors.items_ := [5%nat; 6%nat];
     MPlotAccessors.axes_ := [1%nat; 2%nat; 3%nat];
     MPlotAccessors.axisScales_ := [7%nat] |}.

Definition cursorTool : MPlotCursorTool.World :=
  MPlotCursorTool.fresh_tool (Some 0%nat)
    (fun _ => MPlotCursorTool.mkMPlotPoint origin None None None)
    (fun _ => plot) (axes true).

(** The cursor tool on its plot, with nothing selectable or marked yet. *)
Definition cursorScene : MPlotCursorTool.Scene :=
  {| MPlotCursorTool.world := cursorTool;
     MPlotCursorTool.selectableOf := fun _ => true;
     MPlotCursorTool.markerOf := fun _ => None;
     MPlotCursorTool.warnings := 0%nat |}.

Definition defaultPoint : MPlotCursorTool.MPlotPoint :=
  MPlotCursorTool.mkMPlotPoint origin None None None.

(** A [removeItem] that takes the item off the plot's list. *)
Definition removeItem (pl item : nat)
    (st : (nat -> MPlotAccessors.MPlot) * (nat -> MPlotCursorTool.MPlotPoint))
    : (nat -> MPlotAccessors.MPlot) * (nat -> MPlotCursorTool.MPlotPoint) :=
  (<[pl := {| MPlotAccessors.items_ :=
                List.filter (fun i => negb (Nat.eqb i item))
                  (MPlotAccessors.items_ (fst st pl));
              MPlotAccessors.axes_ := MPlotAccessors.axes_ (fst st pl);
              MPlotAccessors.axisScales_ := MPlotAccessors.axisScales_ (fst st pl) |}]>
     (fst st),
   snd st).

(** A world with two cursors, both on the tool's plot, cursor 8 targeted at
    axis scales 1 (y) and 0 (x). *)
Definition twoCursors : MPlotCursorTool.World :=
  {| MPlotCursorTool.cursors_ := [8%nat; 9%nat];
     MPlotCursorTool.plot := Some 0%nat;
     MPlotCursorTool.activeCursor := 0;
     MPlotCursorTool.points :=
       (fun _ => MPlotCursorTool.mkMPlotPoint origin (Some 0%nat)
                   (Some 1%nat) (Some 0%nat));
     MPlotCursorTool.plots := (fun _ => plot);
     MPlotCursorTool.scales := axes true;
     MPlotCursorTool.valueChanged := [] |}.

(** A hit test under which items 0 and 1 lie under every click. *)
Definition hitsFirstTwo (s2 : nat) (it : MPlotPlotSelectorTool.MPlotItem) (r : QRectF)
    : bool :=
  Nat.ltb s2 2.

Definition vectorData : MPlotVectorSeriesData.t :=
  MPlotVectorSeriesData.mkVec [1%Q; 2%Q] [3%Q; 4%Q].

(** Two selectable, unselected items; only item 0 is ever under the click. *)
Definition selectorItems : nat -> MPlotPlotSelectorTool.MPlotItem :=
  fun _ => MPlotPlotSelectorTool.mkItem true false.

Definition hitsItem0 (s2 : nat) (it : MPlotPlotSelectorTool.MPlotItem) (r : QRectF) : bool :=
  Nat.eqb s2 0.

(** A plot with one item, on axis scales 1 (y) and 0 (x). *)
Definition autoScalePlot (scheduled : bool) : MPlotAutoScale.World :=
  {| MPlotAutoScale.items_ := [0%nat];
     MPlotAutoScale.axisScales_ := [0%nat; 1%nat];
     MPlotAutoScale.autoScaleScheduled_ := scheduled;
     MPlotAutoScale.itemStore :=
       (fun _ => MPlotAutoScale.mkItem (mkRect 0%Q 0%Q 1%Q 1%Q) 1%nat 0%nat);
     MPlotAutoScale.scales := axes true;
     MPlotAutoScale.queued := 0%nat;
     MPlotAutoScale.history := [] |}.

End Samples.

(** * Properties *)

(** ** The models at work *)

(** A sliding window of the real-time model: three points enter at the back,
    the oldest leaves at the front, one y value is edited. *)
Example realtime_sliding_window :
  let m := MPlotRealtimeModel.run
             [MPlotRealtimeModel.InsertPointBack 1 5;
              MPlotRealtimeModel.InsertPointBack 4 2;
              MPlotRealtimeModel.InsertPointBack 2 9;
              MPlotRealtimeModel.RemovePointFront;
              MPlotRealtimeModel.SetData 0 1 7]
             MPlotRealtimeModel.empty in
  MPlotRealtimeModel.xval_ m = [4%Q; 2%Q]
  /\ MPlotRealtimeModel.yval_ m = [7%Q; 9%Q]
  /\ (MPlotRealtimeModel.minXIndex_ m, MPlotRealtimeModel.maxXIndex_ m) = (1, 0)
  /\ (MPlotRealtimeModel.minYIndex_ m, MPlotRealtimeModel.maxYIndex_ m) = (0, 1)
  /\ MPlotRealtimeModel.boundingRect m = MPlotRealtimeModel.searchBoundingRect m.
Proof. repeat split. Qed.

(** Removing from an empty model fails and changes nothing. *)
Example realtime_remove_from_empty :
  MPlotRealtimeModel.removePointFront MPlotRealtimeModel.empty
  = (MPlotRealtimeModel.empty, false)
  /\ MPlotRealtimeModel.removePointBack MPlotRealtimeModel.empty
     = (MPlotRealtimeModel.empty, false).
Proof. split; reflexivity. Qed.

Section WheelZoomerAtWork.

Import PrimFloat.

(** One notch of 25% over the middle of [0, 10] leaves [1.25, 8.75]; the
    same notch backwards leaves a range whose ends are rounded. *)
Example wheel_zoom_in_and_out :
  let zoomed := MPlotWheelZoomerTool.wheelEvent Samples.Wheel.mapDrawingToData
                  (Samples.Wheel.notch 5 120) (Samples.Wheel.zoomer [0%nat; 1%nat])
                  (Samples.Wheel.axes 0 10) 0%nat in
  let unzoomed := MPlotWheelZoomerTool.wheelEvent Samples.Wheel.mapDrawingToData
                    (Samples.Wheel.notch 5 (-120)) (Samples.Wheel.zoomer [0%nat; 1%nat])
                    (Samples.Wheel.axes 0 10) 0%nat in
  Binary64.dataRange zoomed = Binary64.mkRange 1.25 8.75
  /\ Binary64.dataRange unzoomed
     = Binary64.mkRange (-1.6666666666666661) 11.666666666666666.
Proof. split; reflexivity. Qed.

(** The zoom factor is capped: a large delta zooms by [1 - 0.9], which in
    binary64 is a little less than a tenth, and its reciprocal a little more
    than ten. *)
Example wheel_zoom_factor_capped :
  MPlotWheelZoomerTool.zoomFactor 0.25 1200 = 0.099999999999999978%float
  /\ MPlotWheelZoomerTool.zoomFactor 0.25 (-1200) = 10.000000000000002%float
  /\ MPlotWheelZoomerTool.zoomFactor 0.25 0 = 1%float
  /\ (MPlotWheelZoomerTool.zoomFactor 0.25 1200 <? 0.1)%float = true.
Proof. repeat split. Qed.

End WheelZoomerAtWork.

(** A drag from (0,0) to (30,40) beyond a deadzone of 3 zooms both target axis
    scales and disables their auto-scaling; the right-button release then
    recalls [0, 10]. *)
Example drag_zoom_then_recall :
  let w1 := MPlotDragZoomerTool.run 3 Samples.mapDrawingToDataRange
              [MPlotDragZoomerTool.Press (Samples.mouse LeftButton 0 0);
               MPlotDragZoomerTool.Move (Samples.mouse NoButton 30 40);
               MPlotDragZoomerTool.Release (Samples.mouse LeftButton 30 40)]
              (MPlotDragZoomerTool.fresh [0%nat; 1%nat], Samples.axes true) in
  let w2 := MPlotDragZoomerTool.handle 3 Samples.mapDrawingToDataRange
              (MPlotDragZoomerTool.Release (Samples.mouse RightButton 30 40)) w1 in
  MPlotDragZoomerTool.oldZooms_ (fst w1)
  = [[(0%nat, mkRange 0%Q 10%Q); (1%nat, mkRange 0%Q 10%Q)]]
  /\ (axis_max (snd w1 0%nat) == 3)%Q /\ (axis_max (snd w1 1%nat) == 4)%Q
  /\ autoScaleEnabled (snd w1 0%nat) = false
  /\ MPlotDragZoomerTool.oldZooms_ (fst w2) = []
  /\ dataRange (snd w2 0%nat) = mkRange 0%Q 10%Q
  /\ dataRange (snd w2 1%nat) = mkRange 0%Q 10%Q.
Proof. repeat split. Qed.

(** Two items under the click: successive presses alternate between them,
    and each press leaves exactly the chosen one selected. *)
Example selector_alternates :
  let hit := fun (s2 : nat) (_ : MPlotPlotSelectorTool.MPlotItem) (_ : QRectF) => true in
  let w0 := MPlotPlotSelectorTool.fresh 0 [3%nat; 8%nat] Samples.selectorItems in
  match MPlotPlotSelectorTool.presses 1 hit
          [Samples.mouse LeftButton 1 1; Samples.mouse LeftButton 1 1] w0 with
  | Ret w =>
      MPlotPlotSelectorTool.selectedItem w = Some 8%nat
      /\ MPlotPlotSelectorTool.selected (MPlotPlotSelectorTool.items w 3%nat) = false
      /\ MPlotPlotSelectorTool.selected (MPlotPlotSelectorTool.items w 8%nat) = true
      /\ MPlotPlotSelectorTool.emitted w
         = [MPlotPlotSelectorTool.setSelectedCall 3%nat true;
            MPlotPlotSelectorTool.itemSelected 3%nat;
            MPlotPlotSelectorTool.setSelectedCall 3%nat false;
            MPlotPlotSelectorTool.setSelectedCall 8%nat true;
            MPlotPlotSelectorTool.itemSelected 8%nat]
  | Undefined => False
  end.
Proof. repeat split. Qed.

(** A tool with one cursor on the plot: the press places it and announces
    the new value. *)
Example cursor_press_with_one_cursor :
  let w := {| MPlotCursorTool.cursors_ := [4%nat];
              MPlotCursorTool.plot := Some 0%nat;
              MPlotCursorTool.activeCursor := 7;
              MPlotCursorTool.points :=
                (fun _ => MPlotCursorTool.mkMPlotPoint Samples.origin (Some 0%nat)
                            (Some 1%nat) None);
              MPlotCursorTool.plots := (fun _ => Samples.plot);
              MPlotCursorTool.scales := Samples.axes true;
              MPlotCursorTool.valueChanged := [] |} in
  match MPlotCursorTool.mousePressEvent Samples.mapDrawingToData
          (Samples.mouse LeftButton 50 20) w with
  | Ret w' =>
      MPlotCursorTool.activeCursor w' = 8
      /\ px (MPlotCursorTool.value_ (MPlotCursorTool.points w' 4%nat)) = 50%Q
      /\ (py (MPlotCursorTool.value_ (MPlotCursorTool.points w' 4%nat)) == 2)%Q
      /\ length (MPlotCursorTool.valueChanged w') = 1%nat
  | Undefined => False
  end.
Proof. repeat split. Qed.

(** The autoscale of the sample plot fits both axis scales to the item. *)
Example autoscale_fits_item :
  let w := MPlotAutoScale.returnToEventLoop
             (MPlotAutoScale.boundsChange (Samples.autoScalePlot false)
                (0%nat, mkRect 2%Q 3%Q 4%Q 5%Q)) in
  dataRange (MPlotAutoScale.scales w 0%nat) = mkRange 2%Q (2 + 4)%Q
  /\ dataRange (MPlotAutoScale.scales w 1%nat) = mkRange 3%Q (3 + 5)%Q
  /\ MPlotAutoScale.history w = [MPlotAutoScale.Recomputed; MPlotAutoScale.Painted].
Proof. repeat split. Qed.

(** ** Machine integers and containers *)

Lemma count_nonneg {A} (l : list A) : 0 <= count l.
Proof. unfold count. lia. Qed.

Lemma to_unsigned_small (z : Z) : 0 <= z < UINT_MOD -> to_unsigned z = z.
Proof. intros H. unfold to_unsigned. apply Z.mod_small. exact H. Qed.

Lemma to_unsigned_negative (z : Z) :
  INT_MIN <= z < 0 -> to_unsigned z = z + UINT_MOD.
Proof.
  intros H. unfold to_unsigned.
  symmetry. apply (Z.mod_unique z UINT_MOD (-1) (z + UINT_MOD)).
  - left. unfold UINT_MOD, INT_MIN in *. lia.
  - lia.
Qed.

Lemma to_unsigned_le (z : Z) : 0 <= z -> to_unsigned z <= z.
Proof.
  intros H. unfold to_unsigned. apply Z.mod_le; [exact H | reflexivity].
Qed.

Lemma to_unsigned_range (z : Z) : 0 <= to_unsigned z < UINT_MOD.
Proof. unfold to_unsigned. apply Z.mod_pos_bound. reflexivity. Qed.

Lemma at_defined {A} (l : list A) (i : Z) :
  0 <= i < count l -> exists a, at_ l i = Ret a /\ l !! Z.to_nat i = Some a.
Proof.
  intros [H0 H1]. unfold at_.
  assert (Hlt : (Z.to_nat i < length l)%nat) by (unfold count in H1; lia).
  destruct (lookup_lt_is_Some_2 l _ Hlt) as [a Ha].
  exists a. rewrite Ha.
  replace (0 <=? i) with true by (symmetry; apply Z.leb_le; lia).
  replace (i <? count l) with true by (symmetry; apply Z.ltb_lt; lia).
  split; reflexivity.
Qed.

(** ** The index-based accessors *)

Section Accessors.

Import MPlotAccessors.

Lemma item_out_of_range (p : MPlot) (index : Z) :
  ~ (0 <= index < count (items_ p)) -> item p index = Ret None.
Proof.
  intros H. unfold item.
  destruct (index >=? 0) eqn:E0; [| reflexivity].
  destruct (index <? count (items_ p)) eqn:E1; [| reflexivity].
  apply Z.geb_le in E0. apply Z.ltb_lt in E1. lia.
Qed.

Lemma item_in_range (p : MPlot) (index : Z) :
  0 <= index < count (items_ p) ->
  exists a, item p index = Ret (Some a) /\ items_ p !! Z.to_nat index = Some a.
Proof.
  intros H. destruct (at_defined (items_ p) index H) as [a [Ha Hl]].
  exists a. split; [| exact Hl]. unfold item.
  replace (index >=? 0) with true by (symmetry; apply Z.geb_le; lia).
  replace (index <? count (items_ p)) with true by (symmetry; apply Z.ltb_lt; lia).
  simpl. rewrite Ha. reflexivity.
Qed.

(** The guard [(unsigned)i >= (unsigned)l.count()] holds exactly off
    [[0, l.count())], for an [int] [i] and a list a [QList] can hold. *)
Lemma unsigned_guard {A} (l : list A) (i : Z) :
  is_int i -> count l <= INT_MAX ->
  (to_unsigned i >=? to_unsigned (count l)) = negb ((0 <=? i) && (i <? count l)).
Proof.
  intros [Hlo Hhi] Hfit. pose proof (count_nonneg l) as Hc.
  assert (Hcu : to_unsigned (count l) = count l).
  { apply to_unsigned_small. unfold INT_MAX, UINT_MOD in *. lia. }
  rewrite Hcu.
  destruct (Z.lt_ge_cases i 0) as [Hneg | Hpos].
  - rewrite to_unsigned_negative by lia.
    replace (0 <=? i) with false by (symmetry; apply Z.leb_gt; lia).
    simpl. apply Z.geb_le. unfold INT_MIN, INT_MAX, UINT_MOD in *. lia.
  - rewrite to_unsigned_small by (unfold INT_MAX, UINT_MOD in *; lia).
    replace (0 <=? i) with true by (symmetry; apply Z.leb_le; lia).
    simpl. destruct (i <? count l) eqn:E.
    + apply Z.ltb_lt in E. simpl.
      destruct (i >=? count l) eqn:E'; [apply Z.geb_le in E'; lia | reflexivity].
    + apply Z.ltb_ge in E. simpl. apply Z.geb_le. lia.
Qed.

Lemma axis_out_of_range (p : MPlot) (axisIndex : Z) :
  is_int axisIndex -> count (axes_ p) <= INT_MAX ->
  ~ (0 <= axisIndex < count (axes_ p)) -> axis p axisIndex = Ret None.
Proof.
  intros Hi Hfit H. unfold axis. rewrite (unsigned_guard _ _ Hi Hfit).
  destruct (0 <=? axisIndex) eqn:E0; [| reflexivity].
  destruct (axisIndex <? count (axes_ p)) eqn:E1; [| reflexivity].
  apply Z.leb_le in E0. apply Z.ltb_lt in E1. lia.
Qed.

Lemma axis_in_range (p : MPlot) (axisIndex : Z) :
  is_int axisIndex -> count (axes_ p) <= INT_MAX ->
  0 <= axisIndex < count (axes_ p) ->
  exists a, axis p axisIndex = Ret (Some a) /\ axes_ p !! Z.to_nat axisIndex = Some a.
Proof.
  intros Hi Hfit H. destruct (at_defined (axes_ p) axisIndex H) as [a [Ha Hl]].
  exists a. split; [| exact Hl]. unfold axis. rewrite (unsigned_guard _ _ Hi Hfit).
  replace (0 <=? axisIndex) with true by (symmetry; apply Z.leb_le; lia).
  replace (axisIndex <? count (axes_ p)) with true by (symmetry; apply Z.ltb_lt; lia).
  simpl. rewrite Ha. reflexivity.
Qed.

Lemma axisScale_out_of_range (p : MPlot) (axisScaleIndex : Z) :
  is_int axisScaleIndex -> count (axisScales_ p) <= INT_MAX ->
  ~ (0 <= axisScaleIndex < count (axisScales_ p)) ->
  axisScale p axisScaleIndex = Ret None.
Proof.
  intros Hi Hfit H. unfold axisScale. rewrite (unsigned_guard _ _ Hi Hfit).
  destruct (0 <=? axisScaleIndex) eqn:E0; [| reflexivity].
  destruct (axisScaleIndex <? count (axisScales_ p)) eqn:E1; [| reflexivity].
  apply Z.leb_le in E0. apply Z.ltb_lt in E1. lia.
Qed.

Lemma axisScale_in_range (p : MPlot) (axisScaleIndex : Z) :
  is_int axisScaleIndex -> count (axisScales_ p) <= INT_MAX ->
  0 <= axisScaleIndex < count (axisScales_ p) ->
  exists a, axisScale p axisScaleIndex = Ret (Some a)
            /\ axisScales_ p !! Z.to_nat axisScaleIndex = Some a.
Proof.
  intros Hi Hfit H.
  destruct (at_defined (axisScales_ p) axisScaleIndex H) as [a [Ha Hl]].
  exists a. split; [| exact Hl]. unfold axisScale.
  rewrite (unsigned_guard _ _ Hi Hfit).
  replace (0 <=? axisScaleIndex) with true by (symmetry; apply Z.leb_le; lia).
  replace (axisScaleIndex <? count (axisScales_ p)) with true
    by (symmetry; apply Z.ltb_lt; lia).
  simpl. rewrite Ha. reflexivity.
Qed.

End Accessors.

Section CursorAccessors.

Import MPlotCursorTool.

Lemma numCursors_le (w : World) : numCursors w <= count (cursors_ w).
Proof. unfold numCursors. apply to_unsigned_le. apply count_nonneg. Qed.

Lemma value_out_of_range (w : World) (cursorIndex : Z) :
  numCursors w <= cursorIndex -> value w cursorIndex = Ret (mkPoint 0%Q 0%Q).
Proof.
  intros H. unfold value.
  replace (cursorIndex <? numCursors w) with false
    by (symmetry; apply Z.ltb_ge; lia).
  reflexivity.
Qed.

Lemma cursor_out_of_range (w : World) (cursorIndex : Z) :
  numCursors w <= cursorIndex -> cursor w cursorIndex = Ret None.
Proof.
  intros H. unfold cursor.
  replace (cursorIndex <? numCursors w) with false
    by (symmetry; apply Z.ltb_ge; lia).
  reflexivity.
Qed.

Lemma cursor_in_range (w : World) (cursorIndex : Z) :
  0 <= cursorIndex < numCursors w ->
  exists c, cursors_ w !! Z.to_nat cursorIndex = Some c
            /\ cursor w cursorIndex = Ret (Some c)
            /\ value w cursorIndex = Ret (value_ (points w c)).
Proof.
  intros H. pose proof (numCursors_le w) as Hle.
  destruct (at_defined (cursors_ w) cursorIndex) as [c [Hc Hl]]; [lia |].
  exists c. split; [exact Hl |]. unfold cursor, value.
  replace (cursorIndex <? numCursors w) with true by (symmetry; apply Z.ltb_lt; lia).
  simpl. rewrite Hc. split; reflexivity.
Qed.

End CursorAccessors.

(** C10.  [MPlot::item], [MPlot::axis], [MPlot::axisScale],
    [MPlotCursorTool::value] and [MPlotCursorTool::cursor] are total: for
    every [int] index and every [unsigned] cursor index each of them returns;
    off [[0, count)] the plot accessors return the null pointer, and at or
    beyond [numCursors()] the cursor accessors return [QPointF(0,0)] and the
    null pointer. *)
Theorem index_accessors_total_and_null
    (p : MPlotAccessors.MPlot) (w : MPlotCursorTool.World) (index cursorIndex : Z) :
  is_int index ->
  MPlotAccessors.lists_fit p ->
  0 <= cursorIndex < UINT_MOD ->
  (defined (MPlotAccessors.item p index)
   /\ defined (MPlotAccessors.axis p index)
   /\ defined (MPlotAccessors.axisScale p index)
   /\ defined (MPlotCursorTool.value w cursorIndex)
   /\ defined (MPlotCursorTool.cursor w cursorIndex))
  /\ (~ (0 <= index < count (MPlotAccessors.items_ p)) ->
      MPlotAccessors.item p index = Ret None)
  /\ (~ (0 <= index < count (MPlotAccessors.axes_ p)) ->
      MPlotAccessors.axis p index = Ret None)
  /\ (~ (0 <= index < count (MPlotAccessors.axisScales_ p)) ->
      MPlotAccessors.axisScale p index = Ret None)
  /\ (MPlotCursorTool.numCursors w <= cursorIndex ->
      MPlotCursorTool.value w cursorIndex = Ret (mkPoint 0%Q 0%Q)
      /\ MPlotCursorTool.cursor w cursorIndex = Ret None).
Proof.
  intros Hi (Hf1 & Hf2 & Hf3) Hc.
  split; [| split; [| split; [| split]]].
  - unfold defined. repeat split.
    + destruct (Z_le_dec 0 index) as [H0 |];
        [destruct (Z_lt_dec index (count (MPlotAccessors.items_ p))) |].
      * destruct (item_in_range p index) as [a [Ha _]]; [lia | eauto].
      * eexists. apply item_out_of_range. lia.
      * eexists. apply item_out_of_range. lia.
    + destruct (Z_le_dec 0 index) as [H0 |];
        [destruct (Z_lt_dec index (count (MPlotAccessors.axes_ p))) |].
      * destruct (axis_in_range p index Hi Hf2) as [a [Ha _]]; [lia | eauto].
      * eexists. apply axis_out_of_range; [assumption | assumption | lia].
      * eexists. apply axis_out_of_range; [assumption | assumption | lia].
    + destruct (Z_le_dec 0 index) as [H0 |];
        [destruct (Z_lt_dec index (count (MPlotAccessors.axisScales_ p))) |].
      * destruct (axisScale_in_range p index Hi Hf3) as [a [Ha _]]; [lia | eauto].
      * eexists. apply axisScale_out_of_range; [assumption | assumption | lia].
      * eexists. apply axisScale_out_of_range; [assumption | assumption | lia].
    + destruct (Z_lt_dec cursorIndex (MPlotCursorTool.numCursors w)).
      * destruct (cursor_in_range w cursorIndex) as [c (_ & _ & Hv)]; [lia | eauto].
      * eexists. apply value_out_of_range. lia.
    + destruct (Z_lt_dec cursorIndex (MPlotCursorTool.numCursors w)).
      * destruct (cursor_in_range w cursorIndex) as [c (_ & Hv & _)]; [lia | eauto].
      * eexists. apply cursor_out_of_range. lia.
  - apply item_out_of_range.
  - apply axis_out_of_range; assumption.
  - apply axisScale_out_of_range; assumption.
  - intros H. split; [apply value_out_of_range | apply cursor_out_of_range]; exact H.
Qed.

(** ** The cursor tool without cursors *)

Section CursorPress.

Import MPlotCursorTool.

Variable mapDrawingToData : MPlotAxisScale -> qreal -> qreal.

Lemma numCursors_zero (w : World) : cursors_ w = [] -> numCursors w = 0.
Proof. intros H. unfold numCursors. rewrite H. reflexivity. Qed.

(** A left-button press on a tool that holds no cursor reaches
    [activeCursor % numCursors()] with a zero divisor. *)
Lemma press_without_cursors (event : QGraphicsSceneMouseEvent) (w : World) :
  button event = LeftButton -> cursors_ w = [] ->
  mousePressEvent mapDrawingToData event w = Undefined.
Proof using Type.
  intros Hb Hc. unfold mousePressEvent. rewrite Hb. simpl.
  rewrite (numCursors_zero w Hc). reflexivity.
Qed.

(** With at least one cursor the index computation is defined and in
    range. *)
Lemma umod_defined (w : World) :
  cursors_ w <> [] -> count (cursors_ w) <= INT_MAX ->
  exists c, umod (activeCursor w) (numCursors w) = Ret c
            /\ 0 <= c < count (cursors_ w).
Proof.
  intros Hne Hfit. unfold umod, numCursors.
  assert (Hpos : 0 < count (cursors_ w)).
  { unfold count. destruct (cursors_ w); [congruence | simpl; lia]. }
  rewrite to_unsigned_small by (unfold INT_MAX, UINT_MOD in *; lia).
  replace (count (cursors_ w) =? 0) with false by (symmetry; apply Z.eqb_neq; lia).
  eexists. split; [reflexivity |]. apply Z.mod_pos_bound. exact Hpos.
Qed.

End CursorPress.

(** C9.  [MPlotCursorTool::mousePressEvent] is not defined in every state of
    the tool: on the tool as its constructor leaves it (no cursors), every
    left-button press evaluates [activeCursor % numCursors()] with
    [numCursors() == 0], a modulo by zero. *)
Theorem cursor_press_on_fresh_tool_is_undefined
    (mapDrawingToData : MPlotAxisScale -> qreal -> qreal)
    (pl : option nat) (pts : nat -> MPlotCursorTool.MPlotPoint)
    (pls : nat -> MPlotAccessors.MPlot) (sc : AxisStore)
    (p sp bp bsp : QPointF) :
  MPlotCursorTool.mousePressEvent mapDrawingToData
    (mkMouse LeftButton p sp bp bsp) (MPlotCursorTool.fresh_tool pl pts pls sc)
  = Undefined.
Proof. apply press_without_cursors; reflexivity. Qed.

(** ** The vector series data *)

Section VectorSeriesData.

Import MPlotVectorSeriesData.

Lemma setValues_mismatch (xs ys : list qreal) (d : t) :
  length xs <> length ys -> setValues xs ys d = (d, false).
Proof.
  intros H. unfold setValues.
  replace (count xs =? count ys) with false; [reflexivity |].
  symmetry. apply Z.eqb_neq. unfold count. lia.
Qed.

Lemma setValues_match (xs ys : list qreal) (d : t) :
  length xs = length ys -> setValues xs ys d = (mkVec xs ys, true).
Proof.
  intros H. unfold setValues, count. rewrite H, Z.eqb_refl. reflexivity.
Qed.

Lemma setXValue_out_of_range (index : Z) (v : qreal) (d : t) :
  ~ (0 <= index < count (xValues_ d)) -> setXValue index v d = (d, false).
Proof.
  intros H. unfold setXValue.
  destruct (0 <=? index) eqn:E0; [| reflexivity].
  destruct (index <? count (xValues_ d)) eqn:E1; [| reflexivity].
  apply Z.leb_le in E0. apply Z.ltb_lt in E1. lia.
Qed.

Lemma setYValue_out_of_range (index : Z) (v : qreal) (d : t) :
  ~ (0 <= index < count (yValues_ d)) -> setYValue index v d = (d, false).
Proof.
  intros H. unfold setYValue.
  destruct (0 <=? index) eqn:E0; [| reflexivity].
  destruct (index <? count (yValues_ d)) eqn:E1; [| reflexivity].
  apply Z.leb_le in E0. apply Z.ltb_lt in E1. lia.
Qed.

Lemma setXValue_in_range (index : Z) (v : qreal) (d : t) :
  0 <= index < count (xValues_ d) ->
  let d' := fst (setXValue index v d) in
  snd (setXValue index v d) = true
  /\ xValues_ d' !! Z.to_nat index = Some v
  /\ (forall j, j <> Z.to_nat index -> xValues_ d' !! j = xValues_ d !! j)
  /\ length (xValues_ d') = length (xValues_ d)
  /\ yValues_ d' = yValues_ d.
Proof.
  intros H. unfold setXValue.
  replace (0 <=? index) with true by (symmetry; apply Z.leb_le; lia).
  replace (index <? count (xValues_ d)) with true by (symmetry; apply Z.ltb_lt; lia).
  simpl. repeat split.
  - apply list_lookup_insert_eq. unfold count in H. lia.
  - intros j Hj. apply list_lookup_insert_ne. congruence.
  - apply length_insert.
Qed.

Lemma setYValue_in_range (index : Z) (v : qreal) (d : t) :
  0 <= index < count (yValues_ d) ->
  let d' := fst (setYValue index v d) in
  snd (setYValue index v d) = true
  /\ yValues_ d' !! Z.to_nat index = Some v
  /\ (forall j, j <> Z.to_nat index -> yValues_ d' !! j = yValues_ d !! j)
  /\ length (yValues_ d') = length (yValues_ d)
  /\ xValues_ d' = xValues_ d.
Proof.
  intros H. unfold setYValue.
  replace (0 <=? index) with true by (symmetry; apply Z.leb_le; lia).
  replace (index <? count (yValues_ d)) with true by (symmetry; apply Z.ltb_lt; lia).
  simpl. repeat split.
  - apply list_lookup_insert_eq. unfold count in H. lia.
  - intros j Hj. apply list_lookup_insert_ne. congruence.
  - apply length_insert.
Qed.

(** What the plot reads back after a successful [setXValue]. *)
Lemma setXValue_then_x (index : Z) (v : qreal) (d : t) :
  0 <= index < count (xValues_ d) ->
  x (fst (setXValue index v d)) index = Ret v.
Proof.
  intros H. destruct (setXValue_in_range index v d H) as (_ & Hv & _ & Hlen & _).
  unfold x. destruct (at_defined (xValues_ (fst (setXValue index v d))) index)
    as [a [Ha Hl]].
  - unfold count in *. rewrite Hlen. exact H.
  - rewrite Ha. congruence.
Qed.

Lemma setYValue_then_y (index : Z) (v : qreal) (d : t) :
  0 <= index < count (yValues_ d) ->
  y (fst (setYValue index v d)) index = Ret v.
Proof.
  intros H. destruct (setYValue_in_range index v d H) as (_ & Hv & _ & Hlen & _).
  unfold y. destruct (at_defined (yValues_ (fst (setYValue index v d))) index)
    as [a [Ha Hl]].
  - unfold count in *. rewrite Hlen. exact H.
  - rewrite Ha. congruence.
Qed.

End VectorSeriesData.

(** C8.  [setValues] with vectors of different sizes, and [setXValue] /
    [setYValue] with an index out of range for the current data, return
    [false] and leave the stored data as it was; in all other cases the
    setter returns [true] and the stored data is the requested update:
    the two given vectors, or the old vectors with the one value replaced. *)
Theorem vector_setters_guarded
    (d : MPlotVectorSeriesData.t) (xs ys : list qreal) (index : Z) (v : qreal) :
  (length xs <> length ys -> MPlotVectorSeriesData.setValues xs ys d = (d, false))
  /\ (length xs = length ys ->
      MPlotVectorSeriesData.setValues xs ys d = (MPlotVectorSeriesData.mkVec xs ys, true))
  /\ (~ (0 <= index < count (MPlotVectorSeriesData.xValues_ d)) ->
      MPlotVectorSeriesData.setXValue index v d = (d, false))
  /\ (~ (0 <= index < count (MPlotVectorSeriesData.yValues_ d)) ->
      MPlotVectorSeriesData.setYValue index v d = (d, false))
  /\ (0 <= index < count (MPlotVectorSeriesData.xValues_ d) ->
      MPlotVectorSeriesData.setXValue index v d
      = (MPlotVectorSeriesData.mkVec
           (<[Z.to_nat index := v]> (MPlotVectorSeriesData.xValues_ d))
           (MPlotVectorSeriesData.yValues_ d), true)
      /\ <[Z.to_nat index := v]> (MPlotVectorSeriesData.xValues_ d) !! Z.to_nat index
         = Some v)
  /\ (0 <= index < count (MPlotVectorSeriesData.yValues_ d) ->
      MPlotVectorSeriesData.setYValue index v d
      = (MPlotVectorSeriesData.mkVec
           (MPlotVectorSeriesData.xValues_ d)
           (<[Z.to_nat index := v]> (MPlotVectorSeriesData.yValues_ d)), true)
      /\ <[Z.to_nat index := v]> (MPlotVectorSeriesData.yValues_ d) !! Z.to_nat index
         = Some v).
Proof.
  split; [apply setValues_mismatch |].
  split; [apply setValues_match |].
  split; [apply setXValue_out_of_range |].
  split; [apply setYValue_out_of_range |].
  split.
  - intros H.
    split; [| apply list_lookup_insert_eq; unfold count in H; lia].
    unfold MPlotVectorSeriesData.setXValue.
    replace (0 <=? index) with true by (symmetry; apply Z.leb_le; lia).
    replace (index <? count (MPlotVectorSeriesData.xValues_ d)) with true
      by (symmetry; apply Z.ltb_lt; lia).
    reflexivity.
  - intros H.
    split; [| apply list_lookup_insert_eq; unfold count in H; lia].
    unfold MPlotVectorSeriesData.setYValue.
    replace (0 <=? index) with true by (symmetry; apply Z.leb_le; lia).
    replace (index <? count (MPlotVectorSeriesData.yValues_ d)) with true
      by (symmetry; apply Z.ltb_lt; lia).
    reflexivity.
Qed.

(** ** Stores *)

Lemma store_insert_eq {T} (s : nat -> T) (a : nat) (v : T) : (<[a := v]> s) a = v.
Proof. apply fn_lookup_insert. Qed.

Lemma store_insert_ne {T} (s : nat -> T) (a b : nat) (v : T) :
  a <> b -> (<[a := v]> s) b = s b.
Proof. apply fn_lookup_insert_ne. Qed.

(** A loop that writes one object per step leaves alone every object it does
    not visit. *)
Lemma fold_store_untouched {T X} (f : (nat -> T) -> X -> (nat -> T)) (key : X -> nat) (a : nat) :
  (forall s x, key x <> a -> f s x a = s a) ->
  forall (l : list X) (s : nat -> T),
    ~ In a (map key l) -> fold_left f l s a = s a.
Proof.
  intros Hf l. induction l as [| x l IH]; intros s Hn; simpl; [reflexivity |].
  simpl in Hn. rewrite IH by tauto. apply Hf. tauto.
Qed.

(** ** The wheel zoomer *)

Section WheelZoomer.

Import MPlotWheelZoomerTool.

Variable mapDrawingToData : Binary64.MPlotAxisScale -> PrimFloat.float -> PrimFloat.float.

Lemma zoomAxis_other (event : QGraphicsSceneWheelEvent) (F : PrimFloat.float)
    (s : AxisStore) (b a : nat) :
  b <> a -> zoomAxis mapDrawingToData event F s b a = s a.
Proof using Type. intros H. unfold zoomAxis. apply store_insert_ne. exact H. Qed.

Lemma zoomAxis_same (event : QGraphicsSceneWheelEvent) (F : PrimFloat.float)
    (s : AxisStore) (a : nat) :
  zoomAxis mapDrawingToData event F s a a = zoomScale mapDrawingToData event F (s a).
Proof using Type. unfold zoomAxis. apply store_insert_eq. Qed.

(** An axis scale listed once among the targets is zoomed once by the
    event, from the state it had when the event arrived. *)
Lemma wheelEvent_once (event : QGraphicsSceneWheelEvent) (t : Tool)
    (s : AxisStore) (a : nat) :
  In a (targetAxes_ t) -> List.NoDup (targetAxes_ t) ->
  wheelEvent mapDrawingToData event t s a
  = zoomScale mapDrawingToData event (zoomFactor (zf_ t) (delta event)) (s a).
Proof using Type.
  unfold wheelEvent. set (F := zoomFactor (zf_ t) (delta event)).
  generalize (targetAxes_ t) s. clear s.
  induction l as [| b l IH]; intros s Hin Hnd; simpl in *; [contradiction |].
  inversion Hnd as [| ? ? Hb Hnd']; subst.
  destruct (Nat.eq_dec b a) as [-> | Hne].
  - rewrite (fold_store_untouched
               (fun s x => zoomAxis mapDrawingToData event F s x) (fun x => x)).
    + apply zoomAxis_same.
    + intros s' x Hx. apply zoomAxis_other. exact Hx.
    + rewrite map_id. exact Hb.
  - destruct Hin as [-> | Hin]; [congruence |].
    rewrite IH by assumption. rewrite zoomAxis_other by exact Hne. reflexivity.
Qed.

(** An axis scale that is not a target keeps its state. *)
Lemma wheelEvent_frame (event : QGraphicsSceneWheelEvent) (t : Tool)
    (s : AxisStore) (a : nat) :
  ~ In a (targetAxes_ t) -> wheelEvent mapDrawingToData event t s a = s a.
Proof using Type.
  intros Hn. unfold wheelEvent.
  apply (fold_store_untouched
           (fun s x => zoomAxis mapDrawingToData event
                         (zoomFactor (zf_ t) (delta event)) s x) (fun x => x)).
  - intros s' x Hx. apply zoomAxis_other. exact Hx.
  - rewrite map_id. exact Hn.
Qed.

(** The algebra of the comment above [wheelEvent], on rationals: for a
    range with [max > min] and a factor that is not zero, the two relations
    hold of a new range exactly when its ends are [x + F (min - x)] and
    [x + F (max - x)]. *)
Lemma relations_iff_unrounded (x F mn mx mn' mx' : Q) :
  (mn < mx)%Q -> ~ (F == 0)%Q ->
  (scaled_by F mn mx mn' mx' /\ keeps_fraction x mn mx mn' mx')
  <-> (unrounded x F mn mn' /\ unrounded x F mx mx').
Proof.
  intros Hlt HF. unfold scaled_by, keeps_fraction, unrounded.
  assert (HD : ~ (mx - mn == 0)%Q) by lra.
  split.
  - intros [Hw Hf].
    assert (HD' : ~ (mx' - mn' == 0)%Q).
    { rewrite Hw. intros H0. apply Qmult_integral in H0. tauto. }
    assert (Hc : ((x - mn) * (mx' - mn') == (x - mn') * (mx - mn))%Q).
    { transitivity ((x - mn) / (mx - mn) * ((mx - mn) * (mx' - mn')))%Q;
        [field; exact HD |].
      rewrite Hf. field. exact HD'. }
    rewrite Hw in Hc.
    assert (Hm : (x - mn' == F * (x - mn))%Q).
    { apply (Qmult_inj_r _ _ (mx - mn) HD).
      rewrite <- Hc. ring. }
    split; lra.
  - intros [Hmn Hmx].
    assert (Hw : (mx' - mn' == F * (mx - mn))%Q) by (rewrite Hmn, Hmx; ring).
    split; [exact Hw |].
    rewrite Hw.
    assert (Hn : (x - mn' == F * (x - mn))%Q) by (rewrite Hmn; ring).
    rewrite Hn. field. split; assumption.
Qed.

End WheelZoomer.

Section WheelZoomerClaim.

Import PrimFloat.

(** C2, as the code has it.  A wheel event handled by the wheel zoomer, on
    a target axis scale (the target axes being distinct axis scales): with
    [F] the zoom factor of the event and [x] the cursor position mapped to
    data coordinates, the new range is [x + F*(min - x)], [x + F*(max - x)]
    as binary64 evaluates them, and nothing else of the axis scale changes.
    When the values involved are finite, [max > min] and [F] is not zero,
    the relations [max' - min' = F (max - min)] and
    [(x - min)/(max - min) = (x - min')/(max' - min')] hold of the numbers
    stored if and only if the two ends were computed without rounding
    error. *)
Theorem wheel_zoom_relations_hold_iff_unrounded
    (mapDrawingToData : Binary64.MPlotAxisScale -> float -> float)
    (event : MPlotWheelZoomerTool.QGraphicsSceneWheelEvent)
    (t : MPlotWheelZoomerTool.Tool) (s : MPlotWheelZoomerTool.AxisStore) (a : nat)
    (vx vF vmin vmax vmin' vmax' : Q) :
  In a (MPlotWheelZoomerTool.targetAxes_ t) ->
  List.NoDup (MPlotWheelZoomerTool.targetAxes_ t) ->
  let F := MPlotWheelZoomerTool.zoomFactor
             (MPlotWheelZoomerTool.zf_ t) (MPlotWheelZoomerTool.delta event) in
  let x := MPlotWheelZoomerTool.dataPos mapDrawingToData event (s a) in
  let a' := MPlotWheelZoomerTool.wheelEvent mapDrawingToData event t s a in
  (Binary64.axis_min a' = (x + F * (Binary64.axis_min (s a) - x))%float
   /\ Binary64.axis_max a' = (x + F * (Binary64.axis_max (s a) - x))%float
   /\ Binary64.orientation a' = Binary64.orientation (s a)
   /\ Binary64.autoScaleEnabled a' = Binary64.autoScaleEnabled (s a))
  /\ (Binary64.value x = Some vx ->
      Binary64.value F = Some vF ->
      Binary64.value (Binary64.axis_min (s a)) = Some vmin ->
      Binary64.value (Binary64.axis_max (s a)) = Some vmax ->
      Binary64.value (Binary64.axis_min a') = Some vmin' ->
      Binary64.value (Binary64.axis_max a') = Some vmax' ->
      (vmin < vmax)%Q -> ~ (vF == 0)%Q ->
      (MPlotWheelZoomerTool.scaled_by vF vmin vmax vmin' vmax'
       /\ MPlotWheelZoomerTool.keeps_fraction vx vmin vmax vmin' vmax')
      <-> (MPlotWheelZoomerTool.unrounded vx vF vmin vmin'
           /\ MPlotWheelZoomerTool.unrounded vx vF vmax vmax')).
Proof.
  intros Hin Hnd F x a'. subst a'.
  rewrite (wheelEvent_once mapDrawingToData event t s a Hin Hnd).
  split; [repeat split |].
  intros _ _ _ _ _ _ Hlt HF. apply relations_iff_unrounded; assumption.
Qed.

(** C2 where binary64 does not round: a notch of 25% over the middle of
    [0, 8] leaves [1, 7]. *)
Lemma wheel_zoom_unrounded_witness :
  let s := Samples.Wheel.axes 0 8 in
  let a' := MPlotWheelZoomerTool.wheelEvent Samples.Wheel.mapDrawingToData
              (Samples.Wheel.notch 4 120) (Samples.Wheel.zoomer [0%nat; 1%nat])
              s 0%nat in
  Binary64.dataRange a' = Binary64.mkRange 1 7
  /\ MPlotWheelZoomerTool.scaled_by (3 # 4) 0 8 1 7
  /\ MPlotWheelZoomerTool.keeps_fraction 4 0 8 1 7.
Proof.
  assert (Hin : In 0%nat [0%nat; 1%nat]) by (left; reflexivity).
  assert (Hnd : List.NoDup [0%nat; 1%nat]).
  { repeat constructor; simpl; intuition discriminate. }
  destruct (wheel_zoom_relations_hold_iff_unrounded Samples.Wheel.mapDrawingToData
              (Samples.Wheel.notch 4 120) (Samples.Wheel.zoomer [0%nat; 1%nat])
              (Samples.Wheel.axes 0 8) 0%nat
              (inject_Z 4) (3 # 4) 0 (inject_Z 8) (inject_Z 1) (inject_Z 7) Hin Hnd)
    as [_ Hiff].
  cbv zeta. split; [reflexivity |].
  apply Hiff; try reflexivity.
  - discriminate.
  - split; reflexivity.
Defined.

(** C2 as the spec has it does not hold of the code.  One notch of 25%
    with the cursor at 0.2 over the range from 0.1 to 0.3: the factor is
    0.75, every value is finite and [max > min], yet neither relation holds
    of the range the code stores, whether read on the exact values of the
    doubles or evaluated in binary64.  And on an axis scale listed twice
    among the targets the event zooms twice: over [0, 8] with the cursor at
    4, where nothing is rounded, it leaves a range of width 4.5, not 6. *)
Lemma wheel_zoom_relations_fail_with_rounding :
  let a' := MPlotWheelZoomerTool.wheelEvent Samples.Wheel.mapDrawingToData
              (Samples.Wheel.notch 0.2 120) (Samples.Wheel.zoomer [0%nat; 1%nat])
              (Samples.Wheel.axes 0.1 0.3) 0%nat in
  let F := MPlotWheelZoomerTool.zoomFactor 0.25 120 in
  let twice := MPlotWheelZoomerTool.wheelEvent Samples.Wheel.mapDrawingToData
                 (Samples.Wheel.notch 4 120) (Samples.Wheel.zoomer [0%nat; 0%nat])
                 (Samples.Wheel.axes 0 8) 0%nat in
  F = 0.75%float
  /\ Binary64.dataRange a' = Binary64.mkRange 0.125 0.27500000000000002
  /\ (exists vx vmin vmax vmin' vmax',
        Binary64.value 0.2 = Some vx
        /\ Binary64.value 0.1 = Some vmin
        /\ Binary64.value 0.3 = Some vmax
        /\ Binary64.value (Binary64.axis_min a') = Some vmin'
        /\ Binary64.value (Binary64.axis_max a') = Some vmax'
        /\ (vmin < vmax)%Q
        /\ ~ MPlotWheelZoomerTool.scaled_by (3 # 4) vmin vmax vmin' vmax'
        /\ ~ MPlotWheelZoomerTool.keeps_fraction vx vmin vmax vmin' vmax')
  /\ (Binary64.axis_max a' - Binary64.axis_min a' =? F * (0.3 - 0.1))%float = false
  /\ ((0.2 - 0.1) / (0.3 - 0.1)
      =? (0.2 - Binary64.axis_min a') / (Binary64.axis_max a' - Binary64.axis_min a'))%float
     = false
  /\ Binary64.dataRange twice = Binary64.mkRange 1.75 6.25
  /\ ~ MPlotWheelZoomerTool.scaled_by (3 # 4) 0 8 (7 # 4) (25 # 4).
Proof.
  cbv zeta. split; [reflexivity |]. split; [reflexivity |]. split.
  { do 5 eexists.
    split; [vm_compute; reflexivity |]. split; [vm_compute; reflexivity |].
    split; [vm_compute; reflexivity |]. split; [vm_compute; reflexivity |].
    split; [vm_compute; reflexivity |]. split; [reflexivity |].
    split; intros H; vm_compute in H; discriminate H. }
  split; [reflexivity |]. split; [reflexivity |]. split; [reflexivity |].
  intros H. vm_compute in H. discriminate H.
Qed.

End WheelZoomerClaim.

(** ** The drag zoomer *)

Lemma MouseButton_eqb_eq (a b : MouseButton) : MouseButton_eqb a b = true <-> a = b.
Proof. destruct a, b; simpl; split; intros H; congruence. Qed.

Lemma qgt_false_of_le (a b : qreal) : (a <= b)%Q -> qgt a b = false.
Proof.
  intros H. unfold qgt, qlt. apply Qle_bool_iff in H. rewrite H. reflexivity.
Qed.

Lemma qlt_true_iff (a b : qreal) : qlt a b = true <-> (a < b)%Q.
Proof.
  unfold qlt. rewrite negb_true_iff. split.
  - intros H. apply Qnot_le_lt. intros Hle. apply Qle_bool_iff in Hle. congruence.
  - intros H. destruct (Qle_bool b a) eqn:E; [| reflexivity].
    apply Qle_bool_iff in E. exfalso. apply (Qlt_not_le _ _ H). exact E.
Qed.

Lemma qlt_false_iff (a b : qreal) : qlt a b = false <-> (b <= a)%Q.
Proof.
  unfold qlt. rewrite negb_false_iff. apply Qle_bool_iff.
Qed.

Section DragZoomer.

Import MPlotDragZoomerTool.

Variable MPLOT_RUBBERBAND_DEADZONE : qreal.
Variable mapDrawingToDataRange : MPlotAxisScale -> MPlotAxisRange -> MPlotAxisRange.

Local Abbreviation mouseMoveEvent := (mouseMoveEvent MPLOT_RUBBERBAND_DEADZONE).
Local Abbreviation mouseReleaseEvent := (mouseReleaseEvent mapDrawingToDataRange).
Local Abbreviation releaseLeft := (releaseLeft mapDrawingToDataRange).
Local Abbreviation zoomAxis := (zoomAxis mapDrawingToDataRange).
Local Abbreviation run := (run MPLOT_RUBBERBAND_DEADZONE mapDrawingToDataRange).
Local Abbreviation handle := (handle MPLOT_RUBBERBAND_DEADZONE mapDrawingToDataRange).
Local Abbreviation within_deadzone := (within_deadzone MPLOT_RUBBERBAND_DEADZONE).

Lemma contains_In (l : list nat) (a : nat) : contains l a = true <-> In a l.
Proof.
  unfold contains. rewrite existsb_exists. split.
  - intros [x [Hx He]]. apply Nat.eqb_eq in He. subst. exact Hx.
  - intros H. exists a. split; [exact H | apply Nat.eqb_refl].
Qed.

(** *** The zooming loop *)

Lemma zoomAxis_store_other (e : QGraphicsSceneMouseEvent) (acc : ZoomList)
    (s : AxisStore) (b a : nat) :
  b <> a -> snd (zoomAxis e (acc, s) b) a = s a.
Proof.
  intros H. unfold MPlotDragZoomerTool.zoomAxis.
  destruct (orientation (s b));
    match goal with |- context [qgt ?u ?v] => destruct (qgt u v) end;
    simpl; apply store_insert_ne; exact H.
Qed.

Lemma zoomAxis_list (e : QGraphicsSceneMouseEvent) (acc : ZoomList)
    (s : AxisStore) (b : nat) :
  fst (zoomAxis e (acc, s) b) = acc ++ [(b, dataRange (s b))].
Proof.
  unfold MPlotDragZoomerTool.zoomAxis.
  destruct (orientation (s b));
    match goal with |- context [qgt ?u ?v] => destruct (qgt u v) end;
    reflexivity.
Qed.

(** The list the loop builds pairs every target, in order, with the range
    the axis scale had when the loop reached it; for targets listed once
    this is the range it had when the loop started. *)
Lemma zoom_loop_records (e : QGraphicsSceneMouseEvent) (l : list nat) :
  forall (acc : ZoomList) (s : AxisStore),
  exists zl, fst (fold_left (zoomAxis e) l (acc, s)) = acc ++ zl
             /\ map fst zl = l
             /\ (List.NoDup l -> forall a r, In (a, r) zl -> r = dataRange (s a)).
Proof.
  induction l as [| b l IH]; intros acc s.
  - exists []. simpl. rewrite app_nil_r. repeat split. intros _ a r [].
  - cbn [fold_left]. destruct (zoomAxis e (acc, s) b) as [acc1 s1] eqn:E.
    pose proof (zoomAxis_list e acc s b) as Hl. rewrite E in Hl. simpl in Hl.
    destruct (IH acc1 s1) as [zl (Hz & Hk & Hr)].
    exists ((b, dataRange (s b)) :: zl). split; [| split].
    + rewrite Hz, Hl, <- app_assoc. reflexivity.
    + simpl. rewrite Hk. reflexivity.
    + intros Hnd a r Hin. inversion Hnd as [| ? ? Hb Hnd']; subst.
      destruct Hin as [Heq | Hin].
      * inversion Heq; subst. reflexivity.
      * rewrite (Hr Hnd' a r Hin).
        assert (Ha : In a (map fst zl)).
        { apply in_map_iff. exists (a, r). split; [reflexivity | exact Hin]. }
        assert (Hne : b <> a) by (intros ->; contradiction).
        pose proof (zoomAxis_store_other e acc s b a Hne) as Hs.
        rewrite E in Hs. simpl in Hs. rewrite Hs. reflexivity.
Qed.

(** *** The restoring loop *)

Lemma restore_loop (targets : list nat) (a : nat) (r0 : MPlotAxisRange)
    (zl : ZoomList) :
  In a targets ->
  (forall r, In (a, r) zl -> r = r0) ->
  forall s : AxisStore,
    In a (map fst zl) \/ dataRange (s a) = r0 ->
    dataRange (fold_left (restoreAxis targets) zl s a) = r0.
Proof.
  intros Ht. induction zl as [| [b r] zl IH]; intros Hall s Hs; simpl in *.
  - destruct Hs as [[] | Hs]. exact Hs.
  - apply IH.
    + intros r' Hr'. apply Hall. right. exact Hr'.
    + unfold restoreAxis. simpl.
      destruct (Nat.eq_dec b a) as [-> | Hne].
      * right. replace (contains targets a) with true
          by (symmetry; apply contains_In; exact Ht).
        rewrite store_insert_eq. simpl. apply Hall. left. reflexivity.
      * destruct Hs as [[Hb | Hin] | Hs]; [contradiction | left; exact Hin |].
        right. destruct (contains targets b); [| exact Hs].
        rewrite store_insert_ne by exact Hne. exact Hs.
Qed.

Lemma setAutoScaleAll_target (b : bool) (l : list nat) (a : nat) :
  forall s : AxisStore,
    In a l \/ autoScaleEnabled (s a) = b ->
    autoScaleEnabled (setAutoScaleAll b l s a) = b.
Proof.
  unfold setAutoScaleAll.
  induction l as [| c l IH]; intros s Hs; simpl in *.
  - destruct Hs as [[] | Hs]. exact Hs.
  - apply IH. destruct (Nat.eq_dec c a) as [-> | Hne].
    + right. rewrite store_insert_eq. reflexivity.
    + destruct Hs as [[Hc | Hin] | Hs]; [contradiction | left; exact Hin |].
      right. rewrite store_insert_ne by exact Hne. exact Hs.
Qed.

(** *** The handlers, case by case *)

Lemma release_left_zoom (e : QGraphicsSceneMouseEvent) (t : Tool) (s : AxisStore) :
  button e = LeftButton -> dragInProgress_ t = true ->
  mouseReleaseEvent e (t, s)
  = ({| dragStarted_ := false; dragInProgress_ := false;
        targetAxes_ := targetAxes_ t;
        oldZooms_ := fst (fold_left (zoomAxis e) (targetAxes_ t) ([], s)) :: oldZooms_ t;
        selectionRect_ := null_rect |},
     snd (fold_left (zoomAxis e) (targetAxes_ t) ([], s))).
Proof.
  intros Hb Hd. unfold MPlotDragZoomerTool.mouseReleaseEvent,
    MPlotDragZoomerTool.releaseLeft, releaseRight.
  rewrite Hb, Hd. simpl.
  destruct (fold_left (zoomAxis e) (targetAxes_ t) ([], s)) as [zl s'].
  reflexivity.
Qed.

Lemma release_left_click (e : QGraphicsSceneMouseEvent) (t : Tool) (s : AxisStore) :
  button e = LeftButton -> dragInProgress_ t = false ->
  mouseReleaseEvent e (t, s)
  = ({| dragStarted_ := false; dragInProgress_ := false;
        targetAxes_ := targetAxes_ t; oldZooms_ := oldZooms_ t;
        selectionRect_ := null_rect |}, s).
Proof.
  intros Hb Hd. unfold MPlotDragZoomerTool.mouseReleaseEvent,
    MPlotDragZoomerTool.releaseLeft, releaseRight.
  rewrite Hb, Hd. reflexivity.
Qed.

Lemma release_right_pop (e : QGraphicsSceneMouseEvent) (t : Tool) (s : AxisStore)
    (zl : ZoomList) (rest : list ZoomList) :
  button e = RightButton -> dragInProgress_ t = false ->
  oldZooms_ t = zl :: rest ->
  mouseReleaseEvent e (t, s)
  = ({| dragStarted_ := dragStarted_ t; dragInProgress_ := dragInProgress_ t;
        targetAxes_ := targetAxes_ t; oldZooms_ := rest;
        selectionRect_ := selectionRect_ t |},
     fold_left (restoreAxis (targetAxes_ t)) zl s).
Proof.
  intros Hb Hd Hz. unfold MPlotDragZoomerTool.mouseReleaseEvent,
    MPlotDragZoomerTool.releaseLeft, releaseRight.
  rewrite Hb. simpl. rewrite Hd, Hz. reflexivity.
Qed.

Lemma release_right_empty (e : QGraphicsSceneMouseEvent) (t : Tool) (s : AxisStore) :
  button e = RightButton -> dragInProgress_ t = false -> oldZooms_ t = [] ->
  mouseReleaseEvent e (t, s) = (t, setAutoScaleAll true (targetAxes_ t) s).
Proof.
  intros Hb Hd Hz. unfold MPlotDragZoomerTool.mouseReleaseEvent,
    MPlotDragZoomerTool.releaseLeft, releaseRight.
  rewrite Hb. simpl. rewrite Hd, Hz. reflexivity.
Qed.

(** While a drag is in progress a right-button release does nothing. *)
Lemma release_right_during_drag (e : QGraphicsSceneMouseEvent) (t : Tool)
    (s : AxisStore) :
  button e = RightButton -> dragInProgress_ t = true ->
  mouseReleaseEvent e (t, s) = (t, s).
Proof.
  intros Hb Hd. unfold MPlotDragZoomerTool.mouseReleaseEvent,
    MPlotDragZoomerTool.releaseLeft, releaseRight.
  rewrite Hb. simpl. rewrite Hd. reflexivity.
Qed.

Lemma move_within_deadzone (e : QGraphicsSceneMouseEvent) (t : Tool) (s : AxisStore) :
  dragInProgress_ t = false -> within_deadzone e ->
  mouseMoveEvent e (t, s) = (t, s).
Proof.
  intros Hd Hw. unfold MPlotDragZoomerTool.mouseMoveEvent.
  rewrite (qgt_false_of_le _ _ Hw), andb_false_r, Hd. reflexivity.
Qed.

Lemma moves_within_deadzone (moves : list QGraphicsSceneMouseEvent) (t : Tool)
    (s : AxisStore) :
  dragInProgress_ t = false -> Forall within_deadzone moves ->
  run (map Move moves) (t, s) = (t, s).
Proof.
  intros Hd Hall. unfold MPlotDragZoomerTool.run.
  induction Hall as [| e moves He _ IH]; [reflexivity |].
  cbn [map fold_left MPlotDragZoomerTool.handle].
  rewrite (move_within_deadzone e t s Hd He). exact IH.
Qed.

(** A click: press, moves within the deadzone, release of the left
    button, on a tool with no drag in progress. *)
Lemma click_within_deadzone (t : Tool) (s : AxisStore)
    (press release : QGraphicsSceneMouseEvent)
    (moves : list QGraphicsSceneMouseEvent) :
  button press = LeftButton -> button release = LeftButton ->
  Forall within_deadzone moves ->
  dragInProgress_ t = false ->
  run (Press press :: map Move moves ++ [Release release]) (t, s)
  = ({| dragStarted_ := false; dragInProgress_ := false;
        targetAxes_ := targetAxes_ t; oldZooms_ := oldZooms_ t;
        selectionRect_ := null_rect |}, s).
Proof.
  intros Hp Hr Hall Hd. unfold MPlotDragZoomerTool.run.
  cbn [fold_left MPlotDragZoomerTool.handle].
  unfold mousePressEvent. rewrite Hp.
  cbn [MouseButton_eqb]. rewrite fold_left_app.
  set (pressed := {| dragStarted_ := true; dragInProgress_ := dragInProgress_ t;
                     targetAxes_ := targetAxes_ t; oldZooms_ := oldZooms_ t;
                     selectionRect_ := selectionRect_ t |}).
  assert (Hd' : dragInProgress_ pressed = false) by exact Hd.
  pose proof (moves_within_deadzone moves pressed s Hd' Hall) as Hm.
  unfold MPlotDragZoomerTool.run in Hm. rewrite Hm.
  cbn [fold_left MPlotDragZoomerTool.handle].
  rewrite (release_left_click release pressed s Hr Hd').
  reflexivity.
Qed.

(** *** The left button over a history *)

Lemma handle_at_rest (ev : Event) (down : bool) (t : Tool) (s : AxisStore) :
  buttons_ok down [ev] -> at_rest down t ->
  at_rest (left_after down [ev]) (fst (handle ev (t, s))).
Proof.
  intros Hok Hinv. destruct ev as [e | e | e]; simpl in *.
  - unfold mousePressEvent. destruct (MouseButton_eqb (button e) LeftButton).
    + intros H. discriminate.
    + exact Hinv.
  - intros Hdown. destruct (Hinv Hdown) as [H1 H2].
    unfold MPlotDragZoomerTool.mouseMoveEvent. rewrite H1. simpl. rewrite H2.
    simpl. split; assumption.
  - unfold MPlotDragZoomerTool.mouseReleaseEvent,
      MPlotDragZoomerTool.releaseLeft, releaseRight.
    destruct (button e) eqn:Hb; simpl in *.
    + intros _. destruct (dragInProgress_ t).
      * destruct (fold_left (zoomAxis e) (targetAxes_ t) ([], s)) as [zl s'].
        simpl. split; reflexivity.
      * simpl. split; reflexivity.
    + intros Hdown. destruct (Hinv Hdown) as [H1 H2]. rewrite H2. simpl.
      destruct (oldZooms_ t); simpl; split; first [assumption | reflexivity].
    + intros Hdown. destruct (Hinv Hdown) as [H1 H2].
      rewrite andb_false_r. simpl. split; assumption.
    + intros Hdown. destruct (Hinv Hdown) as [H1 H2].
      rewrite andb_false_r. simpl. split; assumption.
Qed.

(** Whenever the left button is up, no drag is started or in progress. *)
Lemma run_at_rest (evs : list Event) :
  forall (down : bool) (w : World),
    buttons_ok down evs -> at_rest down (fst w) ->
    at_rest (left_after down evs) (fst (run evs w)).
Proof.
  unfold MPlotDragZoomerTool.run.
  induction evs as [| ev evs IH]; intros down [t s] Hok Hinv; simpl; [exact Hinv |].
  assert (Hok1 : buttons_ok down [ev] /\ buttons_ok (left_after down [ev]) evs).
  { destruct ev as [e | e | e]; simpl in *;
      try destruct (MouseButton_eqb (button e) LeftButton); tauto. }
  destruct Hok1 as [Hok1 Hok2].
  pose proof (handle_at_rest ev down t s Hok1 Hinv) as Hstep.
  specialize (IH (left_after down [ev]) (handle ev (t, s)) Hok2 Hstep).
  destruct ev as [e | e | e]; simpl in *; exact IH.
Qed.

End DragZoomer.

(** C5, as the code has it.  A left-button release that completes a
    drag-zoom pushes the ranges of the target axes; the right-button release
    that follows, no drag being in progress then, pops that entry and
    restores, on every axis scale that was zoomed and is still a target,
    exactly the range it had before the drag-zoom.  A right-button release
    with an empty zoom stack and no drag in progress re-enables auto-scaling
    on every target axis.  The target axes are a list of distinct axis
    scales. *)
Theorem drag_zoom_recall_is_lifo
    (mapDrawingToDataRange : MPlotAxisScale -> MPlotAxisRange -> MPlotAxisRange) :
  (forall (t : MPlotDragZoomerTool.Tool) (s : AxisStore)
          (e1 e2 : QGraphicsSceneMouseEvent) (targets' : list nat) (a : nat),
      button e1 = LeftButton -> button e2 = RightButton ->
      MPlotDragZoomerTool.dragInProgress_ t = true ->
      List.NoDup (MPlotDragZoomerTool.targetAxes_ t) ->
      In a (MPlotDragZoomerTool.targetAxes_ t) -> In a targets' ->
      let w1 := MPlotDragZoomerTool.mouseReleaseEvent mapDrawingToDataRange e1 (t, s) in
      let w2 := MPlotDragZoomerTool.mouseReleaseEvent mapDrawingToDataRange e2
                  (MPlotDragZoomerTool.setTargetAxes targets' (fst w1), snd w1) in
      tail (MPlotDragZoomerTool.oldZooms_ (fst w1)) = MPlotDragZoomerTool.oldZooms_ t
      /\ length (MPlotDragZoomerTool.oldZooms_ (fst w1))
         = S (length (MPlotDragZoomerTool.oldZooms_ t))
      /\ MPlotDragZoomerTool.oldZooms_ (fst w2) = MPlotDragZoomerTool.oldZooms_ t
      /\ dataRange (snd w2 a) = dataRange (s a))
  /\ (forall (t : MPlotDragZoomerTool.Tool) (s : AxisStore)
             (e : QGraphicsSceneMouseEvent) (a : nat),
      button e = RightButton ->
      MPlotDragZoomerTool.dragInProgress_ t = false ->
      MPlotDragZoomerTool.oldZooms_ t = [] ->
      In a (MPlotDragZoomerTool.targetAxes_ t) ->
      let w' := MPlotDragZoomerTool.mouseReleaseEvent mapDrawingToDataRange e (t, s) in
      autoScaleEnabled (snd w' a) = true
      /\ MPlotDragZoomerTool.oldZooms_ (fst w') = []).
Proof.
  split.
  - intros t s e1 e2 targets' a Hb1 Hb2 Hd Hnd Hin Hin' w1 w2.
    subst w2 w1.
    rewrite (release_left_zoom mapDrawingToDataRange e1 t s Hb1 Hd).
    cbn [fst snd].
    destruct (zoom_loop_records mapDrawingToDataRange e1
                (MPlotDragZoomerTool.targetAxes_ t) [] s) as [zl (Hz & Hk & Hr)].
    rewrite app_nil_l in Hz. rewrite Hz.
    erewrite (release_right_pop mapDrawingToDataRange e2);
      [| exact Hb2 | reflexivity | reflexivity].
    cbn [fst snd MPlotDragZoomerTool.oldZooms_ MPlotDragZoomerTool.targetAxes_
         MPlotDragZoomerTool.setTargetAxes tail length].
    repeat split.
    apply restore_loop.
    + exact Hin'.
    + intros r Hr'. apply (Hr Hnd a r Hr').
    + left. rewrite Hk. exact Hin.
  - intros t s e a Hb Hd Hz Hin w'. subst w'.
    rewrite (release_right_empty mapDrawingToDataRange e t s Hb Hd Hz).
    cbn [fst snd]. split; [| exact Hz].
    apply setAutoScaleAll_target. left. exact Hin.
Qed.

(** C6.  A left-button press, then moves of the mouse that all stay within
    the rubber-band deadzone, then the release of the left button: the store
    of axis scales is the one the press found (so every target axis keeps
    its data range and its auto-scale-enabled state), and the zoom stack is
    unchanged.  The press finds no drag in progress, as is the case whenever
    the left button is up. *)
Theorem deadzone_click_changes_nothing
    (MPLOT_RUBBERBAND_DEADZONE : qreal)
    (mapDrawingToDataRange : MPlotAxisScale -> MPlotAxisRange -> MPlotAxisRange)
    (t : MPlotDragZoomerTool.Tool) (s : AxisStore)
    (press release : QGraphicsSceneMouseEvent)
    (moves : list QGraphicsSceneMouseEvent) :
  button press = LeftButton -> button release = LeftButton ->
  Forall (MPlotDragZoomerTool.within_deadzone MPLOT_RUBBERBAND_DEADZONE) moves ->
  MPlotDragZoomerTool.dragInProgress_ t = false ->
  let w' := MPlotDragZoomerTool.run MPLOT_RUBBERBAND_DEADZONE mapDrawingToDataRange
              (MPlotDragZoomerTool.Press press
                 :: map MPlotDragZoomerTool.Move moves
                 ++ [MPlotDragZoomerTool.Release release]) (t, s) in
  snd w' = s
  /\ (forall a, In a (MPlotDragZoomerTool.targetAxes_ t) ->
        dataRange (snd w' a) = dataRange (s a)
        /\ autoScaleEnabled (snd w' a) = autoScaleEnabled (s a))
  /\ MPlotDragZoomerTool.oldZooms_ (fst w') = MPlotDragZoomerTool.oldZooms_ t
  /\ MPlotDragZoomerTool.targetAxes_ (fst w') = MPlotDragZoomerTool.targetAxes_ t.
Proof.
  intros Hp Hr Hall Hd w'. subst w'.
  rewrite (click_within_deadzone MPLOT_RUBBERBAND_DEADZONE mapDrawingToDataRange
             t s press release moves Hp Hr Hall Hd).
  cbn [fst snd MPlotDragZoomerTool.oldZooms_ MPlotDragZoomerTool.targetAxes_].
  repeat split.
Qed.

(** The hypothesis of C6 holds after every history of the tool in which the
    left button is up: a click that follows such a history changes nothing. *)
Lemma deadzone_click_after_history
    (MPLOT_RUBBERBAND_DEADZONE : qreal)
    (mapDrawingToDataRange : MPlotAxisScale -> MPlotAxisRange -> MPlotAxisRange)
    (targets : list nat) (s0 : AxisStore)
    (history : list MPlotDragZoomerTool.Event)
    (press release : QGraphicsSceneMouseEvent)
    (moves : list QGraphicsSceneMouseEvent) :
  MPlotDragZoomerTool.buttons_ok false history ->
  MPlotDragZoomerTool.left_after false history = false ->
  button press = LeftButton -> button release = LeftButton ->
  Forall (MPlotDragZoomerTool.within_deadzone MPLOT_RUBBERBAND_DEADZONE) moves ->
  let w := MPlotDragZoomerTool.run MPLOT_RUBBERBAND_DEADZONE mapDrawingToDataRange
             history (MPlotDragZoomerTool.fresh targets, s0) in
  let w' := MPlotDragZoomerTool.run MPLOT_RUBBERBAND_DEADZONE mapDrawingToDataRange
              (MPlotDragZoomerTool.Press press
                 :: map MPlotDragZoomerTool.Move moves
                 ++ [MPlotDragZoomerTool.Release release]) w in
  snd w' = snd w
  /\ MPlotDragZoomerTool.oldZooms_ (fst w') = MPlotDragZoomerTool.oldZooms_ (fst w).
Proof.
  intros Hok Hup Hp Hr Hall w w'.
  assert (Hrest : MPlotDragZoomerTool.at_rest false (fst w)).
  { rewrite <- Hup. apply run_at_rest; [exact Hok |]. intros _. split; reflexivity. }
  destruct (Hrest eq_refl) as [_ Hd].
  subst w'. destruct w as [t s]. simpl in Hd.
  rewrite (click_within_deadzone MPLOT_RUBBERBAND_DEADZONE mapDrawingToDataRange
             t s press release moves Hp Hr Hall Hd).
  split; reflexivity.
Qed.

(** ** The plot selector *)

Section Selector.

Import MPlotPlotSelectorTool.

Variable MPLOT_SELECTION_BALLPARK : qreal.
Variable shapeIntersects : nat -> MPlotItem -> QRectF -> bool.

Local Abbreviation selectedPossibilities :=
  (selectedPossibilities MPLOT_SELECTION_BALLPARK shapeIntersects).
Local Abbreviation mousePressEvent :=
  (mousePressEvent MPLOT_SELECTION_BALLPARK shapeIntersects).
Local Abbreviation presses := (presses MPLOT_SELECTION_BALLPARK shapeIntersects).

Lemma only_tracked_at_most_one (w : World) :
  only_tracked w ->
  forall p q, selected (items w p) = true -> selected (items w q) = true -> p = q.
Proof.
  intros H p q Hp Hq. apply H in Hp. apply H in Hq. congruence.
Qed.

Lemma ptr_eqb_true (a : nat) (b : option nat) : ptr_eqb a b = true <-> b = Some a.
Proof.
  unfold ptr_eqb. destruct b as [y |]; [| split; discriminate].
  rewrite Nat.eqb_eq. split; intros H; congruence.
Qed.

Lemma possibilities_in_plot (event : QGraphicsSceneMouseEvent) (w : World) (s : nat) :
  In s (selectedPossibilities event w) ->
  In s (plotItems w) /\ selectable (items w s) = true
  /\ shapeIntersects s (items w s) (clickRegion MPLOT_SELECTION_BALLPARK event) = true.
Proof.
  unfold MPlotPlotSelectorTool.selectedPossibilities. rewrite filter_In.
  rewrite andb_true_iff. tauto.
Qed.

Lemma possibilities_count (event : QGraphicsSceneMouseEvent) (w : World) :
  count (selectedPossibilities event w) <= count (plotItems w).
Proof.
  unfold count, MPlotPlotSelectorTool.selectedPossibilities.
  apply inj_le. apply List.filter_length_le.
Qed.

(** The choice among the possibilities is defined, and is one of them. *)
Lemma choose_spec (poss : list nat) (sel : Z) :
  count poss <= INT_MAX ->
  (poss = [] /\ choose poss sel = Ret (None, sel))
  \/ (exists s, In s poss /\ choose poss sel = Ret (Some s, (sel + 1) mod UINT_MOD)).
Proof.
  intros Hfit. unfold choose. destruct poss as [| x poss'] eqn:E.
  - left. split; reflexivity.
  - right. rewrite <- E in *.
    assert (Hpos : 0 < count poss) by (rewrite E; unfold count; simpl; lia).
    replace (count poss >? 0) with true by (symmetry; apply Z.gtb_lt; exact Hpos).
    rewrite to_unsigned_small by (unfold INT_MAX, UINT_MOD in *; lia).
    destruct (at_defined poss (sel mod count poss)) as [s [Hs Hl]].
    { apply Z.mod_pos_bound. exact Hpos. }
    exists s. split.
    + apply list_elem_of_In. apply list_elem_of_lookup. eauto.
    + rewrite Hs. reflexivity.
Qed.

(** *** The two conditional blocks *)

Lemma selectNew_tracked (s : nat) (w : World) :
  only_tracked w -> only_tracked (selectNew (Some s) w).
Proof.
  intros Hinv. unfold selectNew.
  destruct (ptr_eqb s (selectedItem_ w)) eqn:E; simpl; [exact Hinv |].
  intros p Hp. simpl in *.
  destruct (Nat.eq_dec s p) as [-> | Hne]; [reflexivity |].
  rewrite store_insert_ne in Hp by exact Hne.
  destruct (selectedItem_ w) as [old |] eqn:Eo.
  - destruct (Nat.eq_dec old p) as [-> | Hne'].
    + rewrite store_insert_eq in Hp. simpl in Hp. discriminate.
    + rewrite store_insert_ne in Hp by exact Hne'.
      apply Hinv in Hp. congruence.
  - apply Hinv in Hp. congruence.
Qed.

Lemma deselectOld_tracked (w : World) :
  only_tracked w -> only_tracked (deselectOld None w).
Proof.
  intros Hinv. unfold deselectOld.
  destruct (selectedItem_ w) as [old |] eqn:Eo; [| exact Hinv].
  intros p Hp. simpl in *.
  destruct (Nat.eq_dec old p) as [-> | Hne].
  - rewrite store_insert_eq in Hp. simpl in Hp. discriminate.
  - rewrite store_insert_ne in Hp by exact Hne. apply Hinv in Hp. congruence.
Qed.

Lemma deselectOld_some (s : nat) (w : World) : deselectOld (Some s) w = w.
Proof. reflexivity. Qed.

(** A new item is chosen: the old one, if any, is deselected, then the new
    one is selected and announced. *)
Lemma selectNew_effect (s : nat) (w : World) :
  only_tracked w -> selectedItem_ w <> Some s ->
  let w' := selectNew (Some s) w in
  selectedItem_ w' = Some s
  /\ selected (items w' s) = true
  /\ (forall old, selectedItem_ w = Some old -> selected (items w' old) = false)
  /\ emitted w'
     = emitted w
       ++ match selectedItem_ w with
          | Some old => [setSelectedCall old false]
          | None => []
          end
       ++ [setSelectedCall s true; itemSelected s].
Proof.
  intros Hinv Hne w'. subst w'. unfold selectNew.
  destruct (ptr_eqb s (selectedItem_ w)) eqn:E.
  { apply ptr_eqb_true in E. congruence. }
  simpl. split; [reflexivity |]. split; [| split; [| reflexivity]].
  - rewrite store_insert_eq. reflexivity.
  - intros old Ho. rewrite Ho.
    assert (Hso : s <> old) by congruence.
    rewrite store_insert_ne by exact Hso.
    rewrite store_insert_eq. reflexivity.
Qed.

(** No item is chosen: the tracked item, if any, is deselected. *)
Lemma deselectOld_effect (w : World) :
  let w' := deselectOld None w in
  selectedItem_ w' = None
  /\ (forall old, selectedItem_ w = Some old ->
        selected (items w' old) = false
        /\ emitted w' = emitted w ++ [setSelectedCall old false; deselected]).
Proof.
  intros w'. subst w'. unfold deselectOld.
  destruct (selectedItem_ w) as [old |] eqn:Eo; simpl.
  - split; [reflexivity |]. intros old' Ho. inversion Ho; subst.
    rewrite store_insert_eq. split; reflexivity.
  - split; [exact Eo |]. intros old Ho. discriminate.
Qed.

(** *** One press *)

Lemma press_unfold (event : QGraphicsSceneMouseEvent) (w : World) (s : option nat) (n : Z) :
  choose (selectedPossibilities event w) (selIndex w) = Ret (s, n) ->
  mousePressEvent event w = Ret (deselectOld s (selectNew s (with_selIndex n w))).
Proof.
  intros H. unfold MPlotPlotSelectorTool.mousePressEvent. rewrite H. reflexivity.
Qed.

Lemma press_tracked (event : QGraphicsSceneMouseEvent) (w : World) :
  count (plotItems w) <= INT_MAX -> only_tracked w ->
  exists w', mousePressEvent event w = Ret w'
             /\ only_tracked w' /\ plotItems w' = plotItems w.
Proof.
  intros Hfit Hinv.
  assert (Hfit' : count (selectedPossibilities event w) <= INT_MAX).
  { pose proof (possibilities_count event w). lia. }
  destruct (choose_spec _ (selIndex w) Hfit') as [[_ Hc] | [s [_ Hc]]];
    rewrite (press_unfold event w _ _ Hc); eexists; (split; [reflexivity |]).
  - split.
    + apply deselectOld_tracked. exact Hinv.
    + simpl. unfold deselectOld. simpl. destruct (selectedItem_ w); reflexivity.
  - rewrite deselectOld_some. split.
    + apply selectNew_tracked. exact Hinv.
    + unfold selectNew. simpl. destruct (ptr_eqb s (selectedItem_ w)); reflexivity.
Qed.

(** Every run of presses is defined and keeps the invariant. *)
Lemma presses_tracked (events : list QGraphicsSceneMouseEvent) :
  forall w : World,
    count (plotItems w) <= INT_MAX -> only_tracked w ->
    exists w', presses events w = Ret w'
               /\ only_tracked w' /\ plotItems w' = plotItems w.
Proof.
  induction events as [| e events IH]; intros w Hfit Hinv.
  - exists w. repeat split. exact Hinv.
  - destruct (press_tracked e w Hfit Hinv) as [w1 (H1 & Hinv1 & Hp1)].
    destruct (IH w1) as [w' (H' & Hinv' & Hp')]; [rewrite Hp1; exact Hfit | exact Hinv1 |].
    exists w'. cbn [MPlotPlotSelectorTool.presses]. rewrite H1. simpl.
    split; [exact H' |]. split; [exact Hinv' | congruence].
Qed.

Lemma fresh_tracked (sel : Z) (its : list nat) (st : nat -> MPlotItem) :
  (forall p, selected (st p) = false) -> only_tracked (fresh sel its st).
Proof. intros H p Hp. simpl in Hp. rewrite H in Hp. discriminate. Qed.

End Selector.

(** C7.  After every mouse press handled by the selector tool, starting from
    a plot in which no item is selected, at most one plot item is selected,
    and it is [selectedItem()].  When the press chooses an item [s] other
    than the selected one, the old item (if any) is deselected, then [s] is
    selected and becomes [selectedItem()]; when the click intersects no
    selectable item, [selectedItem()] is [0] and the old item is
    deselected. *)
Theorem selector_press_keeps_one_selection
    (MPLOT_SELECTION_BALLPARK : qreal)
    (shapeIntersects : nat -> MPlotPlotSelectorTool.MPlotItem -> QRectF -> bool)
    (sel0 : Z) (its : list nat) (st : nat -> MPlotPlotSelectorTool.MPlotItem)
    (history : list QGraphicsSceneMouseEvent) (event : QGraphicsSceneMouseEvent) :
  (forall p, MPlotPlotSelectorTool.selected (st p) = false) ->
  count its <= INT_MAX ->
  exists w w',
    MPlotPlotSelectorTool.presses MPLOT_SELECTION_BALLPARK shapeIntersects history
      (MPlotPlotSelectorTool.fresh sel0 its st) = Ret w
    /\ MPlotPlotSelectorTool.mousePressEvent MPLOT_SELECTION_BALLPARK shapeIntersects
         event w = Ret w'
    /\ (forall p q,
          MPlotPlotSelectorTool.selected (MPlotPlotSelectorTool.items w' p) = true ->
          MPlotPlotSelectorTool.selected (MPlotPlotSelectorTool.items w' q) = true ->
          p = q)
    /\ (forall p,
          MPlotPlotSelectorTool.selected (MPlotPlotSelectorTool.items w' p) = true ->
          MPlotPlotSelectorTool.selectedItem w' = Some p)
    /\ (forall s n,
          MPlotPlotSelectorTool.choose
            (MPlotPlotSelectorTool.selectedPossibilities
               MPLOT_SELECTION_BALLPARK shapeIntersects event w)
            (MPlotPlotSelectorTool.selIndex w) = Ret (Some s, n) ->
          MPlotPlotSelectorTool.selectedItem w <> Some s ->
          MPlotPlotSelectorTool.selectedItem w' = Some s
          /\ MPlotPlotSelectorTool.selected (MPlotPlotSelectorTool.items w' s) = true
          /\ (forall old, MPlotPlotSelectorTool.selectedItem w = Some old ->
                MPlotPlotSelectorTool.selected (MPlotPlotSelectorTool.items w' old) = false
                /\ MPlotPlotSelectorTool.emitted w'
                   = MPlotPlotSelectorTool.emitted w
                     ++ [MPlotPlotSelectorTool.setSelectedCall old false;
                         MPlotPlotSelectorTool.setSelectedCall s true;
                         MPlotPlotSelectorTool.itemSelected s]))
    /\ (MPlotPlotSelectorTool.selectedPossibilities
          MPLOT_SELECTION_BALLPARK shapeIntersects event w = [] ->
        MPlotPlotSelectorTool.selectedItem w' = None
        /\ (forall old, MPlotPlotSelectorTool.selectedItem w = Some old ->
              MPlotPlotSelectorTool.selected (MPlotPlotSelectorTool.items w' old) = false)).
Proof.
  intros Hnone Hfit.
  destruct (presses_tracked MPLOT_SELECTION_BALLPARK shapeIntersects history
              (MPlotPlotSelectorTool.fresh sel0 its st) Hfit
              (fresh_tracked sel0 its st Hnone)) as [w (Hw & Hinv & Hitems)].
  assert (Hfit' : count (MPlotPlotSelectorTool.plotItems w) <= INT_MAX)
    by (rewrite Hitems; exact Hfit).
  destruct (press_tracked MPLOT_SELECTION_BALLPARK shapeIntersects event w Hfit' Hinv)
    as [w' (Hw' & Hinv' & _)].
  exists w, w'. split; [exact Hw |]. split; [exact Hw' |].
  split; [apply only_tracked_at_most_one; exact Hinv' |].
  split; [exact Hinv' |].
  split.
  - intros s n Hc Hne.
    rewrite (press_unfold _ _ event w _ _ Hc) in Hw'.
    rewrite deselectOld_some in Hw'. injection Hw' as Heq. subst w'.
    assert (Hinv0 : MPlotPlotSelectorTool.only_tracked
                      (MPlotPlotSelectorTool.with_selIndex n w)) by exact Hinv.
    pose proof (selectNew_effect s (MPlotPlotSelectorTool.with_selIndex n w) Hinv0 Hne)
      as (H1 & H2 & H3 & H4).
    split; [exact H1 |]. split; [exact H2 |].
    intros old Ho. split; [apply H3; exact Ho |].
    eapply eq_trans; [exact H4 |].
    unfold MPlotPlotSelectorTool.selectedItem in Ho.
    cbn [MPlotPlotSelectorTool.with_selIndex MPlotPlotSelectorTool.emitted
         MPlotPlotSelectorTool.selectedItem_].
    rewrite Ho. reflexivity.
  - intros Hempty.
    assert (Hc : MPlotPlotSelectorTool.choose
                   (MPlotPlotSelectorTool.selectedPossibilities
                      MPLOT_SELECTION_BALLPARK shapeIntersects event w)
                   (MPlotPlotSelectorTool.selIndex w)
                 = Ret (None, MPlotPlotSelectorTool.selIndex w))
      by (rewrite Hempty; reflexivity).
    rewrite (press_unfold _ _ event w _ _ Hc) in Hw'.
    injection Hw' as Heq. subst w'.
    pose proof (deselectOld_effect
                  (MPlotPlotSelectorTool.with_selIndex
                     (MPlotPlotSelectorTool.selIndex w) w)) as (H1 & H2).
    split; [exact H1 |].
    intros old Ho. apply (H2 old). exact Ho.
Qed.

(** ** The deferred autoscale *)

Section AutoScale.

Import MPlotAutoScale.

(** *** The bounding interval *)

Lemma widen_loop (rest : list (qreal * qreal)) :
  forall init : MPlotAxisRange,
    let r := fold_left widen rest init in
    ((rmin r <= rmin init)%Q /\ (rmax init <= rmax r)%Q)
    /\ (forall e, In e rest -> (rmin r <= fst e)%Q /\ (snd e <= rmax r)%Q).
Proof.
  induction rest as [| e0 rest IH]; intros init; simpl.
  - split; [split; apply Qle_refl | intros e []].
  - destruct (IH (widen init e0)) as [[Hlo Hhi] Hall]. simpl in Hlo, Hhi.
    pose proof (Q.le_min_l (rmin init) (fst e0)) as Hl1.
    pose proof (Q.le_min_r (rmin init) (fst e0)) as Hl2.
    pose proof (Q.le_max_l (rmax init) (snd e0)) as Hh1.
    pose proof (Q.le_max_r (rmax init) (snd e0)) as Hh2.
    split; [split |].
    + eapply Qle_trans; [exact Hlo | exact Hl1].
    + eapply Qle_trans; [exact Hh1 | exact Hhi].
    + intros e [<- | Hin]; [| apply Hall; exact Hin]. split.
      * eapply Qle_trans; [exact Hlo | exact Hl2].
      * eapply Qle_trans; [exact Hh2 | exact Hhi].
Qed.

Lemma hull_contains (es : list (qreal * qreal)) (r : MPlotAxisRange) :
  hull es = Some r ->
  forall e, In e es -> (rmin r <= fst e)%Q /\ (snd e <= rmax r)%Q.
Proof.
  destruct es as [| e0 rest]; simpl; [discriminate |].
  intros H. injection H as <-.
  destruct (widen_loop rest (mkRange (fst e0) (snd e0))) as [[Hlo Hhi] Hall].
  intros e [<- | Hin]; [split; assumption | apply Hall; exact Hin].
Qed.

Lemma hull_defined (es : list (qreal * qreal)) (e : qreal * qreal) :
  In e es -> exists r, hull es = Some r.
Proof. destruct es; simpl; [intros [] | eauto]. Qed.

Lemma extents_y (w : World) (a p : nat) :
  In p (items_ w) -> yAxisTarget (itemStore w p) = a ->
  In (top (dataRect (itemStore w p)), bottom (dataRect (itemStore w p))) (extents w a).
Proof.
  intros Hp Ha. unfold extents. apply in_flat_map. exists p. split; [exact Hp |].
  unfold extentsOn. rewrite Ha, Nat.eqb_refl. apply in_or_app. left. left. reflexivity.
Qed.

Lemma extents_x (w : World) (a p : nat) :
  In p (items_ w) -> xAxisTarget (itemStore w p) = a ->
  In (left (dataRect (itemStore w p)), right_ (dataRect (itemStore w p))) (extents w a).
Proof.
  intros Hp Ha. unfold extents. apply in_flat_map. exists p. split; [exact Hp |].
  unfold extentsOn. rewrite Ha, Nat.eqb_refl. apply in_or_app. right. left. reflexivity.
Qed.

(** *** The recomputation *)

Lemma autoScaleAxis_other (w : World) (s : AxisStore) (b a : nat) :
  b <> a -> autoScaleAxis w s b a = s a.
Proof.
  intros H. unfold autoScaleAxis.
  destruct (autoScaleEnabled (s b)); [| reflexivity].
  destruct (hull (extents w b)); [| reflexivity].
  apply store_insert_ne. exact H.
Qed.

Lemma recompute_loop (w : World) (a : nat) (r : MPlotAxisRange) :
  hull (extents w a) = Some r ->
  forall (l : list nat) (s : AxisStore),
    autoScaleEnabled (s a) = true ->
    In a l \/ dataRange (s a) = r ->
    dataRange (fold_left (autoScaleAxis w) l s a) = r
    /\ autoScaleEnabled (fold_left (autoScaleAxis w) l s a) = true.
Proof.
  intros Hh l. induction l as [| b l IH]; intros s Hen Hs; simpl.
  - destruct Hs as [[] | Hs]. split; assumption.
  - destruct (Nat.eq_dec b a) as [-> | Hne].
    + apply IH; unfold autoScaleAxis; rewrite Hen, Hh, store_insert_eq.
      * exact Hen.
      * right. reflexivity.
    + apply IH; rewrite autoScaleAxis_other by exact Hne.
      * exact Hen.
      * destruct Hs as [[Hb | Hin] | Hs]; [contradiction | left; exact Hin | right; exact Hs].
Qed.

Lemma doDelayedAutoScale_scheduled (w : World) :
  autoScaleScheduled_ w = true ->
  doDelayedAutoScale w
  = {| items_ := items_ w; axisScales_ := axisScales_ w;
       autoScaleScheduled_ := false; itemStore := itemStore w;
       scales := recompute w; queued := queued w;
       history := history w ++ [Recomputed] |}.
Proof. intros H. unfold doDelayedAutoScale. rewrite H. reflexivity. Qed.

Lemma doDelayedAutoScale_unscheduled (w : World) :
  autoScaleScheduled_ w = false -> doDelayedAutoScale w = w.
Proof. intros H. unfold doDelayedAutoScale. rewrite H. reflexivity. Qed.

(** *** Changes of bounds between two returns to the event loop *)

Lemma boundsChange_frame (w : World) (c : nat * QRectF) :
  let w' := boundsChange w c in
  scales w' = scales w /\ history w' = history w
  /\ items_ w' = items_ w /\ axisScales_ w' = axisScales_ w
  /\ (forall p, autoScaled w' p = autoScaled w p).
Proof.
  unfold boundsChange, onBoundsChanged, scheduleDelayedAutoScale.
  set (w0 := {| items_ := items_ w; axisScales_ := axisScales_ w;
                autoScaleScheduled_ := autoScaleScheduled_ w;
                itemStore := <[fst c := setDataRect (snd c) (itemStore w (fst c))]>
                               (itemStore w);
                scales := scales w; queued := queued w; history := history w |}).
  assert (Hsame : forall p, autoScaled w0 p = autoScaled w p).
  { intros p. unfold autoScaled. simpl.
    destruct (Nat.eq_dec (fst c) p) as [<- | Hne].
    - rewrite store_insert_eq. reflexivity.
    - rewrite store_insert_ne by exact Hne. reflexivity. }
  destruct (autoScaled w0 (fst c)); [destruct (autoScaleScheduled_ w0) |];
    repeat split; try exact Hsame.
Qed.

Lemma boundsChange_schedules (w : World) (c : nat * QRectF) :
  autoScaled w (fst c) = true ->
  let w' := boundsChange w c in
  autoScaleScheduled_ w' = true
  /\ queued w' = (if autoScaleScheduled_ w then queued w else S (queued w)).
Proof.
  intros Ha. unfold boundsChange, onBoundsChanged, scheduleDelayedAutoScale.
  match goal with |- context [autoScaled ?w0 (fst c)] =>
    assert (Ha0 : autoScaled w0 (fst c) = true) end.
  { rewrite <- Ha. unfold autoScaled. simpl. rewrite store_insert_eq. reflexivity. }
  rewrite Ha0. simpl. destruct (autoScaleScheduled_ w) eqn:E; simpl; split; auto.
Qed.

Lemma boundsChanges_deferred (cs : list (nat * QRectF)) :
  forall w : World,
    cs <> [] ->
    Forall (fun c => autoScaled w (fst c) = true) cs ->
    let w1 := boundsChanges cs w in
    scales w1 = scales w /\ history w1 = history w
    /\ items_ w1 = items_ w /\ axisScales_ w1 = axisScales_ w
    /\ autoScaleScheduled_ w1 = true
    /\ queued w1 = (if autoScaleScheduled_ w then queued w else S (queued w)).
Proof.
  unfold boundsChanges.
  induction cs as [| c cs IH]; intros w Hne Hall; [congruence |].
  inversion Hall as [| ? ? Hc Hcs]; subst. cbn [fold_left].
  destruct (boundsChange_frame w c) as (Hs & Hh & Hi & Hx & Hsame).
  destruct (boundsChange_schedules w c Hc) as (Hsch & Hq).
  destruct cs as [| c' cs'].
  - simpl. repeat split; assumption.
  - destruct (IH (boundsChange w c)) as (Hs' & Hh' & Hi' & Hx' & Hsch' & Hq').
    + discriminate.
    + eapply Forall_impl; [| exact Hcs]. intros x Hxa. simpl in *.
      rewrite Hsame. exact Hxa.
    + rewrite Hsch in Hq'.
      repeat split; try congruence.
Qed.

Lemma returnToEventLoop_pending (w : World) :
  autoScaleScheduled_ w = true -> queued w = 1%nat ->
  let w' := returnToEventLoop w in
  history w' = history w ++ [Recomputed; Painted]
  /\ scales w' = recompute w /\ idle w'.
Proof.
  intros Hs Hq. unfold returnToEventLoop, paint, dispatchQueued. rewrite Hq.
  cbn [Nat.iter nat_rect]. rewrite (doDelayedAutoScale_scheduled w Hs). simpl.
  rewrite <- app_assoc. repeat split.
Qed.

Lemma returnToEventLoop_done (w : World) :
  autoScaleScheduled_ w = false ->
  let w' := returnToEventLoop w in
  history w' = history w ++ [Painted] /\ scales w' = scales w /\ idle w'.
Proof.
  intros Hs. unfold returnToEventLoop, paint, dispatchQueued.
  assert (Hit : Nat.iter (queued w) doDelayedAutoScale w = w).
  { induction (queued w) as [| n IH]; simpl; [reflexivity |].
    rewrite IH. apply doDelayedAutoScale_unscheduled. exact Hs. }
  rewrite Hit. simpl. repeat split. exact Hs.
Qed.

(** Whatever the changes of bounds, on axis scales with or without
    auto-scaling: nothing is recomputed before the return to the event loop,
    and at most once then. *)
Lemma boundsChange_consistent (w : World) (c : nat * QRectF) :
  consistent w -> consistent (boundsChange w c).
Proof.
  intros Hc. unfold boundsChange, onBoundsChanged, scheduleDelayedAutoScale.
  match goal with |- context [autoScaled ?w0 (fst c)] => destruct (autoScaled w0 (fst c)) end;
    cbn [autoScaleScheduled_].
  - destruct Hc as [[Hs Hq] | [Hs Hq]]; rewrite Hs.
    + left. split; [reflexivity | exact Hq].
    + left. split; [reflexivity |]. cbn [queued]. rewrite Hq. reflexivity.
  - destruct Hc as [[Hs Hq] | [Hs Hq]]; [left | right]; split; assumption.
Qed.

Lemma boundsChanges_consistent (cs : list (nat * QRectF)) :
  forall w : World,
    consistent w ->
    let w1 := boundsChanges cs w in
    consistent w1 /\ scales w1 = scales w /\ history w1 = history w.
Proof.
  unfold boundsChanges. induction cs as [| c cs IH]; intros w Hc; cbn [fold_left].
  - repeat split. exact Hc.
  - destruct (boundsChange_frame w c) as (Hs & Hh & _).
    destruct (IH (boundsChange w c) (boundsChange_consistent w c Hc)) as (Hc' & Hs' & Hh').
    split; [exact Hc' |]. split; congruence.
Qed.

Lemma autoscale_at_most_once (cs : list (nat * QRectF)) (w : World) :
  idle w ->
  let w1 := boundsChanges cs w in
  let w2 := returnToEventLoop w1 in
  scales w1 = scales w /\ history w1 = history w
  /\ (history w2 = history w ++ [Recomputed; Painted]
      \/ history w2 = history w ++ [Painted])
  /\ idle w2.
Proof.
  intros Hidle w1 w2.
  destruct (boundsChanges_consistent cs w (or_intror Hidle)) as (Hc & Hs & Hh).
  fold w1 in Hc, Hs, Hh. split; [exact Hs |]. split; [exact Hh |].
  destruct Hc as [[Hsch Hq] | [Hsch Hq]].
  - destruct (returnToEventLoop_pending w1 Hsch Hq) as (H1 & _ & H3).
    split; [left; rewrite <- Hh; exact H1 | exact H3].
  - destruct (returnToEventLoop_done w1 Hsch) as (H1 & _ & H3).
    split; [right; rewrite <- Hh; exact H1 | exact H3].
Qed.

End AutoScale.

(** C3.  With auto-scaling enabled, one or more changes of item bounds
    between two returns to the event loop recompute nothing themselves: the
    axis scales and the history are as before, and one recomputation is
    pending.  The return to the event loop then performs exactly one
    recomputation, right before the plot is painted.  A call of
    [doDelayedAutoScale()] performs the pending recomputation at once, and
    the return to the event loop that follows does not repeat it. *)
Theorem autoscale_is_deferred_and_done_once
    (w : MPlotAutoScale.World) (cs : list (nat * QRectF)) :
  MPlotAutoScale.idle w ->
  cs <> [] ->
  Forall (fun c => MPlotAutoScale.autoScaled w (fst c) = true) cs ->
  let w1 := MPlotAutoScale.boundsChanges cs w in
  (MPlotAutoScale.scales w1 = MPlotAutoScale.scales w
   /\ MPlotAutoScale.history w1 = MPlotAutoScale.history w
   /\ MPlotAutoScale.autoScaleScheduled_ w1 = true
   /\ MPlotAutoScale.queued w1 = 1%nat)
  /\ (let w2 := MPlotAutoScale.returnToEventLoop w1 in
      MPlotAutoScale.history w2
      = MPlotAutoScale.history w ++ [MPlotAutoScale.Recomputed; MPlotAutoScale.Painted]
      /\ MPlotAutoScale.scales w2 = MPlotAutoScale.recompute w1
      /\ MPlotAutoScale.idle w2)
  /\ (let w3 := MPlotAutoScale.doDelayedAutoScale w1 in
      MPlotAutoScale.history w3
      = MPlotAutoScale.history w ++ [MPlotAutoScale.Recomputed]
      /\ MPlotAutoScale.scales w3 = MPlotAutoScale.recompute w1
      /\ MPlotAutoScale.autoScaleScheduled_ w3 = false
      /\ MPlotAutoScale.history (MPlotAutoScale.returnToEventLoop w3)
         = MPlotAutoScale.history w
           ++ [MPlotAutoScale.Recomputed; MPlotAutoScale.Painted]
      /\ MPlotAutoScale.scales (MPlotAutoScale.returnToEventLoop w3)
         = MPlotAutoScale.recompute w1).
Proof.
  intros [Hidle Hq0] Hne Hall w1.
  destruct (boundsChanges_deferred cs w Hne Hall) as (Hs & Hh & _ & _ & Hsch & Hq).
  fold w1 in Hs, Hh, Hsch, Hq. rewrite Hidle, Hq0 in Hq. clearbody w1.
  split; [repeat split; assumption |]. split.
  - destruct (returnToEventLoop_pending w1 Hsch Hq) as (H1 & H2 & H3).
    rewrite Hh in H1. repeat split; try assumption; apply H3.
  - intros w3. subst w3. rewrite (doDelayedAutoScale_scheduled w1 Hsch).
    cbn [MPlotAutoScale.history MPlotAutoScale.scales MPlotAutoScale.autoScaleScheduled_].
    rewrite Hh. repeat split.
    + match goal with |- context [MPlotAutoScale.returnToEventLoop ?x] =>
        destruct (returnToEventLoop_done x eq_refl) as (H1 & _ & _) end.
      rewrite H1. simpl. rewrite <- app_assoc. reflexivity.
    + match goal with |- context [MPlotAutoScale.returnToEventLoop ?x] =>
        destruct (returnToEventLoop_done x eq_refl) as (_ & H2 & _) end.
      rewrite H2. reflexivity.
Qed.

(** C4.  After the autoscale recomputation has run, an axis scale of the plot
    with auto-scaling enabled has a data range that contains the data
    rectangle of every plot item targeted at it: the vertical extent of the
    items it is the y target of, the horizontal extent of the items it is
    the x target of. *)
Theorem autoscale_range_contains_items
    (w : MPlotAutoScale.World) (a p : nat) :
  MPlotAutoScale.autoScaleScheduled_ w = true ->
  In a (MPlotAutoScale.axisScales_ w) ->
  autoScaleEnabled (MPlotAutoScale.scales w a) = true ->
  In p (MPlotAutoScale.items_ w) ->
  let w' := MPlotAutoScale.doDelayedAutoScale w in
  let r := dataRange (MPlotAutoScale.scales w' a) in
  let box := MPlotAutoScale.dataRect (MPlotAutoScale.itemStore w p) in
  (MPlotAutoScale.yAxisTarget (MPlotAutoScale.itemStore w p) = a ->
   (rmin r <= top box)%Q /\ (bottom box <= rmax r)%Q)
  /\ (MPlotAutoScale.xAxisTarget (MPlotAutoScale.itemStore w p) = a ->
      (rmin r <= left box)%Q /\ (right_ box <= rmax r)%Q).
Proof.
  intros Hsch Ha Hen Hp w' r box. subst r w'.
  rewrite (doDelayedAutoScale_scheduled w Hsch).
  cbn [MPlotAutoScale.scales]. unfold MPlotAutoScale.recompute.
  split; intros Ht.
  - pose proof (extents_y w a p Hp Ht) as Hin.
    destruct (hull_defined _ _ Hin) as [r Hr].
    destruct (recompute_loop w a r Hr (MPlotAutoScale.axisScales_ w)
                (MPlotAutoScale.scales w) Hen (or_introl Ha)) as [Hrange _].
    rewrite Hrange. apply (hull_contains _ r Hr _ Hin).
  - pose proof (extents_x w a p Hp Ht) as Hin.
    destruct (hull_defined _ _ Hin) as [r Hr].
    destruct (recompute_loop w a r Hr (MPlotAutoScale.axisScales_ w)
                (MPlotAutoScale.scales w) Hen (or_introl Ha)) as [Hrange _].
    rewrite Hrange. apply (hull_contains _ r Hr _ Hin).
Qed.

(** ** The real-time model: tracked extremes *)

Lemma valueAt_lookup (l : list qreal) (i : Z) (v : qreal) :
  0 <= i -> l !! Z.to_nat i = Some v -> MPlotRealtimeModel.valueAt l i = v.
Proof.
  intros Hi Hl. unfold MPlotRealtimeModel.valueAt.
  replace (i <? 0) with false by (symmetry; apply Z.ltb_ge; exact Hi).
  rewrite Hl. reflexivity.
Qed.

Lemma count_app_one {A} (l : list A) (x : A) : count (l ++ [x]) = count l + 1.
Proof. unfold count. rewrite length_app. simpl. lia. Qed.

Lemma count_pos_nonempty {A} (l : list A) : l <> [] <-> 0 < count l.
Proof.
  unfold count. destruct l; simpl; split; intros H; try congruence; lia.
Qed.

Section Extremes.

Import MPlotRealtimeModel.

(** The comparison [better] of the code and the order [le] it decides. *)
Variable better : qreal -> qreal -> bool.
Variable le : qreal -> qreal -> Prop.
Hypothesis better_true : forall a b, better a b = true -> le a b.
Hypothesis better_false : forall a b, better a b = false -> le b a.
Hypothesis le_refl : forall a, le a a.
Hypothesis le_trans : forall a b c, le a b -> le b c -> le a c.
Hypothesis le_antisym : forall a b, le a b -> le b a -> (a == b)%Q.

Lemma Forall_le_trans (a b : qreal) (l : list qreal) :
  le a b -> Forall (le b) l -> Forall (le a) l.
Proof using le_trans.
  intros Hab. apply Forall_impl. intros w Hw. exact (le_trans _ _ _ Hab Hw).
Qed.

(** *** The linear searches *)

Lemma searchLoop_spec (rest : list qreal) :
  forall (pre : list qreal) (i mi : Z) (vmi : qreal),
    i = count pre -> 0 <= mi ->
    pre !! Z.to_nat mi = Some vmi -> Forall (le vmi) pre ->
    is_extreme_index le (pre ++ rest) (searchLoop better rest i mi vmi).
Proof using better_true better_false le_refl le_trans.
  induction rest as [| v rest IH]; intros pre i mi vmi Hi Hmi Hl Hall; simpl.
  - rewrite app_nil_r. split; [exact Hmi |]. exists vmi. split; assumption.
  - replace (pre ++ v :: rest) with ((pre ++ [v]) ++ rest)
      by (rewrite <- app_assoc; reflexivity).
    pose proof (count_nonneg pre) as Hc.
    destruct (better v vmi) eqn:E.
    + apply IH.
      * rewrite count_app_one. lia.
      * lia.
      * subst i. unfold count. rewrite Nat2Z.id. apply list_lookup_middle. reflexivity.
      * apply Forall_app. split.
        -- apply (Forall_le_trans v vmi); [apply better_true; exact E | exact Hall].
        -- constructor; [apply le_refl | constructor].
    + apply IH.
      * rewrite count_app_one. lia.
      * exact Hmi.
      * apply lookup_app_l_Some. exact Hl.
      * apply Forall_app. split; [exact Hall |].
        constructor; [apply better_false; exact E | constructor].
Qed.

Lemma searchIndex_spec (l : list qreal) :
  l <> [] -> is_extreme_index le l (searchIndex better l).
Proof using better_true better_false le_refl le_trans.
  destruct l as [| v rest]; [congruence |]. intros _. unfold searchIndex.
  apply (searchLoop_spec rest [v] 1 0 v); try reflexivity.
  constructor; [apply le_refl | constructor].
Qed.

Lemma searchExtreme_loop (rest : list qreal) :
  forall (pre : list qreal) (v : qreal),
    In v pre -> Forall (le v) pre ->
    let r := fold_left (fun extreme d => if better d extreme then d else extreme) rest v in
    In r (pre ++ rest) /\ Forall (le r) (pre ++ rest).
Proof using better_true better_false le_refl le_trans.
  induction rest as [| d rest IH]; intros pre v Hin Hall; simpl.
  - rewrite app_nil_r. split; assumption.
  - replace (pre ++ d :: rest) with ((pre ++ [d]) ++ rest)
      by (rewrite <- app_assoc; reflexivity).
    destruct (better d v) eqn:E; apply IH.
    + apply in_or_app. right. left. reflexivity.
    + apply Forall_app. split.
      * apply (Forall_le_trans d v); [apply better_true; exact E | exact Hall].
      * constructor; [apply le_refl | constructor].
    + apply in_or_app. left. exact Hin.
    + apply Forall_app. split; [exact Hall |].
      constructor; [apply better_false; exact E | constructor].
Qed.

Lemma searchExtreme_spec (l : list qreal) :
  l <> [] -> In (searchExtreme better l) l /\ Forall (le (searchExtreme better l)) l.
Proof using better_true better_false le_refl le_trans.
  destruct l as [| v rest]; [congruence |]. intros _. unfold searchExtreme.
  apply (searchExtreme_loop rest [v] v).
  - left. reflexivity.
  - constructor; [apply le_refl | constructor].
Qed.

(** The element at a tracked index is the one the linear search finds. *)
Lemma tracked_value_is_searched (l : list qreal) (i : Z) :
  l <> [] -> is_extreme_index le l i ->
  (valueAt l i == searchExtreme better l)%Q.
Proof using better_true better_false le_refl le_trans le_antisym.
  intros Hne [Hi [v [Hl Hall]]].
  rewrite (valueAt_lookup l i v Hi Hl).
  destruct (searchExtreme_spec l Hne) as [Hin Hall'].
  apply le_antisym.
  - rewrite List.Forall_forall in Hall. apply Hall. exact Hin.
  - rewrite List.Forall_forall in Hall'. apply Hall'.
    apply list_elem_of_In. apply list_elem_of_lookup. eauto.
Qed.

(** *** One record under each operation *)

Lemma single_extreme (x : qreal) : is_extreme_index le [x] 0.
Proof using le_refl.
  split; [lia |]. exists x. split; [reflexivity |].
  constructor; [apply le_refl | constructor].
Qed.

Lemma addCheck_front (l : list qreal) (x : qreal) (i : Z) :
  is_extreme_index le l i ->
  is_extreme_index le (x :: l) (addCheck better (x :: l) x 0 (i + 1)).
Proof using better_true better_false le_refl le_trans.
  intros [Hi [v [Hl Hall]]]. unfold addCheck.
  assert (Hl' : (x :: l) !! Z.to_nat (i + 1) = Some v).
  { replace (Z.to_nat (i + 1)) with (S (Z.to_nat i)) by lia. exact Hl. }
  assert (Hi1 : 0 <= i + 1) by lia.
  rewrite (valueAt_lookup _ _ _ Hi1 Hl').
  destruct (better x v) eqn:E.
  - split; [lia |]. exists x. split; [reflexivity |].
    constructor; [apply le_refl |].
    apply (Forall_le_trans x v); [apply better_true; exact E | exact Hall].
  - split; [lia |]. exists v. split; [exact Hl' |].
    constructor; [apply better_false; exact E | exact Hall].
Qed.

Lemma addCheck_back (l : list qreal) (x : qreal) (i : Z) :
  is_extreme_index le l i ->
  is_extreme_index le (l ++ [x]) (addCheck better (l ++ [x]) x (count l) i).
Proof using better_true better_false le_refl le_trans.
  intros [Hi [v [Hl Hall]]]. unfold addCheck.
  assert (Hl' : (l ++ [x]) !! Z.to_nat i = Some v) by (apply lookup_app_l_Some; exact Hl).
  rewrite (valueAt_lookup _ _ _ Hi Hl').
  destruct (better x v) eqn:E.
  - split; [apply count_nonneg |]. exists x. split.
    + unfold count. rewrite Nat2Z.id. apply list_lookup_middle. reflexivity.
    + apply Forall_app. split.
      * apply (Forall_le_trans x v); [apply better_true; exact E | exact Hall].
      * constructor; [apply le_refl | constructor].
  - split; [exact Hi |]. exists v. split; [exact Hl' |].
    apply Forall_app. split; [exact Hall |].
    constructor; [apply better_false; exact E | constructor].
Qed.

Lemma afterFront_spec (x : qreal) (l : list qreal) (i : Z) :
  l <> [] -> is_extreme_index le (x :: l) i ->
  is_extreme_index le l (afterFront better l i).
Proof using better_true better_false le_refl le_trans.
  intros Hne [Hi [v [Hl Hall]]]. unfold afterFront.
  destruct (i =? 0) eqn:E.
  - apply searchIndex_spec. exact Hne.
  - apply Z.eqb_neq in E. split; [lia |]. exists v. split.
    + replace (Z.to_nat i) with (S (Z.to_nat (i - 1))) in Hl by lia. exact Hl.
    + inversion Hall; assumption.
Qed.

Lemma afterBack_spec (x : qreal) (l : list qreal) (i : Z) :
  l <> [] -> is_extreme_index le (l ++ [x]) i ->
  is_extreme_index le l (afterBack better l i).
Proof using better_true better_false le_refl le_trans.
  intros Hne [Hi [v [Hl Hall]]]. unfold afterBack.
  destruct (i =? count l) eqn:E.
  - apply searchIndex_spec. exact Hne.
  - apply Z.eqb_neq in E. split; [exact Hi |]. exists v. split.
    + pose proof (lookup_lt_Some _ _ _ Hl) as Hlt.
      rewrite length_app in Hlt. simpl in Hlt.
      rewrite lookup_app_l in Hl; [exact Hl |]. unfold count in E. lia.
    + apply Forall_app in Hall. tauto.
Qed.

Lemma changeCheck_spec (l : list qreal) (newVal : qreal) (index cur : Z) :
  0 <= index < count l -> is_extreme_index le l cur ->
  is_extreme_index le (<[Z.to_nat index := newVal]> l)
    (changeCheck better l (<[Z.to_nat index := newVal]> l) newVal index cur).
Proof using better_true better_false le_refl le_trans.
  intros Hidx [Hi [v [Hl Hall]]]. unfold changeCheck.
  assert (Hlt : (Z.to_nat index < length l)%nat) by (unfold count in Hidx; lia).
  destruct (index =? cur) eqn:E.
  - apply Z.eqb_eq in E. subst cur.
    rewrite (valueAt_lookup l index v Hi Hl).
    destruct (better v newVal) eqn:B.
    + apply searchIndex_spec. intros Hnil.
      apply (f_equal length) in Hnil. rewrite length_insert in Hnil.
      simpl in Hnil. lia.
    + split; [exact Hi |]. exists newVal. split.
      * apply list_lookup_insert_eq. exact Hlt.
      * apply Forall_insert; [| apply le_refl].
        apply (Forall_le_trans newVal v); [apply better_false; exact B | exact Hall].
  - apply Z.eqb_neq in E.
    rewrite (valueAt_lookup l cur v Hi Hl).
    destruct (better newVal v) eqn:B.
    + split; [lia |]. exists newVal. split.
      * apply list_lookup_insert_eq. exact Hlt.
      * apply Forall_insert; [| apply le_refl].
        apply (Forall_le_trans newVal v); [apply better_true; exact B | exact Hall].
    + split; [exact Hi |]. exists v. split.
      * rewrite list_lookup_insert_ne by lia. exact Hl.
      * apply Forall_insert; [exact Hall | apply better_false; exact B].
Qed.

End Extremes.

(** *** Minimum and maximum *)

Lemma qlt_true_le (a b : qreal) : qlt a b = true -> (a <= b)%Q.
Proof. intros H. apply Qlt_le_weak. apply qlt_true_iff. exact H. Qed.

Lemma qlt_false_le (a b : qreal) : qlt a b = false -> (b <= a)%Q.
Proof. apply qlt_false_iff. Qed.

Lemma qgt_true_ge (a b : qreal) : qgt a b = true -> (b <= a)%Q.
Proof. unfold qgt. apply qlt_true_le. Qed.

Lemma qgt_false_ge (a b : qreal) : qgt a b = false -> (a <= b)%Q.
Proof. unfold qgt. apply qlt_false_le. Qed.

Lemma Qge_trans (a b c : qreal) : (b <= a)%Q -> (c <= b)%Q -> (c <= a)%Q.
Proof. intros H1 H2. exact (Qle_trans _ _ _ H2 H1). Qed.

Lemma Qge_antisym (a b : qreal) : (b <= a)%Q -> (a <= b)%Q -> (a == b)%Q.
Proof. intros H1 H2. apply Qle_antisym; assumption. Qed.

Ltac split4 := split; [| split; [| split]].

Ltac as_minimum L :=
  exact (L qlt (fun v w => (v <= w)%Q) qlt_true_le qlt_false_le Qle_refl Qle_trans).
Ltac as_maximum L :=
  exact (L qgt (fun v w => (w <= v)%Q) qgt_true_ge qgt_false_ge Qle_refl Qge_trans).

Section RealtimeModel.

Import MPlotRealtimeModel.

Lemma min_single (x : qreal) : is_min_index [x] 0.
Proof. exact (single_extreme (fun v w => (v <= w)%Q) Qle_refl x). Qed.

Lemma max_single (x : qreal) : is_max_index [x] 0.
Proof. exact (single_extreme (fun v w => (w <= v)%Q) Qle_refl x). Qed.

Lemma min_addCheck_front (l : list qreal) (x : qreal) (i : Z) :
  is_min_index l i -> is_min_index (x :: l) (addCheck qlt (x :: l) x 0 (i + 1)).
Proof. revert l x i. as_minimum addCheck_front. Qed.

Lemma max_addCheck_front (l : list qreal) (x : qreal) (i : Z) :
  is_max_index l i -> is_max_index (x :: l) (addCheck qgt (x :: l) x 0 (i + 1)).
Proof. revert l x i. as_maximum addCheck_front. Qed.

Lemma min_addCheck_back (l : list qreal) (x : qreal) (i : Z) :
  is_min_index l i -> is_min_index (l ++ [x]) (addCheck qlt (l ++ [x]) x (count l) i).
Proof. revert l x i. as_minimum addCheck_back. Qed.

Lemma max_addCheck_back (l : list qreal) (x : qreal) (i : Z) :
  is_max_index l i -> is_max_index (l ++ [x]) (addCheck qgt (l ++ [x]) x (count l) i).
Proof. revert l x i. as_maximum addCheck_back. Qed.

Lemma min_afterFront (x : qreal) (l : list qreal) (i : Z) :
  l <> [] -> is_min_index (x :: l) i -> is_min_index l (afterFront qlt l i).
Proof. revert x l i. as_minimum afterFront_spec. Qed.

Lemma max_afterFront (x : qreal) (l : list qreal) (i : Z) :
  l <> [] -> is_max_index (x :: l) i -> is_max_index l (afterFront qgt l i).
Proof. revert x l i. as_maximum afterFront_spec. Qed.

Lemma min_afterBack (x : qreal) (l : list qreal) (i : Z) :
  l <> [] -> is_min_index (l ++ [x]) i -> is_min_index l (afterBack qlt l i).
Proof. revert x l i. as_minimum afterBack_spec. Qed.

Lemma max_afterBack (x : qreal) (l : list qreal) (i : Z) :
  l <> [] -> is_max_index (l ++ [x]) i -> is_max_index l (afterBack qgt l i).
Proof. revert x l i. as_maximum afterBack_spec. Qed.

Lemma min_changeCheck (l : list qreal) (newVal : qreal) (index cur : Z) :
  0 <= index < count l -> is_min_index l cur ->
  is_min_index (<[Z.to_nat index := newVal]> l)
    (changeCheck qlt l (<[Z.to_nat index := newVal]> l) newVal index cur).
Proof. revert l newVal index cur. as_minimum changeCheck_spec. Qed.

Lemma max_changeCheck (l : list qreal) (newVal : qreal) (index cur : Z) :
  0 <= index < count l -> is_max_index l cur ->
  is_max_index (<[Z.to_nat index := newVal]> l)
    (changeCheck qgt l (<[Z.to_nat index := newVal]> l) newVal index cur).
Proof. revert l newVal index cur. as_maximum changeCheck_spec. Qed.

Lemma min_value_is_searched (l : list qreal) (i : Z) :
  l <> [] -> is_min_index l i -> (valueAt l i == searchMin l)%Q.
Proof.
  exact (tracked_value_is_searched qlt (fun v w => (v <= w)%Q)
           qlt_true_le qlt_false_le Qle_refl Qle_trans Qle_antisym l i).
Qed.

Lemma max_value_is_searched (l : list qreal) (i : Z) :
  l <> [] -> is_max_index l i -> (valueAt l i == searchMax l)%Q.
Proof.
  exact (tracked_value_is_searched qgt (fun v w => (w <= v)%Q)
           qgt_true_ge qgt_false_ge Qle_refl Qge_trans Qge_antisym l i).
Qed.

(** *** The operations keep the indexes on the extremes *)

Lemma length_zero_nil {A} (l : list A) : length l = 0%nat -> l = [].
Proof. destruct l; [reflexivity | discriminate]. Qed.

Lemma tracked_empty : tracked empty.
Proof. split; [reflexivity | intros H; exfalso; apply H; reflexivity]. Qed.

Lemma tracked_insertPointFront (x y : qreal) (m : t) :
  tracked m -> tracked (insertPointFront x y m).
Proof.
  intros [Hlen Hidx]. unfold insertPointFront, minMaxAddCheck.
  cbn [xval_ yval_ minXIndex_ maxXIndex_ minYIndex_ maxYIndex_].
  destruct (xval_ m) as [| x0 xs] eqn:Ex.
  - assert (Ey : yval_ m = []) by (apply length_zero_nil; rewrite <- Hlen; reflexivity).
    rewrite Ey. simpl. split; [reflexivity |]. intros _.
    split4; first [apply min_single | apply max_single].
  - assert (Hne : x0 :: xs <> []) by discriminate.
    destruct (Hidx Hne) as (H1 & H2 & H3 & H4).
    replace (count (x :: x0 :: xs) =? 1) with false
      by (symmetry; apply Z.eqb_neq; unfold count; simpl; lia).
    split; [simpl in *; lia |]. intros _. cbn [xval_ yval_ minXIndex_ maxXIndex_
                                               minYIndex_ maxYIndex_].
    split4;
      first [apply min_addCheck_front | apply max_addCheck_front]; assumption.
Qed.

Lemma tracked_insertPointBack (x y : qreal) (m : t) :
  tracked m -> tracked (insertPointBack x y m).
Proof.
  intros [Hlen Hidx]. unfold insertPointBack, minMaxAddCheck.
  cbn [xval_ yval_ minXIndex_ maxXIndex_ minYIndex_ maxYIndex_].
  destruct (xval_ m) as [| x0 xs] eqn:Ex.
  - assert (Ey : yval_ m = []) by (apply length_zero_nil; rewrite <- Hlen; reflexivity).
    rewrite Ey. simpl. split; [reflexivity |]. intros _.
    split4; first [apply min_single | apply max_single].
  - assert (Hne : x0 :: xs <> []) by discriminate.
    destruct (Hidx Hne) as (H1 & H2 & H3 & H4).
    assert (Hc : count (x0 :: xs) = count (yval_ m)) by (unfold count; rewrite Hlen; reflexivity).
    replace (count ((x0 :: xs) ++ [x]) =? 1) with false
      by (symmetry; apply Z.eqb_neq; unfold count; simpl; rewrite length_app; simpl; lia).
    split; [cbn [xval_ yval_]; rewrite !length_app, Hlen; reflexivity |]. intros _.
    cbn [xval_ yval_ minXIndex_ maxXIndex_ minYIndex_ maxYIndex_].
    split4;
      first [ apply min_addCheck_back; assumption
            | apply max_addCheck_back; assumption
            | rewrite Hc; apply min_addCheck_back; assumption
            | rewrite Hc; apply max_addCheck_back; assumption ].
Qed.

Lemma tracked_removePointFront (m : t) :
  tracked m -> tracked (fst (removePointFront m)).
Proof.
  intros [Hlen Hidx]. unfold removePointFront.
  destruct (xval_ m) as [| x0 xs] eqn:Ex;
    [cbn [fst]; split; rewrite ?Ex; assumption |].
  destruct (yval_ m) as [| y0 ys] eqn:Ey; [discriminate |].
  simpl in Hlen. injection Hlen as Hlen.
  cbn [fst xval_ yval_ minXIndex_ maxXIndex_ minYIndex_ maxYIndex_ tail].
  split; [exact Hlen |]. intros Hne.
  assert (Hney : ys <> []).
  { intros ->. apply Hne. apply length_zero_nil. exact Hlen. }
  destruct (Hidx ltac:(discriminate)) as (H1 & H2 & H3 & H4).
  split4.
  - apply (min_afterFront x0); assumption.
  - apply (max_afterFront x0); assumption.
  - apply (min_afterFront y0); assumption.
  - apply (max_afterFront y0); assumption.
Qed.

Lemma removelast_snoc {A} (l : list A) (a : A) : removelast (l ++ [a]) = l.
Proof. apply removelast_last. Qed.

Lemma tracked_removePointBack (m : t) :
  tracked m -> tracked (fst (removePointBack m)).
Proof.
  intros [Hlen Hidx]. unfold removePointBack.
  destruct (xval_ m) as [| x0 xs0] eqn:Ex;
    [cbn [fst]; split; rewrite ?Ex; assumption |].
  rewrite <- Ex in *.
  assert (Hnx : xval_ m <> []) by (rewrite Ex; discriminate).
  assert (Hny : yval_ m <> []).
  { intros E. rewrite E, Ex in Hlen. discriminate. }
  destruct (exists_last Hnx) as [xs [xl Hx]].
  destruct (exists_last Hny) as [ys [yl Hy]].
  destruct (Hidx Hnx) as (H1 & H2 & H3 & H4).
  rewrite Hx in H1, H2. rewrite Hy in H3, H4.
  rewrite Hx, Hy in Hlen. rewrite !length_app in Hlen. simpl in Hlen.
  cbn [fst xval_ yval_ minXIndex_ maxXIndex_ minYIndex_ maxYIndex_].
  rewrite Hx, Hy, !removelast_snoc.
  split; [cbn [xval_ yval_]; lia |]. cbn [xval_ yval_ minXIndex_ maxXIndex_
                                          minYIndex_ maxYIndex_]. intros Hne.
  assert (Hney : ys <> []).
  { intros ->. apply Hne. apply length_zero_nil. simpl in Hlen. lia. }
  split4.
  - apply (min_afterBack xl); assumption.
  - apply (max_afterBack xl); assumption.
  - apply (min_afterBack yl); assumption.
  - apply (max_afterBack yl); assumption.
Qed.

Lemma tracked_setData (row column : Z) (value : qreal) (m : t) :
  tracked m -> tracked (fst (setData row column value m)).
Proof.
  intros [Hlen Hidx]. unfold setData.
  destruct ((0 <=? row) && (row <? count (xval_ m))) eqn:Hr; [| split; assumption].
  apply andb_true_iff in Hr. destruct Hr as [Hr0 Hr1].
  apply Z.leb_le in Hr0. apply Z.ltb_lt in Hr1.
  assert (Hnx : xval_ m <> []) by (apply count_pos_nonempty; lia).
  destruct (Hidx Hnx) as (H1 & H2 & H3 & H4).
  assert (Hry : 0 <= row < count (yval_ m)) by (unfold count in *; rewrite <- Hlen; lia).
  destruct (column =? 0); [| destruct (column =? 1); [| split; assumption]].
  - unfold minMaxChangeCheckX. cbn [fst xval_ yval_ minXIndex_ maxXIndex_
                                     minYIndex_ maxYIndex_].
    split; [cbn [xval_ yval_]; rewrite length_insert; exact Hlen |].
    cbn [xval_ yval_ minXIndex_ maxXIndex_ minYIndex_ maxYIndex_]. intros _.
    split4; try assumption.
    + apply min_changeCheck; [lia | assumption].
    + apply max_changeCheck; [lia | assumption].
  - unfold minMaxChangeCheckY. cbn [fst xval_ yval_ minXIndex_ maxXIndex_
                                     minYIndex_ maxYIndex_].
    split; [cbn [xval_ yval_]; rewrite length_insert; exact Hlen |].
    cbn [xval_ yval_ minXIndex_ maxXIndex_ minYIndex_ maxYIndex_]. intros _.
    split4; try assumption.
    + apply min_changeCheck; assumption.
    + apply max_changeCheck; assumption.
Qed.

Lemma tracked_run (ops : list Op) :
  forall m : t, tracked m -> tracked (run ops m).
Proof.
  unfold run. induction ops as [| op ops IH]; intros m Hm; [exact Hm |].
  cbn [fold_left]. apply IH. destruct op; cbn [apply].
  - apply tracked_insertPointFront. exact Hm.
  - apply tracked_insertPointBack. exact Hm.
  - apply tracked_removePointFront. exact Hm.
  - apply tracked_removePointBack. exact Hm.
  - apply tracked_setData. exact Hm.
Qed.

(** With the indexes on the extremes, the constant-time rectangle is the
    searched one. *)
Lemma tracked_boundingRect (m : t) :
  tracked m -> count_ m > 0 -> QRectF_eq (boundingRect m) (searchBoundingRect m).
Proof.
  intros [Hlen Hidx] Hpos. unfold boundingRect, searchBoundingRect.
  replace (count_ m =? 0) with false by (symmetry; apply Z.eqb_neq; lia).
  assert (Hnx : xval_ m <> []) by (apply count_pos_nonempty; unfold count_ in Hpos; lia).
  assert (Hny : yval_ m <> []).
  { intros E. apply Hnx. apply length_zero_nil. rewrite Hlen, E. reflexivity. }
  destruct (Hidx Hnx) as (H1 & H2 & H3 & H4).
  pose proof (min_value_is_searched _ _ Hnx H1) as E1.
  pose proof (max_value_is_searched _ _ Hnx H2) as E2.
  pose proof (min_value_is_searched _ _ Hny H3) as E3.
  pose proof (max_value_is_searched _ _ Hny H4) as E4.
  unfold QRectF_eq, minX, maxX, minY, maxY. simpl.
  split4; try assumption.
  - rewrite E1, E2. reflexivity.
  - rewrite E3, E4. reflexivity.
Qed.

End RealtimeModel.

(** C1.  After every sequence of [insertPointFront], [insertPointBack],
    [removePointFront], [removePointBack] and [setData] on a real-time model,
    the tracked indexes [minXIndex_], [maxXIndex_], [minYIndex_],
    [maxYIndex_] are the places of a least and a greatest stored value, and
    whenever [count() > 0] the rectangle [boundingRect()] returns is
    [QRectF(minX, minY, maxX-minX, maxY-minY)] as the linear search over all
    stored points computes it. *)
Theorem realtime_extremes_match_linear_search (ops : list MPlotRealtimeModel.Op) :
  let m := MPlotRealtimeModel.run ops MPlotRealtimeModel.empty in
  MPlotRealtimeModel.tracked m
  /\ (MPlotRealtimeModel.count_ m > 0 ->
      QRectF_eq (MPlotRealtimeModel.boundingRect m)
                (MPlotRealtimeModel.searchBoundingRect m)).
Proof.
  intros m.
  assert (Hm : MPlotRealtimeModel.tracked m)
    by (apply tracked_run; apply tracked_empty).
  split; [exact Hm | apply tracked_boundingRect; exact Hm].
Qed.

(** * The theorems at concrete inputs *)

Lemma int_max_fits_small (n : Z) : 0 <= n <= 1000 -> n <= INT_MAX.
Proof. unfold INT_MAX. lia. Qed.

(** C10 at the sample plot: index 2 is past the two items and the one axis
    scale, and within the three axes; the cursor tool holds no cursor. *)
Lemma index_accessors_witness :
  is_int 2
  /\ MPlotAccessors.lists_fit Samples.plot
  /\ MPlotAccessors.item Samples.plot 2 = Ret None
  /\ MPlotAccessors.axisScale Samples.plot 2 = Ret None
  /\ defined (MPlotAccessors.axis Samples.plot 2)
  /\ MPlotCursorTool.value Samples.cursorTool 0 = Ret (mkPoint 0%Q 0%Q)
  /\ MPlotCursorTool.cursor Samples.cursorTool 0 = Ret None.
Proof.
  assert (Hi : is_int 2) by (unfold is_int, INT_MIN, INT_MAX; lia).
  assert (Hf : MPlotAccessors.lists_fit Samples.plot)
    by (unfold MPlotAccessors.lists_fit, count, INT_MAX; simpl; lia).
  assert (Hc : 0 <= 0 < UINT_MOD) by (unfold UINT_MOD; lia).
  destruct (index_accessors_total_and_null Samples.plot Samples.cursorTool 2 0 Hi Hf Hc)
    as ((_ & Hd & _) & H1 & _ & H3 & H4).
  split; [exact Hi |]. split; [exact Hf |].
  split; [apply H1; unfold count; simpl; lia |].
  split; [apply H3; unfold count; simpl; lia |].
  split; [exact Hd |].
  apply H4. apply Z.leb_le. reflexivity.
Defined.

(** C8 at the sample data, two points: vectors of sizes 1 and 2 are refused,
    index 5 is refused, index 1 is written. *)
Lemma vector_setters_witness :
  MPlotVectorSeriesData.setValues [5%Q] [6%Q; 7%Q] Samples.vectorData
  = (Samples.vectorData, false)
  /\ MPlotVectorSeriesData.setValues [5%Q] [6%Q] Samples.vectorData
     = (MPlotVectorSeriesData.mkVec [5%Q] [6%Q], true)
  /\ MPlotVectorSeriesData.setXValue 5 9%Q Samples.vectorData
     = (Samples.vectorData, false)
  /\ MPlotVectorSeriesData.setYValue 1 9%Q Samples.vectorData
     = (MPlotVectorSeriesData.mkVec [1%Q; 2%Q] [3%Q; 9%Q], true).
Proof.
  destruct (vector_setters_guarded Samples.vectorData [5%Q] [6%Q; 7%Q] 5 9%Q)
    as (H1 & _ & H3 & _).
  destruct (vector_setters_guarded Samples.vectorData [5%Q] [6%Q] 1 9%Q)
    as (_ & H2 & _ & _ & _ & H6).
  split; [apply H1; simpl; lia |].
  split; [apply H2; reflexivity |].
  split; [apply H3; unfold count; simpl; lia |].
  apply H6. unfold count. simpl. lia.
Defined.

(** C3 at the sample plot: the bounds of its item change twice. *)
Lemma autoscale_deferred_witness :
  MPlotAutoScale.idle (Samples.autoScalePlot false)
  /\ (let w := Samples.autoScalePlot false in
      let w1 := MPlotAutoScale.boundsChanges
                  [(0%nat, mkRect 0%Q 0%Q 2%Q 3%Q); (0%nat, mkRect 1%Q 1%Q 5%Q 5%Q)] w in
      MPlotAutoScale.scales w1 = MPlotAutoScale.scales w
      /\ MPlotAutoScale.history w1 = []
      /\ MPlotAutoScale.queued w1 = 1%nat
      /\ MPlotAutoScale.history (MPlotAutoScale.returnToEventLoop w1)
         = [MPlotAutoScale.Recomputed; MPlotAutoScale.Painted]
      /\ MPlotAutoScale.history
           (MPlotAutoScale.returnToEventLoop (MPlotAutoScale.doDelayedAutoScale w1))
         = [MPlotAutoScale.Recomputed; MPlotAutoScale.Painted]).
Proof.
  assert (Hidle : MPlotAutoScale.idle (Samples.autoScalePlot false))
    by (split; reflexivity).
  split; [exact Hidle |].
  destruct (autoscale_is_deferred_and_done_once (Samples.autoScalePlot false)
              [(0%nat, mkRect 0%Q 0%Q 2%Q 3%Q); (0%nat, mkRect 1%Q 1%Q 5%Q 5%Q)]
              Hidle ltac:(discriminate)
              ltac:(repeat constructor))
    as ((H1 & H2 & _ & H4) & (H5 & _) & (_ & _ & _ & H6 & _)).
  repeat split; assumption.
Defined.

(** C4 at the sample plot, with a recomputation pending: the item's box
    [0, 1] x [0, 1] lies in the recomputed ranges of both axis scales. *)
Lemma autoscale_range_witness :
  MPlotAutoScale.autoScaleScheduled_ (Samples.autoScalePlot true) = true
  /\ (let w' := MPlotAutoScale.doDelayedAutoScale (Samples.autoScalePlot true) in
      (rmin (dataRange (MPlotAutoScale.scales w' 0%nat)) <= 0)%Q
      /\ (0 + 1 <= rmax (dataRange (MPlotAutoScale.scales w' 0%nat)))%Q
      /\ (rmin (dataRange (MPlotAutoScale.scales w' 1%nat)) <= 0)%Q
      /\ (0 + 1 <= rmax (dataRange (MPlotAutoScale.scales w' 1%nat)))%Q).
Proof.
  split; [reflexivity |].
  destruct (autoscale_range_contains_items (Samples.autoScalePlot true) 0%nat 0%nat
              eq_refl ltac:(left; reflexivity) eq_refl ltac:(left; reflexivity))
    as [_ Hx].
  destruct (autoscale_range_contains_items (Samples.autoScalePlot true) 1%nat 0%nat
              eq_refl ltac:(right; left; reflexivity) eq_refl ltac:(left; reflexivity))
    as [Hy _].
  destruct (Hx eq_refl) as [Hx1 Hx2]. destruct (Hy eq_refl) as [Hy1 Hy2].
  repeat split; assumption.
Defined.

(** C5 does not hold during a drag.  While a drag is in progress, a
    right-button release with an empty zoom stack leaves auto-scaling
    disabled on the target axes ([0] is one of them) and changes nothing;
    and after a completed drag-zoom, a right-button release that arrives
    during the next drag pops nothing and restores nothing: axis scale [0]
    still shows the zoomed range [0, 3], not [0, 10]. *)
Lemma right_release_during_drag_keeps_autoscale_off :
  (button (Samples.mouse RightButton 3 4) = RightButton
   /\ MPlotDragZoomerTool.oldZooms_ Samples.dragging = []
   /\ In 0%nat (MPlotDragZoomerTool.targetAxes_ Samples.dragging)
   /\ autoScaleEnabled (Samples.axes false 0%nat) = false
   /\ MPlotDragZoomerTool.mouseReleaseEvent Samples.mapDrawingToDataRange
        (Samples.mouse RightButton 3 4) (Samples.dragging, Samples.axes false)
      = (Samples.dragging, Samples.axes false)
   /\ autoScaleEnabled
        (snd (MPlotDragZoomerTool.mouseReleaseEvent Samples.mapDrawingToDataRange
                (Samples.mouse RightButton 3 4) (Samples.dragging, Samples.axes false))
             0%nat)
      = false)
  /\ (let w := MPlotDragZoomerTool.run 3 Samples.mapDrawingToDataRange
                 [MPlotDragZoomerTool.Press (Samples.mouse LeftButton 0 0);
                  MPlotDragZoomerTool.Move (Samples.mouse NoButton 30 40);
                  MPlotDragZoomerTool.Release (Samples.mouse LeftButton 30 40);
                  MPlotDragZoomerTool.Press (Samples.mouse LeftButton 0 0);
                  MPlotDragZoomerTool.Move (Samples.mouse NoButton 30 40);
                  MPlotDragZoomerTool.Release (Samples.mouse RightButton 30 40)]
                 (MPlotDragZoomerTool.fresh [0%nat; 1%nat], Samples.axes true) in
      MPlotDragZoomerTool.dragInProgress_ (fst w) = true
      /\ length (MPlotDragZoomerTool.oldZooms_ (fst w)) = 1%nat
      /\ (axis_max (snd w 0%nat) == 3)%Q
      /\ ~ (axis_max (snd w 0%nat) == 10)%Q).
Proof.
  split.
  - repeat split; try reflexivity. left. reflexivity.
  - split; [reflexivity |]. split; [reflexivity |]. split; [reflexivity |].
    intros H. vm_compute in H. discriminate H.
Qed.

(** C5 at the sample zoomer: the drag from (0,0) to (3,4) is completed, axis
    scale 1 is dropped from the targets, and the right-button release brings
    axis scale 0 back to the range it had; on a fresh tool the right-button
    release turns auto-scaling on. *)
Lemma drag_zoom_recall_witness :
  (let w1 := MPlotDragZoomerTool.mouseReleaseEvent Samples.mapDrawingToDataRange
               (Samples.mouse LeftButton 3 4) (Samples.dragging, Samples.axes false) in
   let w2 := MPlotDragZoomerTool.mouseReleaseEvent Samples.mapDrawingToDataRange
               (Samples.mouse RightButton 3 4)
               (MPlotDragZoomerTool.setTargetAxes [0%nat] (fst w1), snd w1) in
   length (MPlotDragZoomerTool.oldZooms_ (fst w1)) = 1%nat
   /\ MPlotDragZoomerTool.oldZooms_ (fst w2) = []
   /\ dataRange (snd w2 0%nat) = mkRange 0%Q 10%Q)
  /\ autoScaleEnabled
       (snd (MPlotDragZoomerTool.mouseReleaseEvent Samples.mapDrawingToDataRange
               (Samples.mouse RightButton 3 4)
               (MPlotDragZoomerTool.fresh [0%nat; 1%nat], Samples.axes false))
            1%nat)
     = true.
Proof.
  destruct (drag_zoom_recall_is_lifo Samples.mapDrawingToDataRange) as [Hzoom Hauto].
  split.
  - assert (Hnd : List.NoDup (MPlotDragZoomerTool.targetAxes_ Samples.dragging)).
    { simpl. repeat constructor; simpl; intuition discriminate. }
    destruct (Hzoom Samples.dragging (Samples.axes false)
                (Samples.mouse LeftButton 3 4) (Samples.mouse RightButton 3 4)
                [0%nat] 0%nat eq_refl eq_refl eq_refl Hnd
                ltac:(left; reflexivity) ltac:(left; reflexivity))
      as (_ & H2 & H3 & H4).
    split; [exact H2 |]. split; [exact H3 | exact H4].
  - apply (Hauto (MPlotDragZoomerTool.fresh [0%nat; 1%nat]) (Samples.axes false)
             (Samples.mouse RightButton 3 4) 1%nat eq_refl eq_refl eq_refl).
    right. left. reflexivity.
Defined.

(** C6 at a fresh tool: press, a move of Manhattan length 2 within a deadzone
    of 3, release. *)
Lemma deadzone_click_witness :
  MPlotDragZoomerTool.within_deadzone 3 (Samples.mouse NoButton 1 1)
  /\ (let w' := MPlotDragZoomerTool.run 3 Samples.mapDrawingToDataRange
                  [MPlotDragZoomerTool.Press (Samples.mouse LeftButton 0 0);
                   MPlotDragZoomerTool.Move (Samples.mouse NoButton 1 1);
                   MPlotDragZoomerTool.Release (Samples.mouse LeftButton 1 1)]
                  (MPlotDragZoomerTool.fresh [0%nat; 1%nat], Samples.axes true) in
      snd w' = Samples.axes true
      /\ MPlotDragZoomerTool.oldZooms_ (fst w') = []).
Proof.
  assert (Hw : MPlotDragZoomerTool.within_deadzone 3 (Samples.mouse NoButton 1 1)).
  { unfold MPlotDragZoomerTool.within_deadzone. apply Qle_bool_imp_le. reflexivity. }
  split; [exact Hw |].
  destruct (deadzone_click_changes_nothing 3 Samples.mapDrawingToDataRange
              (MPlotDragZoomerTool.fresh [0%nat; 1%nat]) (Samples.axes true)
              (Samples.mouse LeftButton 0 0) (Samples.mouse LeftButton 1 1)
              [Samples.mouse NoButton 1 1] eq_refl eq_refl
              ltac:(repeat constructor; exact Hw) eq_refl)
    as (H1 & _ & H2 & _).
  split; [exact H1 | exact H2].
Defined.

(** C7 at the sample plot: three presses over item 0. *)
Lemma selector_press_witness :
  (forall p, MPlotPlotSelectorTool.selected (Samples.selectorItems p) = false)
  /\ count [0%nat; 1%nat] <= INT_MAX
  /\ exists w w',
       MPlotPlotSelectorTool.presses 1 Samples.hitsItem0
         [Samples.mouse LeftButton 1 1; Samples.mouse LeftButton 1 1]
         (MPlotPlotSelectorTool.fresh 0 [0%nat; 1%nat] Samples.selectorItems) = Ret w
       /\ MPlotPlotSelectorTool.mousePressEvent 1 Samples.hitsItem0
            (Samples.mouse LeftButton 1 1) w = Ret w'
       /\ (forall p q,
             MPlotPlotSelectorTool.selected (MPlotPlotSelectorTool.items w' p) = true ->
             MPlotPlotSelectorTool.selected (MPlotPlotSelectorTool.items w' q) = true ->
             p = q)
       /\ (forall p,
             MPlotPlotSelectorTool.selected (MPlotPlotSelectorTool.items w' p) = true ->
             MPlotPlotSelectorTool.selectedItem w' = Some p).
Proof.
  assert (Hnone : forall p,
             MPlotPlotSelectorTool.selected (Samples.selectorItems p) = false)
    by (intros p; reflexivity).
  assert (Hfit : count [0%nat; 1%nat] <= INT_MAX)
    by (apply int_max_fits_small; unfold count; simpl; lia).
  split; [exact Hnone |]. split; [exact Hfit |].
  destruct (selector_press_keeps_one_selection 1 Samples.hitsItem0 0 [0%nat; 1%nat]
              Samples.selectorItems
              [Samples.mouse LeftButton 1 1; Samples.mouse LeftButton 1 1]
              (Samples.mouse LeftButton 1 1) Hnone Hfit)
    as (w & w' & Hw & Hw' & Hone & Htracked & _).
  exists w, w'. repeat split; assumption.
Defined.

(** * Further properties of the code *)

(** ** [MPlot]: looking up by pointer and by name *)

Section MoreAccessors.

Import MPlotAccessors.

Lemma indexOf_from_found (l : list nat) (a : nat) :
  forall from : Z,
    In a l ->
    exists k : nat,
      indexOf_from l a from = from + Z.of_nat k
      /\ l !! k = Some a
      /\ (forall j, (j < k)%nat -> l !! j <> Some a).
Proof.
  induction l as [| x l IH]; intros from Hin; [destruct Hin |].
  cbn [indexOf_from]. destruct (Nat.eqb x a) eqn:E.
  - apply Nat.eqb_eq in E. subst x. exists 0%nat.
    split; [lia |]. split; [reflexivity |]. intros j Hj. lia.
  - apply Nat.eqb_neq in E. destruct Hin as [Hx | Hin]; [congruence |].
    destruct (IH (from + 1) Hin) as [k (Hk & Hl & Hfirst)].
    exists (S k). split; [lia |]. split; [exact Hl |].
    intros [| j] Hj; simpl; [congruence | apply Hfirst; lia].
Qed.

Lemma indexOf_from_absent (l : list nat) (a : nat) :
  forall from : Z, ~ In a l -> indexOf_from l a from = -1.
Proof.
  induction l as [| x l IH]; intros from Hn; [reflexivity |].
  cbn [indexOf_from]. destruct (Nat.eqb x a) eqn:E.
  - apply Nat.eqb_eq in E. subst x. exfalso. apply Hn. left. reflexivity.
  - apply IH. intros Hin. apply Hn. right. exact Hin.
Qed.

(** In a list without repetition the first occurrence is the only one. *)
Lemma indexOf_of_lookup (l : list nat) (a : nat) (i : nat) :
  List.NoDup l -> l !! i = Some a -> indexOf l a = Z.of_nat i.
Proof.
  intros Hnd Hl. unfold indexOf.
  assert (Hin : In a l).
  { apply list_elem_of_In. apply list_elem_of_lookup. eauto. }
  destruct (indexOf_from_found l a 0 Hin) as [k (Hk & Hlk & _)].
  rewrite Hk.
  assert (k = i); [| lia].
  apply NoDup_ListNoDup in Hnd.
  eapply NoDup_lookup; eauto.
Qed.

(** A list read at the index of a pointer: the pointer when the list holds
    it, the null pointer otherwise. *)
Lemma guarded_read_at_indexOf (l : list nat) (a : nat) :
  count l <= INT_MAX ->
  (In a l ->
   0 <= indexOf l a < count l /\ l !! Z.to_nat (indexOf l a) = Some a)
  /\ (~ In a l -> indexOf l a = -1).
Proof.
  intros Hfit. split.
  - intros Hin. destruct (indexOf_from_found l a 0 Hin) as [k (Hk & Hl & _)].
    unfold indexOf. rewrite Hk.
    pose proof (lookup_lt_Some _ _ _ Hl) as Hlt.
    split; [unfold count; lia |].
    replace (Z.to_nat (0 + Z.of_nat k)) with k by lia. exact Hl.
  - apply indexOf_from_absent.
Qed.

Lemma is_int_of_index {A} (l : list A) (i : Z) :
  count l <= INT_MAX -> 0 <= i < count l -> is_int i.
Proof. intros Hfit Hi. unfold is_int, INT_MIN, INT_MAX in *. lia. Qed.

Lemma is_int_minus_one : is_int (-1).
Proof. unfold is_int, INT_MIN, INT_MAX. lia. Qed.

Lemma axisScaleNamed_spec (p : MPlot) (which : StandardAxis) :
  count (axisScales_ p) <= INT_MAX ->
  (StandardAxis_value which < count (axisScales_ p) ->
   defined (axisScaleNamed p which)
   /\ axisScaleNamed p which = axisScale p (StandardAxis_value which))
  /\ (count (axisScales_ p) <= StandardAxis_value which ->
      axisScaleNamed p which = Undefined
      /\ axisScale p (StandardAxis_value which) = Ret None).
Proof.
  intros Hfit.
  assert (H0 : 0 <= StandardAxis_value which <= 5) by (destruct which; simpl; lia).
  assert (Hint : is_int (StandardAxis_value which))
    by (unfold is_int, INT_MIN, INT_MAX; lia).
  split.
  - intros Hlt.
    destruct (axisScale_in_range p _ Hint Hfit) as [a [Ha Hl]]; [lia |].
    destruct (at_defined (axisScales_ p) (StandardAxis_value which)) as [b [Hb Hlb]]; [lia |].
    assert (b = a) by congruence. subst b.
    unfold axisScaleNamed. rewrite Hb, Ha. split; [eexists |]; reflexivity.
  - intros Hge. split.
    + unfold axisScaleNamed, at_.
      replace (StandardAxis_value which <? count (axisScales_ p)) with false
        by (symmetry; apply Z.ltb_ge; exact Hge).
      rewrite andb_false_r. reflexivity.
    + apply axisScale_out_of_range; [exact Hint | exact Hfit | lia].
Qed.

Lemma axisNamed_spec (p : MPlot) (which : StandardAxis) :
  count (axes_ p) <= INT_MAX ->
  (StandardAxis_value which < count (axes_ p) ->
   defined (axisNamed p which)
   /\ axisNamed p which = axis p (StandardAxis_value which))
  /\ (count (axes_ p) <= StandardAxis_value which ->
      axisNamed p which = Undefined
      /\ axis p (StandardAxis_value which) = Ret None).
Proof.
  intros Hfit.
  assert (H0 : 0 <= StandardAxis_value which <= 5) by (destruct which; simpl; lia).
  assert (Hint : is_int (StandardAxis_value which))
    by (unfold is_int, INT_MIN, INT_MAX; lia).
  split.
  - intros Hlt.
    destruct (axis_in_range p _ Hint Hfit) as [a [Ha Hl]]; [lia |].
    destruct (at_defined (axes_ p) (StandardAxis_value which)) as [b [Hb Hlb]]; [lia |].
    assert (b = a) by congruence. subst b.
    unfold axisNamed. rewrite Hb, Ha. split; [eexists |]; reflexivity.
  - intros Hge. split.
    + unfold axisNamed, at_.
      replace (StandardAxis_value which <? count (axes_ p)) with false
        by (symmetry; apply Z.ltb_ge; exact Hge).
      rewrite andb_false_r. reflexivity.
    + apply axis_out_of_range; [exact Hint | exact Hfit | lia].
Qed.

End MoreAccessors.

(** X1.  [axisScale(indexOfAxisScale(s))] is [s] when [s] is one of the
    plot's axis scales and the null pointer when it is not ([indexOf] answers
    [-1], which the unsigned guard of [axisScale] rejects); likewise for
    [axis] and [indexOfAxis].  Conversely, when the axis scales are distinct,
    [indexOfAxisScale] of what [axisScale(i)] returns is [i]. *)
Theorem axis_lookup_round_trip (p : MPlotAccessors.MPlot) (a : nat) (i : Z) :
  MPlotAccessors.lists_fit p ->
  (In a (MPlotAccessors.axisScales_ p) ->
   MPlotAccessors.axisScale p (MPlotAccessors.indexOfAxisScale p a) = Ret (Some a))
  /\ (~ In a (MPlotAccessors.axisScales_ p) ->
      MPlotAccessors.indexOfAxisScale p a = -1
      /\ MPlotAccessors.axisScale p (MPlotAccessors.indexOfAxisScale p a) = Ret None)
  /\ (In a (MPlotAccessors.axes_ p) ->
      MPlotAccessors.axis p (MPlotAccessors.indexOfAxis p a) = Ret (Some a))
  /\ (~ In a (MPlotAccessors.axes_ p) ->
      MPlotAccessors.indexOfAxis p a = -1
      /\ MPlotAccessors.axis p (MPlotAccessors.indexOfAxis p a) = Ret None)
  /\ (List.NoDup (MPlotAccessors.axisScales_ p) ->
      MPlotAccessors.axisScale p i = Ret (Some a) ->
      is_int i ->
      MPlotAccessors.indexOfAxisScale p a = i).
Proof.
  intros (_ & Hf2 & Hf3).
  destruct (guarded_read_at_indexOf (MPlotAccessors.axisScales_ p) a Hf3) as [Hs1 Hs2].
  destruct (guarded_read_at_indexOf (MPlotAccessors.axes_ p) a Hf2) as [Ha1 Ha2].
  split; [| split; [| split; [| split]]].
  - intros Hin. destruct (Hs1 Hin) as [Hr Hl].
    destruct (axisScale_in_range p _ (is_int_of_index _ _ Hf3 Hr) Hf3 Hr) as [b [Hb Hlb]].
    unfold MPlotAccessors.indexOfAxisScale. rewrite Hb. congruence.
  - intros Hn. unfold MPlotAccessors.indexOfAxisScale. rewrite (Hs2 Hn).
    split; [reflexivity |].
    apply axisScale_out_of_range; [apply is_int_minus_one | exact Hf3 | lia].
  - intros Hin. destruct (Ha1 Hin) as [Hr Hl].
    destruct (axis_in_range p _ (is_int_of_index _ _ Hf2 Hr) Hf2 Hr) as [b [Hb Hlb]].
    unfold MPlotAccessors.indexOfAxis. rewrite Hb. congruence.
  - intros Hn. unfold MPlotAccessors.indexOfAxis. rewrite (Ha2 Hn).
    split; [reflexivity |].
    apply axis_out_of_range; [apply is_int_minus_one | exact Hf2 | lia].
  - intros Hnd Hi Hint.
    destruct (Z_lt_dec i 0) as [Hneg | Hpos];
      [rewrite axisScale_out_of_range in Hi by (assumption || lia); discriminate |].
    destruct (Z_lt_dec i (count (MPlotAccessors.axisScales_ p))) as [Hlt | Hge];
      [| rewrite axisScale_out_of_range in Hi by (assumption || lia); discriminate].
    destruct (axisScale_in_range p i Hint Hf3) as [b [Hb Hlb]]; [lia |].
    rewrite Hb in Hi. injection Hi as ->.
    unfold MPlotAccessors.indexOfAxisScale.
    rewrite (indexOf_of_lookup _ _ _ Hnd Hlb). lia.
Qed.

(** X2.  An accessor by name ([axisLeft()] ... [axisTop()],
    [axisScaleLeft()] ... [axisScaleVerticalRelative()]) returns what the
    indexed accessor returns at the enumerator whenever the plot has that many
    axes or axis scales; on a plot with fewer it is undefined (an unguarded
    [at]), where the indexed accessor returns the null pointer. *)
Theorem named_accessors_agree_with_indexed
    (p : MPlotAccessors.MPlot) (which : MPlotAccessors.StandardAxis) :
  MPlotAccessors.lists_fit p ->
  ((MPlotAccessors.StandardAxis_value which < count (MPlotAccessors.axisScales_ p) ->
    defined (MPlotAccessors.axisScaleNamed p which)
    /\ MPlotAccessors.axisScaleNamed p which
       = MPlotAccessors.axisScale p (MPlotAccessors.StandardAxis_value which))
   /\ (count (MPlotAccessors.axisScales_ p) <= MPlotAccessors.StandardAxis_value which ->
       MPlotAccessors.axisScaleNamed p which = Undefined
       /\ MPlotAccessors.axisScale p (MPlotAccessors.StandardAxis_value which) = Ret None))
  /\ ((MPlotAccessors.StandardAxis_value which < count (MPlotAccessors.axes_ p) ->
       defined (MPlotAccessors.axisNamed p which)
       /\ MPlotAccessors.axisNamed p which
          = MPlotAccessors.axis p (MPlotAccessors.StandardAxis_value which))
      /\ (count (MPlotAccessors.axes_ p) <= MPlotAccessors.StandardAxis_value which ->
          MPlotAccessors.axisNamed p which = Undefined
          /\ MPlotAccessors.axis p (MPlotAccessors.StandardAxis_value which) = Ret None)).
Proof.
  intros (_ & Hf2 & Hf3).
  split; [apply axisScaleNamed_spec | apply axisNamed_spec]; assumption.
Qed.

(** [margin(which)] reads a four-element array at the enumerator: it
    is defined exactly for [Left], [Bottom], [Right] and [Top], where it
    agrees with [marginLeft()] ... [marginTop()]; for [VerticalRelative] and
    [HorizontalRelative] the read is past the end of [margins_]. *)
Theorem margin_defined_for_four_sides
    (margins_ : MPlotAccessors.Margins) (which : MPlotAccessors.StandardAxis) :
  (defined (MPlotAccessors.margin margins_ which)
   <-> MPlotAccessors.StandardAxis_value which < 4)
  /\ MPlotAccessors.margin margins_ MPlotAccessors.Left
     = Ret (MPlotAccessors.marginLeft margins_)
  /\ MPlotAccessors.margin margins_ MPlotAccessors.Bottom
     = Ret (MPlotAccessors.marginBottom margins_)
  /\ MPlotAccessors.margin margins_ MPlotAccessors.Right
     = Ret (MPlotAccessors.marginRight margins_)
  /\ MPlotAccessors.margin margins_ MPlotAccessors.Top
     = Ret (MPlotAccessors.marginTop margins_)
  /\ MPlotAccessors.margin margins_ MPlotAccessors.VerticalRelative = Undefined
  /\ MPlotAccessors.margin margins_ MPlotAccessors.HorizontalRelative = Undefined.
Proof.
  split; [| repeat split].
  destruct which; simpl; split; intros H;
    try lia; try (eexists; reflexivity); destruct H as [v Hv]; discriminate.
Qed.

(** ** [MPlotVectorSeriesData]: block reads *)

Section BlockReads.

Import MPlotVectorSeriesData.

Lemma blockRead_valid (l : list qreal) (indexStart indexEnd : Z) :
  0 <= indexStart <= indexEnd -> indexEnd < count l -> count l <= INT_MAX ->
  exists out,
    blockRead l indexStart indexEnd = Ret out
    /\ count out = indexEnd - indexStart + 1
    /\ (forall k, 0 <= k <= indexEnd - indexStart ->
          exists v, out !! Z.to_nat k = Some v /\ at_ l (indexStart + k) = Ret v).
Proof.
  intros Hle Hlt Hu. unfold blockRead.
  rewrite Z.mod_small by (unfold INT_MAX, UINT_MOD in *; lia).
  replace (indexStart + (indexEnd - indexStart + 1) <=? count l) with true
    by (symmetry; apply Z.leb_le; lia).
  eexists. split; [reflexivity |].
  assert (Hlen : length (take (Z.to_nat (indexEnd - indexStart + 1))
                           (drop (Z.to_nat indexStart) l))
                 = Z.to_nat (indexEnd - indexStart + 1)).
  { rewrite length_take, length_drop. unfold count in Hlt. lia. }
  split; [unfold count; rewrite Hlen; lia |].
  intros k Hk.
  destruct (at_defined l (indexStart + k)) as [v [Hv Hl]]; [lia |].
  exists v. split; [| exact Hv].
  rewrite lookup_take_lt by lia. rewrite lookup_drop.
  replace (Z.to_nat indexStart + Z.to_nat k)%nat with (Z.to_nat (indexStart + k)) by lia.
  exact Hl.
Qed.

(** The idiom [xValues(0, count()-1, buffer)] copies the whole vector, and
    nothing when the vector is empty: [count()-1] is then [-1], the largest
    [unsigned], and the number of values wraps to [0]. *)
Lemma blockRead_all (l : list qreal) :
  count l <= INT_MAX -> blockRead l 0 (to_unsigned (count l - 1)) = Ret l.
Proof.
  intros Hfit. pose proof (count_nonneg l) as Hc. unfold blockRead.
  destruct (Z.eq_dec (count l) 0) as [E | E].
  - rewrite E. replace (to_unsigned (0 - 1)) with (UINT_MOD - 1) by reflexivity.
    replace ((UINT_MOD - 1 - 0 + 1) mod UINT_MOD) with 0 by reflexivity.
    simpl. destruct l; [reflexivity | unfold count in E; simpl in E; lia].
  - rewrite to_unsigned_small by (unfold INT_MAX, UINT_MOD in *; lia).
    replace (count l - 1 - 0 + 1) with (count l) by lia.
    rewrite Z.mod_small by (unfold INT_MAX, UINT_MOD in *; lia).
    replace (0 + count l <=? count l) with true by (symmetry; apply Z.leb_le; lia).
    simpl. unfold count. rewrite Nat2Z.id, firstn_all. reflexivity.
Qed.

End BlockReads.

(** X3.  For valid indexes [indexStart <= indexEnd < count()], [xValues]
    copies [indexEnd - indexStart + 1] values, and the [k]-th of them is
    [x(indexStart + k)]; the same holds of [yValues] and [y].  Reading
    [(0, count()-1)] copies all the values, none when the data is empty. *)
Theorem block_reads_agree_with_element_reads
    (d : MPlotVectorSeriesData.t) (indexStart indexEnd : Z) :
  0 <= indexStart <= indexEnd ->
  count (MPlotVectorSeriesData.xValues_ d) <= INT_MAX ->
  count (MPlotVectorSeriesData.yValues_ d) <= INT_MAX ->
  (indexEnd < count (MPlotVectorSeriesData.xValues_ d) ->
   exists out,
     MPlotVectorSeriesData.xValues d indexStart indexEnd = Ret out
     /\ count out = indexEnd - indexStart + 1
     /\ (forall k, 0 <= k <= indexEnd - indexStart ->
           exists v, out !! Z.to_nat k = Some v
                     /\ MPlotVectorSeriesData.x d (indexStart + k) = Ret v))
  /\ (indexEnd < count (MPlotVectorSeriesData.yValues_ d) ->
      exists out,
        MPlotVectorSeriesData.yValues d indexStart indexEnd = Ret out
        /\ count out = indexEnd - indexStart + 1
        /\ (forall k, 0 <= k <= indexEnd - indexStart ->
              exists v, out !! Z.to_nat k = Some v
                        /\ MPlotVectorSeriesData.y d (indexStart + k) = Ret v))
  /\ MPlotVectorSeriesData.xValues d 0
       (to_unsigned (count (MPlotVectorSeriesData.xValues_ d) - 1))
     = Ret (MPlotVectorSeriesData.xValues_ d)
  /\ MPlotVectorSeriesData.yValues d 0
       (to_unsigned (count (MPlotVectorSeriesData.yValues_ d) - 1))
     = Ret (MPlotVectorSeriesData.yValues_ d).
Proof.
  intros Hle Hfx Hfy.
  split; [| split; [| split]].
  - intros Hlt. apply blockRead_valid; assumption.
  - intros Hlt. apply blockRead_valid; assumption.
  - apply blockRead_all. exact Hfx.
  - apply blockRead_all. exact Hfy.
Qed.

(** ** [MPlotRectangle]: the setters *)

Section RectangleSetters.

Import MPlotRectangle.

Variables QPen QBrush : Type.

Lemma occurrences_app (c : Call) (l1 l2 : list Call) :
  occurrences c (l1 ++ l2) = (occurrences c l1 + occurrences c l2)%nat.
Proof. unfold occurrences. rewrite List.filter_app, length_app. reflexivity. Qed.

Lemma rectsSet_app (ops1 ops2 : list (Op QPen QBrush)) :
  rectsSet QPen QBrush (ops1 ++ ops2)
  = rectsSet QPen QBrush ops1 ++ rectsSet QPen QBrush ops2.
Proof. unfold rectsSet. apply flat_map_app. Qed.

(** One call: only [setRect] touches the data rectangle and signals a change
    of bounds; only [setBrush] goes without [prepareGeometryChange]. *)
Lemma apply_effect (m : t QPen QBrush) (op : Op QPen QBrush) :
  let m' := apply QPen QBrush m op in
  dataRect QPen QBrush m'
  = match op with
    | SetRect _ _ r => toRectF r
    | _ => dataRect QPen QBrush m
    end
  /\ occurrences emitBoundsChanged (calls QPen QBrush m')
     = (occurrences emitBoundsChanged (calls QPen QBrush m)
        + length (rectsSet QPen QBrush [op]))%nat
  /\ occurrences update (calls QPen QBrush m')
     = S (occurrences update (calls QPen QBrush m)).
Proof.
  destruct op; simpl; rewrite !occurrences_app; unfold occurrences; simpl;
    repeat split; lia.
Qed.

Lemma run_effect (ops : list (Op QPen QBrush)) :
  forall m : t QPen QBrush,
    let m' := run QPen QBrush ops m in
    dataRect QPen QBrush m'
    = match list.last (rectsSet QPen QBrush ops) with
      | Some r => toRectF r
      | None => dataRect QPen QBrush m
      end
    /\ occurrences emitBoundsChanged (calls QPen QBrush m')
       = (occurrences emitBoundsChanged (calls QPen QBrush m)
          + length (rectsSet QPen QBrush ops))%nat
    /\ occurrences update (calls QPen QBrush m')
       = (occurrences update (calls QPen QBrush m) + length ops)%nat.
Proof.
  induction ops as [| op ops IH] using rev_ind; intros m.
  - simpl. repeat split; lia.
  - unfold run in *. rewrite fold_left_app. cbn [fold_left].
    destruct (IH m) as (H1 & H2 & H3).
    destruct (apply_effect (fold_left (apply QPen QBrush) ops m) op) as (A1 & A2 & A3).
    rewrite rectsSet_app, !length_app.
    split; [| split].
    + rewrite A1. destruct op; simpl; rewrite ?app_nil_r; try exact H1.
      rewrite last_snoc. reflexivity.
    + rewrite A2, H2. lia.
    + rewrite A3, H3. simpl. lia.
Qed.

End RectangleSetters.

(** X4.  Over every sequence of [setPen], [setBrush] and [setRect] calls the
    data rectangle of an [MPlotRectangle] is the one of the last [setRect]
    (the initial one when there was none), [boundsChanged] is signalled once
    per [setRect] and never by the other two setters, and every call requests
    one repaint.  A rectangle set through [setRect], which takes a [QRect],
    has integer coordinates. *)
Theorem rectangle_bounds_follow_setRect
    (QPen QBrush : Type) (ops : list (MPlotRectangle.Op QPen QBrush))
    (m : MPlotRectangle.t QPen QBrush) :
  let m' := MPlotRectangle.run QPen QBrush ops m in
  MPlotRectangle.dataRect QPen QBrush m'
  = match list.last (MPlotRectangle.rectsSet QPen QBrush ops) with
    | Some r => MPlotRectangle.toRectF r
    | None => MPlotRectangle.dataRect QPen QBrush m
    end
  /\ MPlotRectangle.occurrences MPlotRectangle.emitBoundsChanged
       (MPlotRectangle.calls QPen QBrush m')
     = (MPlotRectangle.occurrences MPlotRectangle.emitBoundsChanged
          (MPlotRectangle.calls QPen QBrush m)
        + length (MPlotRectangle.rectsSet QPen QBrush ops))%nat
  /\ MPlotRectangle.occurrences MPlotRectangle.update
       (MPlotRectangle.calls QPen QBrush m')
     = (MPlotRectangle.occurrences MPlotRectangle.update
          (MPlotRectangle.calls QPen QBrush m) + length ops)%nat
  /\ (MPlotRectangle.rectsSet QPen QBrush ops <> [] ->
      MPlotRectangle.integral (MPlotRectangle.dataRect QPen QBrush m')).
Proof.
  intros m'. destruct (run_effect QPen QBrush ops m) as (H1 & H2 & H3).
  fold m' in H1, H2, H3.
  split; [exact H1 |]. split; [exact H2 |]. split; [exact H3 |].
  intros Hne. rewrite H1.
  destruct (list.last (MPlotRectangle.rectsSet QPen QBrush ops)) as [r |] eqn:E.
  - exists r. reflexivity.
  - apply last_None in E. contradiction.
Qed.

(** ** The drag zoomer: gestures, the zoom stack and what stays true *)

Section DragZoomerMore.

Import MPlotDragZoomerTool.

Variable MPLOT_RUBBERBAND_DEADZONE : qreal.
Variable mapDrawingToDataRange : MPlotAxisScale -> MPlotAxisRange -> MPlotAxisRange.

Local Abbreviation mouseMoveEvent := (mouseMoveEvent MPLOT_RUBBERBAND_DEADZONE).
Local Abbreviation mouseReleaseEvent := (mouseReleaseEvent mapDrawingToDataRange).
Local Abbreviation zoomAxis := (zoomAxis mapDrawingToDataRange).
Local Abbreviation run := (run MPLOT_RUBBERBAND_DEADZONE mapDrawingToDataRange).
Local Abbreviation handle := (handle MPLOT_RUBBERBAND_DEADZONE mapDrawingToDataRange).
Local Abbreviation is_drag := (is_drag MPLOT_RUBBERBAND_DEADZONE).

Lemma run_app (l1 l2 : list Event) (w : World) :
  run (l1 ++ l2) w = run l2 (run l1 w).
Proof. unfold MPlotDragZoomerTool.run. apply fold_left_app. Qed.

(** *** Switching auto-scaling on the targets *)

Lemma setAutoScaleAll_other (b : bool) (l : list nat) (s : AxisStore) (a : nat) :
  ~ In a l -> setAutoScaleAll b l s a = s a.
Proof.
  intros Hn. unfold setAutoScaleAll.
  apply (fold_store_untouched
           (fun s axis => <[axis := setAutoScaleEnabled b (s axis)]> s) id a).
  - intros s' x Hx. apply store_insert_ne. exact Hx.
  - rewrite map_id. exact Hn.
Qed.

Lemma setAutoScaleAll_in (b : bool) (l : list nat) (a : nat) :
  forall s : AxisStore,
    In a l -> setAutoScaleAll b l s a = setAutoScaleEnabled b (s a).
Proof.
  induction l as [| c l IH]; intros s Hin; [destruct Hin |].
  change (setAutoScaleAll b (c :: l) s)
    with (setAutoScaleAll b l (<[c := setAutoScaleEnabled b (s c)]> s)).
  destruct (in_dec Nat.eq_dec a l) as [Hl | Hl].
  - rewrite (IH _ Hl). destruct (Nat.eq_dec c a) as [-> | Hne].
    + rewrite store_insert_eq. reflexivity.
    + rewrite store_insert_ne by exact Hne. reflexivity.
  - rewrite (setAutoScaleAll_other b l _ a Hl).
    destruct Hin as [-> | Hin]; [| contradiction].
    apply store_insert_eq.
Qed.

(** *** The zooming loop, on the store *)

Lemma zoomAxis_eq (e : QGraphicsSceneMouseEvent) (acc : ZoomList)
    (s : AxisStore) (b : nat) :
  zoomAxis e (acc, s) b
  = (acc ++ [(b, dataRange (s b))],
     <[b := setDataRange (mapDrawingToDataRange (s b) (rubberBandRange e (s b)))
              (s b)]> s).
Proof.
  unfold MPlotDragZoomerTool.zoomAxis, rubberBandRange.
  destruct (orientation (s b));
    match goal with |- context [qgt ?u ?v] => destruct (qgt u v) end;
    reflexivity.
Qed.

Lemma zoom_loop_other (e : QGraphicsSceneMouseEvent) (l : list nat) (a : nat) :
  forall (acc : ZoomList) (s : AxisStore),
    ~ In a l -> snd (fold_left (zoomAxis e) l (acc, s)) a = s a.
Proof.
  induction l as [| b l IH]; intros acc s Hn; [reflexivity |].
  cbn [fold_left]. rewrite zoomAxis_eq. rewrite IH by (simpl in Hn; tauto).
  apply store_insert_ne. simpl in Hn. tauto.
Qed.

Lemma zoom_loop_store (e : QGraphicsSceneMouseEvent) (l : list nat) (a : nat) :
  forall (acc : ZoomList) (s : AxisStore),
    List.NoDup l -> In a l ->
    snd (fold_left (zoomAxis e) l (acc, s)) a
    = setDataRange (mapDrawingToDataRange (s a) (rubberBandRange e (s a))) (s a).
Proof.
  induction l as [| b l IH]; intros acc s Hnd Hin; [destruct Hin |].
  inversion Hnd as [| ? ? Hb Hnd']; subst.
  cbn [fold_left]. rewrite zoomAxis_eq.
  destruct (Nat.eq_dec b a) as [-> | Hne].
  - rewrite zoom_loop_other by exact Hb. apply store_insert_eq.
  - destruct Hin as [Heq | Hin]; [contradiction |].
    rewrite (IH _ _ Hnd' Hin). rewrite store_insert_ne by exact Hne. reflexivity.
Qed.

Lemma rubberBandRange_ordered (e : QGraphicsSceneMouseEvent) (a : MPlotAxisScale) :
  (rmin (rubberBandRange e a) <= rmax (rubberBandRange e a))%Q.
Proof.
  unfold rubberBandRange.
  destruct (orientation a);
    match goal with |- context [qgt ?u ?v] => destruct (qgt u v) eqn:E end;
    unfold qgt in E; simpl.
  - apply qlt_true_iff in E. apply Qlt_le_weak. exact E.
  - apply qlt_false_iff in E. exact E.
  - apply qlt_true_iff in E. apply Qlt_le_weak. exact E.
  - apply qlt_false_iff in E. exact E.
Qed.

(** *** The restoring loop, on what it leaves alone *)

Lemma restore_loop_flag (targets : list nat) (zl : ZoomList) (a : nat) :
  forall s : AxisStore,
    autoScaleEnabled (fold_left (restoreAxis targets) zl s a)
    = autoScaleEnabled (s a).
Proof.
  induction zl as [| [b r] zl IH]; intros s; [reflexivity |].
  cbn [fold_left]. rewrite IH. unfold restoreAxis. cbn [fst snd].
  destruct (contains targets b); [| reflexivity].
  destruct (Nat.eq_dec b a) as [-> | Hne].
  - rewrite store_insert_eq. reflexivity.
  - rewrite store_insert_ne by exact Hne. reflexivity.
Qed.

Lemma restore_loop_other (targets : list nat) (zl : ZoomList) (a : nat) :
  ~ In a targets ->
  forall s : AxisStore, fold_left (restoreAxis targets) zl s a = s a.
Proof.
  intros Hn. induction zl as [| [b r] zl IH]; intros s; [reflexivity |].
  cbn [fold_left]. rewrite IH. unfold restoreAxis. cbn [fst snd].
  destruct (contains targets b) eqn:E; [| reflexivity].
  apply contains_In in E. apply store_insert_ne. intros ->. contradiction.
Qed.

(** *** One gesture *)

Lemma gesture_run (g : Gesture) (t : Tool) (s : AxisStore) :
  dragInProgress_ t = false -> is_drag g ->
  let s0 := setAutoScaleAll false (targetAxes_ t) s in
  let zs := fold_left (zoomAxis (g_release g)) (targetAxes_ t) ([], s0) in
  run (gesture_events g) (t, s)
  = ({| dragStarted_ := false; dragInProgress_ := false;
        targetAxes_ := targetAxes_ t;
        oldZooms_ := fst zs :: oldZooms_ t;
        selectionRect_ := null_rect |}, snd zs).
Proof.
  intros Hd (Hp & Hm & Hr) s0 zs.
  unfold MPlotDragZoomerTool.run, gesture_events.
  cbn [fold_left MPlotDragZoomerTool.handle].
  unfold mousePressEvent. rewrite Hp. cbn [MouseButton_eqb].
  unfold MPlotDragZoomerTool.mouseMoveEvent.
  cbn [dragStarted_ dragInProgress_ targetAxes_ oldZooms_ selectionRect_].
  assert (Hq : qgt (manhattanLength
                      (point_sub (buttonDownScenePos_Left (g_move g))
                         (scenePos (g_move g))))
                 MPLOT_RUBBERBAND_DEADZONE = true).
  { unfold qgt. apply qlt_true_iff. exact Hm. }
  rewrite Hq. cbn [andb dragStarted_ dragInProgress_ targetAxes_ oldZooms_
                   selectionRect_].
  erewrite (release_left_zoom mapDrawingToDataRange (g_release g));
    [reflexivity | exact Hr | reflexivity].
Qed.

(** The gesture, read on the tool and on the store. *)
Lemma gesture_effect (g : Gesture) (t : Tool) (s : AxisStore) :
  dragInProgress_ t = false -> is_drag g -> List.NoDup (targetAxes_ t) ->
  exists zl,
    fst (run (gesture_events g) (t, s))
    = {| dragStarted_ := false; dragInProgress_ := false;
         targetAxes_ := targetAxes_ t; oldZooms_ := zl :: oldZooms_ t;
         selectionRect_ := null_rect |}
    /\ map fst zl = targetAxes_ t
    /\ (forall a r, In (a, r) zl -> r = dataRange (s a))
    /\ (forall a, In a (targetAxes_ t) ->
        snd (run (gesture_events g) (t, s)) a
        = setDataRange
            (mapDrawingToDataRange (setAutoScaleEnabled false (s a))
               (rubberBandRange (g_release g) (s a)))
            (setAutoScaleEnabled false (s a)))
    /\ (forall a, ~ In a (targetAxes_ t) ->
        snd (run (gesture_events g) (t, s)) a = s a).
Proof.
  intros Hd Hg Hnd. rewrite (gesture_run g t s Hd Hg). cbn [fst snd].
  set (s0 := setAutoScaleAll false (targetAxes_ t) s).
  destruct (zoom_loop_records mapDrawingToDataRange (g_release g)
              (targetAxes_ t) [] s0) as [zl (Hz & Hk & Hrec)].
  rewrite app_nil_l in Hz. exists zl. rewrite Hz.
  split; [reflexivity |]. split; [exact Hk |]. split; [| split].
  - intros a r Hin. rewrite (Hrec Hnd a r Hin).
    assert (Ha : In a (targetAxes_ t)).
    { rewrite <- Hk. apply in_map_iff. exists (a, r). split; [reflexivity | exact Hin]. }
    unfold s0. rewrite (setAutoScaleAll_in false _ a s Ha). reflexivity.
  - intros a Ha. rewrite (zoom_loop_store _ _ a [] s0 Hnd Ha).
    unfold s0. rewrite (setAutoScaleAll_in false _ a s Ha). reflexivity.
  - intros a Ha. rewrite (zoom_loop_other _ _ a [] s0 Ha).
    apply setAutoScaleAll_other. exact Ha.
Qed.

(** *** Gestures and recalls *)

Lemma gestures_events_cons (g : Gesture) (gs : list Gesture) :
  gestures_events (g :: gs) = gesture_events g ++ gestures_events gs.
Proof. reflexivity. Qed.

Lemma gestures_keep_rest (gs : list Gesture) :
  forall (t : Tool) (s : AxisStore),
    dragInProgress_ t = false -> List.NoDup (targetAxes_ t) ->
    Forall is_drag gs ->
    dragInProgress_ (fst (run (gestures_events gs) (t, s))) = false
    /\ targetAxes_ (fst (run (gestures_events gs) (t, s))) = targetAxes_ t
    /\ length (oldZooms_ (fst (run (gestures_events gs) (t, s))))
       = (length gs + length (oldZooms_ t))%nat.
Proof.
  induction gs as [| g gs IH]; intros t s Hd Hnd Hall.
  - repeat split; assumption.
  - inversion Hall as [| ? ? Hg Hall']; subst.
    rewrite gestures_events_cons, run_app.
    destruct (gesture_effect g t s Hd Hg Hnd) as [zl (Ht & _)].
    destruct (run (gesture_events g) (t, s)) as [t1 s1]. cbn [fst] in Ht.
    assert (Hd1 : dragInProgress_ t1 = false) by (rewrite Ht; reflexivity).
    assert (Hk1 : targetAxes_ t1 = targetAxes_ t) by (rewrite Ht; reflexivity).
    assert (Hnd1 : List.NoDup (targetAxes_ t1)) by (rewrite Hk1; exact Hnd).
    destruct (IH t1 s1 Hd1 Hnd1 Hall') as (H1 & H2 & H3).
    split; [exact H1 |]. split; [rewrite H2; exact Hk1 |].
    rewrite H3, Ht. simpl. lia.
Qed.

Lemma list_snoc_of_length {X} (l : list X) (n : nat) :
  length l = S n -> exists l' x, l = l' ++ [x] /\ length l' = n.
Proof.
  intros H. destruct (exists_last (l := l)) as [l' [x ->]].
  - intros ->. discriminate.
  - exists l', x. split; [reflexivity |].
    rewrite length_app in H. simpl in H. lia.
Qed.

(** As many recalls as gestures: the stack and the ranges of the targets are
    back; auto-scaling, switched off by the first gesture, stays off. *)
Lemma gestures_then_recalls (gs : list Gesture) :
  forall (rs : list QGraphicsSceneMouseEvent) (t : Tool) (s : AxisStore),
    dragInProgress_ t = false -> List.NoDup (targetAxes_ t) ->
    Forall is_drag gs ->
    Forall (fun e => button e = RightButton) rs ->
    length rs = length gs ->
    let w := run (gestures_events gs ++ map Release rs) (t, s) in
    oldZooms_ (fst w) = oldZooms_ t
    /\ dragInProgress_ (fst w) = false
    /\ targetAxes_ (fst w) = targetAxes_ t
    /\ (forall a, In a (targetAxes_ t) -> dataRange (snd w a) = dataRange (s a))
    /\ (forall a, In a (targetAxes_ t) ->
        autoScaleEnabled (s a) = false \/ gs <> [] ->
        autoScaleEnabled (snd w a) = false).
Proof.
  induction gs as [| g gs IH]; intros rs t s Hd Hnd Hall Hrs Hlen w; subst w.
  - destruct rs; [| discriminate]. cbn.
    repeat split; try assumption; try reflexivity.
    intros a _ [H | H]; [exact H | congruence].
  - inversion Hall as [| ? ? Hg Hall']; subst.
    destruct (list_snoc_of_length rs (length gs) Hlen) as (rs' & r & -> & Hlen').
    apply Forall_app in Hrs. destruct Hrs as [Hrs' Hr].
    inversion Hr as [| ? ? Hrb _]; subst.
    rewrite gestures_events_cons, map_app, <- app_assoc, run_app.
    rewrite app_assoc, run_app.
    destruct (gesture_effect g t s Hd Hg Hnd) as [zl (Ht & Hk & Hrec & Hst & _)].
    destruct (run (gesture_events g) (t, s)) as [t1 s1]. cbn [fst snd] in Ht, Hst.
    assert (Hd1 : dragInProgress_ t1 = false) by (rewrite Ht; reflexivity).
    assert (Hk1 : targetAxes_ t1 = targetAxes_ t) by (rewrite Ht; reflexivity).
    assert (Hz1 : oldZooms_ t1 = zl :: oldZooms_ t) by (rewrite Ht; reflexivity).
    assert (Hnd1 : List.NoDup (targetAxes_ t1)) by (rewrite Hk1; exact Hnd).
    destruct (IH rs' t1 s1 Hd1 Hnd1 Hall' Hrs' Hlen') as (H1 & H2 & H3 & _ & H5).
    destruct (run (gestures_events gs ++ map Release rs') (t1, s1)) as [t2 s2].
    cbn [fst snd] in H1, H2, H3, H5.
    unfold MPlotDragZoomerTool.run. cbn [map fold_left MPlotDragZoomerTool.handle].
    rewrite (release_right_pop mapDrawingToDataRange r t2 s2 zl (oldZooms_ t)
               Hrb H2 (eq_trans H1 Hz1)).
    cbn [fst snd oldZooms_ dragInProgress_ targetAxes_].
    split; [reflexivity |]. split; [exact H2 |].
    split; [rewrite H3; exact Hk1 |]. split.
    + intros a Ha. apply restore_loop.
      * rewrite H3, Hk1. exact Ha.
      * intros r0 Hr0. apply (Hrec a r0 Hr0).
      * left. rewrite Hk. exact Ha.
    + intros a Ha _. rewrite restore_loop_flag. apply H5.
      * rewrite Hk1. exact Ha.
      * left. rewrite (Hst a Ha). reflexivity.
Qed.

(** *** What every handler keeps *)

Lemma handle_coherent (targets : list nat) (s0 : AxisStore) (ev : Event) (w : World) :
  coherent targets s0 w -> coherent targets s0 (handle ev w).
Proof.
  destruct w as [t s]. unfold coherent. cbn [fst snd].
  intros (Hk & Hrect & Hflag & Hstack & Hother).
  destruct ev as [e | e | e]; cbn [MPlotDragZoomerTool.handle].
  - unfold mousePressEvent.
    destruct (MouseButton_eqb (button e) LeftButton); cbn [fst snd];
      repeat split; assumption.
  - unfold MPlotDragZoomerTool.mouseMoveEvent.
    destruct (dragStarted_ t && qgt _ _).
    + cbn [fst snd dragInProgress_ targetAxes_ oldZooms_ selectionRect_ dragStarted_].
      split; [exact Hk |]. split; [discriminate |]. split; [| split].
      * intros _ a Ha. apply setAutoScaleAll_target. left. rewrite Hk. exact Ha.
      * exact Hstack.
      * intros a Ha. rewrite setAutoScaleAll_other by (rewrite Hk; exact Ha).
        apply Hother. exact Ha.
    + destruct (dragInProgress_ t) eqn:Hd;
        cbn [fst snd dragInProgress_ targetAxes_ oldZooms_ selectionRect_ dragStarted_].
      * split; [exact Hk |]. split; [discriminate |].
        split; [intros _; apply Hflag; reflexivity |]. split; assumption.
      * try rewrite Hd. repeat split; assumption.
  - unfold MPlotDragZoomerTool.mouseReleaseEvent,
      MPlotDragZoomerTool.releaseLeft, releaseRight.
    destruct (button e) eqn:Hb; cbn [MouseButton_eqb].
    + destruct (dragInProgress_ t) eqn:Hd.
      * destruct (zoom_loop_records mapDrawingToDataRange e (targetAxes_ t) [] s)
          as [zl (Hz & Hkz & _)].
        pose proof (fun a H => zoom_loop_other e (targetAxes_ t) a [] s H) as Hzo.
        destruct (fold_left (zoomAxis e) (targetAxes_ t) ([], s)) as [zl' s'].
        cbn [fst snd] in Hz, Hzo. rewrite app_nil_l in Hz. subst zl'.
        cbn [fst snd dragInProgress_ negb andb targetAxes_ oldZooms_ selectionRect_].
        split; [exact Hk |]. split; [reflexivity |]. split; [discriminate |].
        split.
        -- intros zl0 [<- | Hin]; [rewrite Hkz; exact Hk | apply Hstack; exact Hin].
        -- intros a Ha. rewrite Hzo by (rewrite Hk; exact Ha). apply Hother. exact Ha.
      * cbn [fst snd dragInProgress_ negb andb targetAxes_ oldZooms_ selectionRect_].
        try rewrite Hd. cbn [andb negb].
        split; [exact Hk |]. split; [reflexivity |]. split; [discriminate |].
        split; assumption.
    + destruct (dragInProgress_ t) eqn:Hd; cbn [negb andb].
      * cbn [fst snd]. rewrite Hd. repeat split; first [assumption | discriminate].
      * destruct (oldZooms_ t) as [| zl rest] eqn:Hz;
          cbn [fst snd dragInProgress_ targetAxes_ oldZooms_ selectionRect_].
        -- try rewrite Hd; try rewrite Hz. split; [exact Hk |]. split; [exact Hrect |].
           split; [discriminate |]. split; [exact Hstack |].
           intros a Ha. rewrite setAutoScaleAll_other by (rewrite Hk; exact Ha).
           apply Hother. exact Ha.
        -- try rewrite Hd. split; [exact Hk |]. split; [exact Hrect |].
           split; [discriminate |]. split.
           ++ intros zl0 Hin. apply Hstack. right. exact Hin.
           ++ intros a Ha. rewrite restore_loop_other by (rewrite Hk; exact Ha).
              apply Hother. exact Ha.
    + rewrite andb_false_r. cbn [fst snd]. repeat split; assumption.
    + rewrite andb_false_r. cbn [fst snd]. repeat split; assumption.
Qed.

Lemma run_coherent (targets : list nat) (s0 : AxisStore) (evs : list Event) :
  forall w : World, coherent targets s0 w -> coherent targets s0 (run evs w).
Proof.
  unfold MPlotDragZoomerTool.run.
  induction evs as [| ev evs IH]; intros w Hw; [exact Hw |].
  cbn [fold_left]. apply IH. apply handle_coherent. exact Hw.
Qed.

Lemma fresh_coherent (targets : list nat) (s : AxisStore) :
  coherent targets s (fresh targets, s).
Proof.
  unfold coherent. cbn. repeat split; try reflexivity.
  - discriminate.
  - intros zl [].
Qed.

End DragZoomerMore.



(** X9.  Over every sequence of press, move and release events delivered
    to a freshly constructed tool, with the target axes fixed: the rubber
    band rectangle is null whenever no drag is in progress; while a drag is
    in progress auto-scaling is off on every target axis scale; every entry
    of the zoom stack lists exactly the target axes, in order; and an axis
    scale that is no target is never written. *)
Theorem drag_zoomer_invariants
    (MPLOT_RUBBERBAND_DEADZONE : qreal)
    (mapDrawingToDataRange : MPlotAxisScale -> MPlotAxisRange -> MPlotAxisRange)
    (targets : list nat) (s : AxisStore)
    (evs : list MPlotDragZoomerTool.Event) :
  let w := MPlotDragZoomerTool.run MPLOT_RUBBERBAND_DEADZONE mapDrawingToDataRange
             evs (MPlotDragZoomerTool.fresh targets, s) in
  MPlotDragZoomerTool.targetAxes_ (fst w) = targets
  /\ (MPlotDragZoomerTool.dragInProgress_ (fst w) = false ->
      MPlotDragZoomerTool.selectionRect_ (fst w) = null_rect)
  /\ (MPlotDragZoomerTool.dragInProgress_ (fst w) = true ->
      forall a, In a targets -> autoScaleEnabled (snd w a) = false)
  /\ (forall zl, In zl (MPlotDragZoomerTool.oldZooms_ (fst w)) ->
      map fst zl = targets)
  /\ (forall a, ~ In a targets -> snd w a = s a).
Proof.
  intros w.
  exact (run_coherent MPLOT_RUBBERBAND_DEADZONE mapDrawingToDataRange targets s evs
           _ (fresh_coherent targets s)).
Qed.





(** ** The plot selector: which item a press picks *)

Section SelectorMore.

Import MPlotPlotSelectorTool.

Variable MPLOT_SELECTION_BALLPARK : qreal.
Variable shapeIntersects : nat -> MPlotItem -> QRectF -> bool.

Local Abbreviation selectedPossibilities :=
  (selectedPossibilities MPLOT_SELECTION_BALLPARK shapeIntersects).
Local Abbreviation mousePressEvent :=
  (mousePressEvent MPLOT_SELECTION_BALLPARK shapeIntersects).
Local Abbreviation presses := (presses MPLOT_SELECTION_BALLPARK shapeIntersects).

(** The choice with possibilities at hand: the one at [selIndex] modulo
    their number, and [selIndex] moves on by one. *)
Lemma choose_nonempty (poss : list nat) (sel : Z) :
  0 < count poss -> count poss <= INT_MAX ->
  exists x, poss !! Z.to_nat (sel mod count poss) = Some x
            /\ choose poss sel = Ret (Some x, (sel + 1) mod UINT_MOD).
Proof.
  intros Hpos Hfit. unfold choose.
  replace (count poss >? 0) with true by (symmetry; apply Z.gtb_lt; exact Hpos).
  rewrite to_unsigned_small by (unfold INT_MAX, UINT_MOD in *; lia).
  destruct (at_defined poss (sel mod count poss)) as [x [Hx Hl]].
  { apply Z.mod_pos_bound. exact Hpos. }
  exists x. split; [exact Hl |]. rewrite Hx. reflexivity.
Qed.

(** One press, read on every part of the world. *)
Lemma press_effect (event : QGraphicsSceneMouseEvent) (w : World) :
  count (plotItems w) <= INT_MAX ->
  exists w', mousePressEvent event w = Ret w'
    /\ plotItems w' = plotItems w
    /\ (forall p, selectable (items w' p) = selectable (items w p))
    /\ (selectedPossibilities event w = [] ->
        selectedItem_ w' = None /\ selIndex w' = selIndex w)
    /\ (0 < count (selectedPossibilities event w) ->
        selectedItem_ w'
        = selectedPossibilities event w
            !! Z.to_nat (selIndex w mod count (selectedPossibilities event w))
        /\ selectedItem_ w' <> None
        /\ selIndex w' = (selIndex w + 1) mod UINT_MOD)
    /\ (selectedItem_ w' = selectedItem_ w ->
        emitted w' = emitted w /\ items w' = items w).
Proof.
  intros Hfit.
  assert (Hfit' : count (selectedPossibilities event w) <= INT_MAX).
  { pose proof (possibilities_count MPLOT_SELECTION_BALLPARK shapeIntersects event w).
    lia. }
  destruct (selectedPossibilities event w) as [| y poss'] eqn:E.
  - assert (Hc : choose (selectedPossibilities event w) (selIndex w)
                 = Ret (None, selIndex w)) by (rewrite E; reflexivity).
    rewrite (press_unfold _ _ event w _ _ Hc). eexists. split; [reflexivity |].
    unfold deselectOld, selectNew, with_selIndex.
    cbn [selectedItem_ selIndex plotItems items emitted].
    destruct (selectedItem_ w) as [old |] eqn:Eo;
      cbn [selectedItem_ selIndex plotItems items emitted].
    + split; [reflexivity |]. split.
      { intros p. destruct (Nat.eq_dec old p) as [-> | Hne].
        - rewrite store_insert_eq. reflexivity.
        - rewrite store_insert_ne by exact Hne. reflexivity. }
      split; [intros _; split; reflexivity |].
      split; [unfold count; simpl; lia |]. discriminate.
    + split; [reflexivity |]. split; [reflexivity |].
      split; [intros _; split; first [exact Eo | reflexivity] |].
      split; [unfold count; simpl; lia |]. intros _. split; reflexivity.
  - rewrite <- E in *.
    assert (Hpos : 0 < count (selectedPossibilities event w))
      by (rewrite E; unfold count; simpl; lia).
    destruct (choose_nonempty _ (selIndex w) Hpos Hfit') as [x [Hx Hc]].
    rewrite (press_unfold _ _ event w _ _ Hc). rewrite deselectOld_some.
    eexists. split; [reflexivity |].
    unfold selectNew, with_selIndex.
    cbn [selectedItem_ selIndex plotItems items emitted].
    destruct (ptr_eqb x (selectedItem_ w)) eqn:Ep;
      cbn [negb selectedItem_ selIndex plotItems items emitted].
    + apply ptr_eqb_true in Ep.
      split; [reflexivity |]. split; [reflexivity |].
      split; [intros H; rewrite H in E; discriminate |].
      split; [intros _; rewrite Hx, Ep; repeat split; congruence |].
      intros _. split; reflexivity.
    + split; [reflexivity |]. split.
      { intros p. destruct (Nat.eq_dec x p) as [-> | Hne].
        - rewrite store_insert_eq. cbn [setSelected selectable].
          destruct (selectedItem_ w) as [old |]; [| reflexivity].
          destruct (Nat.eq_dec old p) as [-> | Hne'].
          + rewrite store_insert_eq. reflexivity.
          + rewrite store_insert_ne by exact Hne'. reflexivity.
        - rewrite store_insert_ne by exact Hne.
          destruct (selectedItem_ w) as [old |]; [| reflexivity].
          destruct (Nat.eq_dec old p) as [-> | Hne'].
          + rewrite store_insert_eq. reflexivity.
          + rewrite store_insert_ne by exact Hne'. reflexivity. }
      split; [intros H; rewrite H in E; discriminate |].
      split; [intros _; rewrite Hx; repeat split; congruence |].
      intros Heq. symmetry in Heq. apply ptr_eqb_true in Heq. congruence.
Qed.

(** The possibilities of a click depend on the items only through their
    [selectable] flag and the hit test. *)
Lemma possibilities_stable (event : QGraphicsSceneMouseEvent) (w w' : World) :
  (forall s it b r, shapeIntersects s (setSelected b it) r = shapeIntersects s it r) ->
  plotItems w' = plotItems w ->
  (forall p, selectable (items w' p) = selectable (items w p)) ->
  selectedPossibilities event w' = selectedPossibilities event w.
Proof.
  intros Hhit Hp Hs. unfold MPlotPlotSelectorTool.selectedPossibilities.
  rewrite Hp. apply List.filter_ext. intros p. rewrite Hs. f_equal.
  assert (Hit : items w' p = setSelected (selected (items w' p)) (items w p)).
  { specialize (Hs p). destruct (items w' p), (items w p). simpl in *.
    unfold setSelected. simpl. congruence. }
  rewrite Hit. apply Hhit.
Qed.

Lemma presses_app (l1 l2 : list QGraphicsSceneMouseEvent) (w : World) :
  presses (l1 ++ l2) w = (w1 ← presses l1 w; presses l2 w1).
Proof.
  revert w. induction l1 as [| e l1 IH]; intros w; [reflexivity |].
  cbn [app MPlotPlotSelectorTool.presses].
  destruct (mousePressEvent e w) as [w1 |]; [| reflexivity].
  simpl. apply IH.
Qed.

(** Presses that all find the same non-empty possibilities. *)
Lemma presses_advance (poss : list nat) (events : list QGraphicsSceneMouseEvent) :
  (forall s it b r, shapeIntersects s (setSelected b it) r = shapeIntersects s it r) ->
  0 < count poss ->
  forall w : World,
    count (plotItems w) <= INT_MAX ->
    0 <= selIndex w < UINT_MOD ->
    (forall e, In e events -> selectedPossibilities e w = poss) ->
    exists w', presses events w = Ret w'
      /\ plotItems w' = plotItems w
      /\ (forall p, selectable (items w' p) = selectable (items w p))
      /\ selIndex w' = (selIndex w + count events) mod UINT_MOD.
Proof.
  intros Hhit Hpos. induction events as [| e events IH]; intros w Hfit Hsel Hall.
  - exists w. split; [reflexivity |]. split; [reflexivity |].
    split; [reflexivity |]. unfold count. simpl.
    rewrite Z.add_0_r, Z.mod_small by exact Hsel. reflexivity.
  - destruct (press_effect e w Hfit) as [w1 (H1 & Hp1 & Hs1 & _ & Hne & _)].
    rewrite (Hall e (or_introl eq_refl)) in Hne.
    destruct (Hne Hpos) as (_ & _ & Hi1).
    destruct (IH w1) as [w' (H' & Hp' & Hs' & Hi')].
    + rewrite Hp1. exact Hfit.
    + rewrite Hi1. apply Z.mod_pos_bound. reflexivity.
    + intros e' He'.
      rewrite (possibilities_stable e' w w1 Hhit Hp1 Hs1).
      apply Hall. right. exact He'.
    + exists w'. cbn [MPlotPlotSelectorTool.presses]. rewrite H1.
      split; [exact H' |]. split; [congruence |].
      split; [intros p; rewrite Hs'; apply Hs1 |].
      rewrite Hi', Hi1. rewrite Zplus_mod_idemp_l.
      f_equal. unfold count. simpl length. lia.
Qed.

End SelectorMore.

(** X12.  Items on top of each other are picked in turn.  When successive
    presses all find the same possibilities (the selectable plot items under
    the click; the hit test does not depend on which item is selected), the
    press after [n] earlier ones selects the possibility at index
    [(selIndex + n) mod 2^32 mod count], so the next one in cyclic order as
    long as the unsigned counter does not wrap around, and leaves the counter
    one further. *)
Theorem selector_cycles_through_overlapping_items
    (MPLOT_SELECTION_BALLPARK : qreal)
    (shapeIntersects : nat -> MPlotPlotSelectorTool.MPlotItem -> QRectF -> bool)
    (w : MPlotPlotSelectorTool.World)
    (events : list QGraphicsSceneMouseEvent) (event : QGraphicsSceneMouseEvent)
    (poss : list nat) :
  (forall s it b r,
      shapeIntersects s (MPlotPlotSelectorTool.setSelected b it) r
      = shapeIntersects s it r) ->
  (forall e, In e (events ++ [event]) ->
      MPlotPlotSelectorTool.selectedPossibilities
        MPLOT_SELECTION_BALLPARK shapeIntersects e w = poss) ->
  0 < count poss ->
  count (MPlotPlotSelectorTool.plotItems w) <= INT_MAX ->
  0 <= MPlotPlotSelectorTool.selIndex w < UINT_MOD ->
  exists w' x,
    MPlotPlotSelectorTool.presses MPLOT_SELECTION_BALLPARK shapeIntersects
      (events ++ [event]) w = Ret w'
    /\ MPlotPlotSelectorTool.selectedItem w' = Some x
    /\ poss !! Z.to_nat (((MPlotPlotSelectorTool.selIndex w + count events)
                          mod UINT_MOD) mod count poss) = Some x
    /\ (MPlotPlotSelectorTool.selIndex w + count events < UINT_MOD ->
        poss !! Z.to_nat ((MPlotPlotSelectorTool.selIndex w + count events)
                          mod count poss) = Some x)
    /\ MPlotPlotSelectorTool.selIndex w'
       = (MPlotPlotSelectorTool.selIndex w + count events + 1) mod UINT_MOD.
Proof.
  intros Hhit Hall Hpos Hfit Hsel.
  destruct (presses_advance MPLOT_SELECTION_BALLPARK shapeIntersects poss events
              Hhit Hpos w Hfit Hsel) as [w1 (H1 & Hp1 & Hs1 & Hi1)].
  { intros e He. apply Hall. apply in_or_app. left. exact He. }
  assert (Hfit1 : count (MPlotPlotSelectorTool.plotItems w1) <= INT_MAX)
    by (rewrite Hp1; exact Hfit).
  destruct (press_effect MPLOT_SELECTION_BALLPARK shapeIntersects event w1 Hfit1)
    as [w' (H' & _ & _ & _ & Hne & _)].
  rewrite (possibilities_stable MPLOT_SELECTION_BALLPARK shapeIntersects
             event w w1 Hhit Hp1 Hs1) in Hne.
  rewrite (Hall event) in Hne by (apply in_or_app; right; left; reflexivity).
  destruct (Hne Hpos) as (Hx & Hsome & Hi').
  destruct (MPlotPlotSelectorTool.selectedItem_ w') as [x |] eqn:Ex;
    [| congruence].
  exists w', x. rewrite presses_app, H1. split; [simpl; rewrite H'; reflexivity |].
  split; [exact Ex |]. rewrite Hi1 in Hx, Hi'.
  split; [symmetry; exact Hx |]. split.
  - intros Hsmall.
    rewrite (Z.mod_small (MPlotPlotSelectorTool.selIndex w + count events) UINT_MOD)
      in Hx by (unfold count in *; lia).
    symmetry. exact Hx.
  - rewrite Hi'. rewrite Zplus_mod_idemp_l. reflexivity.
Qed.

(** X13.  Every press on a plot whose item count fits an [int] is defined.
    Afterwards [selectedItem()] is null exactly when no selectable plot item
    was under the click, and otherwise is a selectable plot item under the
    click; the plot's item list is untouched; and a press that leaves
    [selectedItem()] as it was calls no [setSelected] and emits no
    signal. *)
Theorem selector_press_selects_under_the_click
    (MPLOT_SELECTION_BALLPARK : qreal)
    (shapeIntersects : nat -> MPlotPlotSelectorTool.MPlotItem -> QRectF -> bool)
    (event : QGraphicsSceneMouseEvent) (w : MPlotPlotSelectorTool.World) :
  count (MPlotPlotSelectorTool.plotItems w) <= INT_MAX ->
  exists w',
    MPlotPlotSelectorTool.mousePressEvent MPLOT_SELECTION_BALLPARK shapeIntersects
      event w = Ret w'
    /\ MPlotPlotSelectorTool.plotItems w' = MPlotPlotSelectorTool.plotItems w
    /\ (MPlotPlotSelectorTool.selectedItem w' = None
        <-> MPlotPlotSelectorTool.selectedPossibilities
              MPLOT_SELECTION_BALLPARK shapeIntersects event w = [])
    /\ (forall x, MPlotPlotSelectorTool.selectedItem w' = Some x ->
        In x (MPlotPlotSelectorTool.plotItems w)
        /\ MPlotPlotSelectorTool.selectable (MPlotPlotSelectorTool.items w x) = true
        /\ shapeIntersects x (MPlotPlotSelectorTool.items w x)
             (MPlotPlotSelectorTool.clickRegion MPLOT_SELECTION_BALLPARK event)
           = true)
    /\ (MPlotPlotSelectorTool.selectedItem w' = MPlotPlotSelectorTool.selectedItem w ->
        MPlotPlotSelectorTool.emitted w' = MPlotPlotSelectorTool.emitted w
        /\ MPlotPlotSelectorTool.items w' = MPlotPlotSelectorTool.items w).
Proof.
  intros Hfit.
  destruct (press_effect MPLOT_SELECTION_BALLPARK shapeIntersects event w Hfit)
    as [w' (H' & Hp & _ & Hempty & Hne & Hsame)].
  exists w'. split; [exact H' |]. split; [exact Hp |].
  unfold MPlotPlotSelectorTool.selectedItem.
  set (poss := MPlotPlotSelectorTool.selectedPossibilities
                 MPLOT_SELECTION_BALLPARK shapeIntersects event w) in *.
  assert (Hcases : poss = [] \/ 0 < count poss).
  { destruct poss; [left; reflexivity | right; unfold count; simpl; lia]. }
  split; [| split; [| exact Hsame]].
  - split.
    + intros Hnone. destruct Hcases as [He | Hpos]; [exact He |].
      destruct (Hne Hpos) as (_ & Hsome & _). contradiction.
    + intros He. apply Hempty. exact He.
  - intros x Hx. destruct Hcases as [He | Hpos].
    + destruct (Hempty He) as [Hnone _]. congruence.
    + destruct (Hne Hpos) as (Hl & _ & _). rewrite Hx in Hl. symmetry in Hl.
      apply (possibilities_in_plot MPLOT_SELECTION_BALLPARK shapeIntersects event w x).
      apply list_elem_of_In. apply list_elem_of_lookup. eauto.
Qed.

(** X12 on three items of which the first two lie under the click: the
    second press selects the second of them. *)
Lemma selector_cycles_witness :
  exists w',
    MPlotPlotSelectorTool.presses 1 Samples.hitsFirstTwo
      ([Samples.mouse LeftButton 0 0] ++ [Samples.mouse LeftButton 0 0])
      (MPlotPlotSelectorTool.fresh 0 [0%nat; 1%nat; 2%nat] Samples.selectorItems)
    = Ret w'
    /\ MPlotPlotSelectorTool.selectedItem w' = Some 1%nat
    /\ MPlotPlotSelectorTool.selIndex w' = 2.
Proof.
  destruct (selector_cycles_through_overlapping_items 1 Samples.hitsFirstTwo
              (MPlotPlotSelectorTool.fresh 0 [0%nat; 1%nat; 2%nat] Samples.selectorItems)
              [Samples.mouse LeftButton 0 0] (Samples.mouse LeftButton 0 0)
              [0%nat; 1%nat])
    as [w' [x (H1 & H2 & H3 & _ & H5)]].
  - intros s it b r. reflexivity.
  - intros e He. reflexivity.
  - reflexivity.
  - apply Z.leb_le. reflexivity.
  - split; [apply Z.leb_le | apply Z.ltb_lt]; reflexivity.
  - exists w'. split; [exact H1 |].
    assert (Hx : x = 1%nat).
    { change (Some 1%nat = Some x) in H3. congruence. }
    rewrite Hx in H2. split; [exact H2 | exact H5].
Defined.

(** X13 on two items of which item 0 lies under the click. *)
Lemma selector_press_witness_under_click :
  exists w',
    MPlotPlotSelectorTool.mousePressEvent 1 Samples.hitsItem0
      (Samples.mouse LeftButton 0 0)
      (MPlotPlotSelectorTool.fresh 0 [0%nat; 1%nat] Samples.selectorItems)
    = Ret w'
    /\ MPlotPlotSelectorTool.plotItems w' = [0%nat; 1%nat]
    /\ MPlotPlotSelectorTool.selectedItem w' <> None.
Proof.
  destruct (selector_press_selects_under_the_click 1 Samples.hitsItem0
              (Samples.mouse LeftButton 0 0)
              (MPlotPlotSelectorTool.fresh 0 [0%nat; 1%nat] Samples.selectorItems))
    as [w' (H1 & H2 & H3 & _)].
  - apply Z.leb_le. reflexivity.
  - exists w'. split; [exact H1 |]. split; [exact H2 |].
    intros Hn. apply H3 in Hn. discriminate Hn.
Defined.

(** ** The cursor tool: adding, removing and placing cursors *)

Section CursorsMore.

Import MPlotCursorTool.

Variable mapDrawingToData : MPlotAxisScale -> qreal -> qreal.
Variable MPLOT_CURSOR_BIG_HACK : qreal.
Variable defaultPoint : MPlotPoint.
Variable removeItem :
  nat -> nat -> (nat -> MPlotAccessors.MPlot) * (nat -> MPlotPoint) ->
  (nat -> MPlotAccessors.MPlot) * (nat -> MPlotPoint).

Local Abbreviation addCursor := (addCursor MPLOT_CURSOR_BIG_HACK defaultPoint).
Local Abbreviation removeCursor := (removeCursor removeItem).
Local Abbreviation mousePressEvent := (mousePressEvent mapDrawingToData).

Lemma option_nat_eqb_refl (a : option nat) : option_nat_eqb a a = true.
Proof. destruct a; simpl; [apply Nat.eqb_refl | reflexivity]. Qed.

Lemma at_app_l {A} (l l' : list A) (i : Z) :
  0 <= i < count l -> at_ (l ++ l') i = at_ l i.
Proof.
  intros [H0 H1]. unfold at_, count in *. rewrite length_app.
  replace (0 <=? i) with true by (symmetry; apply Z.leb_le; lia).
  replace (i <? Z.of_nat (length l + length l')) with true
    by (symmetry; apply Z.ltb_lt; lia).
  replace (i <? Z.of_nat (length l)) with true by (symmetry; apply Z.ltb_lt; lia).
  simpl. rewrite lookup_app_l by lia. reflexivity.
Qed.

Lemma at_app_last {A} (l : list A) (x : A) : at_ (l ++ [x]) (count l) = Ret x.
Proof.
  unfold at_, count. rewrite length_app. simpl length.
  replace (0 <=? Z.of_nat (length l)) with true by (symmetry; apply Z.leb_le; lia).
  replace (Z.of_nat (length l) <? Z.of_nat (length l + 1)) with true
    by (symmetry; apply Z.ltb_lt; lia).
  simpl. rewrite Nat2Z.id, list_lookup_middle by reflexivity. reflexivity.
Qed.

Lemma numCursors_small (w : World) :
  count (cursors_ w) <= INT_MAX -> numCursors w = count (cursors_ w).
Proof.
  intros H. unfold numCursors. apply to_unsigned_small.
  pose proof (count_nonneg (cursors_ w)). unfold INT_MAX, UINT_MOD in *. lia.
Qed.

Lemma axisScale_defined (p : MPlotAccessors.MPlot) (i : Z) :
  is_int i -> count (MPlotAccessors.axisScales_ p) <= INT_MAX ->
  exists r, MPlotAccessors.axisScale p i = Ret r.
Proof.
  intros Hi Hfit.
  destruct (Z_le_dec 0 i) as [H0 |];
    [destruct (Z_lt_dec i (count (MPlotAccessors.axisScales_ p))) |].
  - destruct (axisScale_in_range p i Hi Hfit) as [a [Ha _]]; [lia | eauto].
  - eexists. apply axisScale_out_of_range; [assumption | assumption | lia].
  - eexists. apply axisScale_out_of_range; [assumption | assumption | lia].
Qed.

(** [addItem] writes the item and the plot, nothing else. *)
Lemma addItem_effect (pl item : nat) (w : World) :
  count (MPlotAccessors.axisScales_ (plots w pl)) <= INT_MAX ->
  exists w1, addItem pl item w = Ret w1
    /\ cursors_ w1 = cursors_ w /\ plot w1 = plot w
    /\ activeCursor w1 = activeCursor w /\ scales w1 = scales w
    /\ valueChanged w1 = valueChanged w
    /\ (forall p, p <> item -> points w1 p = points w p)
    /\ value_ (points w1 item) = value_ (points w item)
    /\ plot_of (points w1 item) = Some pl.
Proof.
  intros Hfit. unfold addItem.
  destruct (axisScale_defined (plots w pl) 0) as [y Hy];
    [unfold is_int, INT_MIN, INT_MAX; lia | exact Hfit |].
  destruct (axisScale_defined (plots w pl) 1) as [x Hx];
    [unfold is_int, INT_MIN, INT_MAX; lia | exact Hfit |].
  rewrite Hy. simpl. rewrite Hx. simpl. eexists. split; [reflexivity |].
  cbn [cursors_ plot activeCursor scales valueChanged points].
  repeat split.
  - intros p Hp. apply store_insert_ne. congruence.
  - rewrite store_insert_eq. reflexivity.
  - rewrite store_insert_eq. reflexivity.
Qed.

(** *** [addCursor] *)

Lemma addCursor_effect (newCursor : nat) (xAxisScale yAxisScale : option nat)
    (initialPos : QPointF) (sc : Scene) (pl : nat) :
  plot (world sc) = Some pl ->
  count (MPlotAccessors.axisScales_ (plots (world sc) pl)) <= INT_MAX ->
  exists sc', addCursor newCursor xAxisScale yAxisScale initialPos sc = Ret sc'
    /\ cursors_ (world sc') = cursors_ (world sc) ++ [newCursor]
    /\ plot (world sc') = plot (world sc)
    /\ activeCursor (world sc') = activeCursor (world sc)
    /\ (forall p, p <> newCursor -> points (world sc') p = points (world sc) p)
    /\ value_ (points (world sc') newCursor) = initialPos
    /\ plot_of (points (world sc') newCursor) = Some pl
    /\ (forall a, yAxisScale = Some a ->
        yAxisTarget (points (world sc') newCursor) = Some a)
    /\ (forall a, xAxisScale = Some a ->
        xAxisTarget (points (world sc') newCursor) = Some a)
    /\ selectableOf sc' newCursor = false
    /\ markerOf sc' newCursor
       = Some (cursorMarker xAxisScale yAxisScale, MPLOT_CURSOR_BIG_HACK)
    /\ warnings sc' = warnings sc.
Proof.
  intros Hpl Hfit. unfold MPlotCursorTool.addCursor. rewrite Hpl.
  set (w0 := with_points (<[newCursor := defaultPoint]> (points (world sc))) (world sc)).
  destruct (addItem_effect pl newCursor w0 Hfit)
    as [w1 (H1 & Hc & Hp & Ha & _ & _ & Hother & _ & Hon)].
  rewrite H1. simpl. eexists. split; [reflexivity |].
  cbn [world with_cursors with_points cursors_ plot activeCursor points
       selectableOf markerOf warnings].
  split; [rewrite Hc; reflexivity |]. split; [rewrite Hp; exact Hpl |].
  split; [rewrite Ha; reflexivity |]. split.
  { intros p Hne. rewrite store_insert_ne by congruence.
    rewrite (Hother p Hne). unfold w0. cbn [with_points points].
    apply store_insert_ne. congruence. }
  rewrite !store_insert_eq.
  split; [reflexivity |]. split.
  { destruct xAxisScale, yAxisScale; exact Hon. }
  split.
  { intros a ->. destruct xAxisScale; reflexivity. }
  split.
  { intros a ->. reflexivity. }
  repeat split.
Qed.

Lemma cursorMarker_shapes (xAxisScale yAxisScale : option nat) :
  (cursorMarker xAxisScale yAxisScale = Cross
   <-> (xAxisScale = None <-> yAxisScale = None))
  /\ (cursorMarker xAxisScale yAxisScale = HorizontalBeam
      <-> xAxisScale = None /\ yAxisScale <> None)
  /\ (cursorMarker xAxisScale yAxisScale = VerticalBeam
      <-> xAxisScale <> None /\ yAxisScale = None).
Proof using Type.
  destruct xAxisScale, yAxisScale; simpl; (split; [| split]); split; intros H;
    try congruence;
    try (destruct H; congruence);
    try (split; intros; congruence);
    try (destruct H as [H1 H2];
         first [discriminate (H1 eq_refl) | discriminate (H2 eq_refl)]).
Qed.

Lemma addCursor_cursors (newCursor : nat) (xAxisScale yAxisScale : option nat)
    (initialPos : QPointF) (sc sc' : Scene) :
  plot (world sc) <> None ->
  addCursor newCursor xAxisScale yAxisScale initialPos sc = Ret sc' ->
  cursors_ (world sc') = cursors_ (world sc) ++ [newCursor].
Proof.
  intros Hpl. unfold MPlotCursorTool.addCursor, addItem.
  destruct (plot (world sc)) as [pl |]; [| congruence].
  cbn [with_points plots points].
  destruct (MPlotAccessors.axisScale (plots (world sc) pl) 0) as [y |];
    [| discriminate].
  destruct (MPlotAccessors.axisScale (plots (world sc) pl) 1) as [x |];
    [| discriminate].
  simpl. intros H. injection H as <-. reflexivity.
Qed.

(** *** [removeCursor] *)

Lemma last_removelast {A} (l : list A) (x : A) :
  list.last l = Some x -> removelast l ++ [x] = l.
Proof.
  intros H. destruct (exists_last (l := l)) as [l' [y Hl]].
  - intros ->. discriminate.
  - subst l. rewrite last_snoc in H. injection H as ->.
    rewrite removelast_last. reflexivity.
Qed.

Lemma removeCursor_effect (sc : Scene) :
  cursors_ (world sc) <> [] -> count (cursors_ (world sc)) <= INT_MAX ->
  exists sc' removeMe,
    removeCursor sc = Ret sc'
    /\ cursors_ (world sc') ++ [removeMe] = cursors_ (world sc)
    /\ plot (world sc') = plot (world sc)
    /\ activeCursor (world sc') = activeCursor (world sc)
    /\ valueChanged (world sc') = valueChanged (world sc)
    /\ (plots (world sc'), points (world sc'))
       = match plot (world sc) with
         | Some pl => removeItem pl removeMe (plots (world sc), points (world sc))
         | None => (plots (world sc), points (world sc))
         end.
Proof.
  intros Hne Hfit. unfold MPlotCursorTool.removeCursor.
  rewrite (numCursors_small _ Hfit).
  assert (Hpos : 0 < count (cursors_ (world sc))).
  { unfold count. destruct (cursors_ (world sc)); [congruence | simpl; lia]. }
  replace (count (cursors_ (world sc)) >? 0) with true
    by (symmetry; apply Z.gtb_lt; exact Hpos).
  destruct (list.last (cursors_ (world sc))) as [removeMe |] eqn:El.
  - exists (mkScene
              {| cursors_ := removelast (cursors_ (world sc));
                 plot := plot (world sc);
                 activeCursor := activeCursor (world sc);
                 points := snd match plot (world sc) with
                               | Some pl => removeItem pl removeMe
                                              (plots (world sc), points (world sc))
                               | None => (plots (world sc), points (world sc))
                               end;
                 plots := fst match plot (world sc) with
                              | Some pl => removeItem pl removeMe
                                             (plots (world sc), points (world sc))
                              | None => (plots (world sc), points (world sc))
                              end;
                 scales := scales (world sc);
                 valueChanged := valueChanged (world sc) |}
              (selectableOf sc) (markerOf sc) (warnings sc)), removeMe.
    split; [reflexivity |].
    cbn [world cursors_ plot activeCursor valueChanged plots points].
    split; [apply last_removelast; exact El |].
    repeat split.
    destruct (match plot (world sc) with
              | Some pl => removeItem pl removeMe (plots (world sc), points (world sc))
              | None => (plots (world sc), points (world sc))
              end); reflexivity.
  - apply last_None in El. contradiction.
Qed.

(** *** A press with cursors at hand *)

Lemma press_with_cursors (event : QGraphicsSceneMouseEvent) (w : World) :
  button event = LeftButton ->
  cursors_ w <> [] -> count (cursors_ w) <= INT_MAX ->
  (forall cur, In cur (cursors_ w) -> plot_of (points w cur) = plot w) ->
  exists cur,
    cursors_ w !! Z.to_nat (activeCursor w mod count (cursors_ w)) = Some cur
    /\ mousePressEvent event w
       = Ret {| cursors_ := cursors_ w; plot := plot w;
                activeCursor := (activeCursor w + 1) mod UINT_MOD;
                points :=
                  <[cur := setValue
                             (mkPoint
                                match xAxisTarget (points w cur) with
                                | Some a => mapDrawingToData (scales w a) (px (pos event))
                                | None => px (pos event)
                                end
                                match yAxisTarget (points w cur) with
                                | Some a => mapDrawingToData (scales w a) (py (pos event))
                                | None => py (pos event)
                                end)
                             (points w cur)]> (points w);
                plots := plots w; scales := scales w;
                valueChanged :=
                  valueChanged w
                  ++ [(activeCursor w mod count (cursors_ w),
                       mkPoint
                         match xAxisTarget (points w cur) with
                         | Some a => mapDrawingToData (scales w a) (px (pos event))
                         | None => px (pos event)
                         end
                         match yAxisTarget (points w cur) with
                         | Some a => mapDrawingToData (scales w a) (py (pos event))
                         | None => py (pos event)
                         end)] |}.
Proof using Type.
  intros Hb Hne Hfit Hon.
  assert (Hpos : 0 < count (cursors_ w)).
  { unfold count. destruct (cursors_ w); [congruence | simpl; lia]. }
  destruct (at_defined (cursors_ w) (activeCursor w mod count (cursors_ w)))
    as [cur [Hat Hl]]; [apply Z.mod_pos_bound; exact Hpos |].
  exists cur. split; [exact Hl |].
  unfold MPlotCursorTool.mousePressEvent. rewrite Hb. cbn [MouseButton_eqb].
  unfold umod. rewrite (numCursors_small w Hfit).
  replace (count (cursors_ w) =? 0) with false by (symmetry; apply Z.eqb_neq; lia).
  simpl. rewrite Hat. simpl.
  assert (Hin : In cur (cursors_ w)).
  { apply list_elem_of_In. apply list_elem_of_lookup. eauto. }
  rewrite (Hon cur Hin), option_nat_eqb_refl. reflexivity.
Qed.

End CursorsMore.

(** X14.  [addCursor] always returns, on a plot whose axis scales fit a
    [QList].  On a tool that is on no plot it writes one warning and changes
    nothing else.  On a tool that is on a plot it appends the new cursor:
    [numCursors()] grows by one, [cursor] and [value] at the old
    [numCursors()] return the new cursor and [initialPos], the cursors
    already there keep their index and value, the new cursor is not
    selectable, targets the axis scales that were passed, and its marker is a
    cross when both or neither axis scale is given.  The address of the new
    cursor is fresh. *)
Theorem addCursor_appends_a_cursor_at_initialPos
    (MPLOT_CURSOR_BIG_HACK : qreal) (defaultPoint : MPlotCursorTool.MPlotPoint)
    (newCursor : nat) (xAxisScale yAxisScale : option nat) (initialPos : QPointF)
    (sc : MPlotCursorTool.Scene) :
  let w := MPlotCursorTool.world sc in
  count (MPlotCursorTool.cursors_ w) < INT_MAX ->
  ~ In newCursor (MPlotCursorTool.cursors_ w) ->
  (forall pl, MPlotCursorTool.plot w = Some pl ->
     count (MPlotAccessors.axisScales_ (MPlotCursorTool.plots w pl)) <= INT_MAX) ->
  exists sc',
    MPlotCursorTool.addCursor MPLOT_CURSOR_BIG_HACK defaultPoint
      newCursor xAxisScale yAxisScale initialPos sc = Ret sc'
    /\ (MPlotCursorTool.plot w = None ->
        MPlotCursorTool.world sc' = w
        /\ MPlotCursorTool.warnings sc' = S (MPlotCursorTool.warnings sc)
        /\ MPlotCursorTool.selectableOf sc' = MPlotCursorTool.selectableOf sc
        /\ MPlotCursorTool.markerOf sc' = MPlotCursorTool.markerOf sc)
    /\ (MPlotCursorTool.plot w <> None ->
        let w' := MPlotCursorTool.world sc' in
        MPlotCursorTool.numCursors w' = MPlotCursorTool.numCursors w + 1
        /\ MPlotCursorTool.cursor w' (MPlotCursorTool.numCursors w)
           = Ret (Some newCursor)
        /\ MPlotCursorTool.value w' (MPlotCursorTool.numCursors w) = Ret initialPos
        /\ (forall i, 0 <= i < MPlotCursorTool.numCursors w ->
            MPlotCursorTool.cursor w' i = MPlotCursorTool.cursor w i
            /\ MPlotCursorTool.value w' i = MPlotCursorTool.value w i)
        /\ MPlotCursorTool.selectableOf sc' newCursor = false
        /\ (exists shape,
              MPlotCursorTool.markerOf sc' newCursor
              = Some (shape, MPLOT_CURSOR_BIG_HACK)
              /\ (shape = MPlotCursorTool.Cross
                  <-> (xAxisScale = None <-> yAxisScale = None))
              /\ (shape = MPlotCursorTool.HorizontalBeam
                  <-> xAxisScale = None /\ yAxisScale <> None))
        /\ (forall a, yAxisScale = Some a ->
            MPlotCursorTool.yAxisTarget (MPlotCursorTool.points w' newCursor) = Some a)
        /\ (forall a, xAxisScale = Some a ->
            MPlotCursorTool.xAxisTarget (MPlotCursorTool.points w' newCursor) = Some a)
        /\ MPlotCursorTool.plot_of (MPlotCursorTool.points w' newCursor)
           = MPlotCursorTool.plot w
        /\ MPlotCursorTool.warnings sc' = MPlotCursorTool.warnings sc).
Proof.
  intros w Hlen Hfresh Hfit.
  destruct (MPlotCursorTool.plot w) as [pl |] eqn:Hpl.
  - destruct (addCursor_effect MPLOT_CURSOR_BIG_HACK defaultPoint newCursor
                xAxisScale yAxisScale initialPos sc pl Hpl (Hfit pl eq_refl))
      as [sc' (H1 & Hc & _ & _ & Hother & Hv & Hon & Hy & Hx & Hsel & Hm & Hw)].
    exists sc'. split; [exact H1 |]. split; [discriminate |].
    intros _. cbv zeta. fold w in Hc, Hother.
    set (w' := MPlotCursorTool.world sc') in *.
    pose proof (count_nonneg (MPlotCursorTool.cursors_ w)) as Hn0.
    assert (Hn : MPlotCursorTool.numCursors w = count (MPlotCursorTool.cursors_ w)).
    { apply numCursors_small. lia. }
    assert (Hn' : MPlotCursorTool.numCursors w'
                  = count (MPlotCursorTool.cursors_ w) + 1).
    { rewrite numCursors_small; rewrite Hc; unfold count in *;
        rewrite length_app; simpl; lia. }
    split; [rewrite Hn', Hn; reflexivity |].
    split.
    { unfold MPlotCursorTool.cursor. rewrite Hn', Hn.
      replace (count (MPlotCursorTool.cursors_ w)
               <? count (MPlotCursorTool.cursors_ w) + 1) with true
        by (symmetry; apply Z.ltb_lt; lia).
      rewrite Hc, at_app_last. reflexivity. }
    split.
    { unfold MPlotCursorTool.value. rewrite Hn', Hn.
      replace (count (MPlotCursorTool.cursors_ w)
               <? count (MPlotCursorTool.cursors_ w) + 1) with true
        by (symmetry; apply Z.ltb_lt; lia).
      rewrite Hc, at_app_last. simpl. rewrite Hv. reflexivity. }
    split.
    { intros i Hi. rewrite Hn in Hi.
      destruct (at_defined (MPlotCursorTool.cursors_ w) i Hi) as [c [Hat Hl]].
      assert (Hne : c <> newCursor).
      { intros ->. apply Hfresh. apply list_elem_of_In.
        apply list_elem_of_lookup. eauto. }
      unfold MPlotCursorTool.cursor, MPlotCursorTool.value. rewrite Hn', Hn.
      replace (i <? count (MPlotCursorTool.cursors_ w) + 1) with true
        by (symmetry; apply Z.ltb_lt; lia).
      replace (i <? count (MPlotCursorTool.cursors_ w)) with true
        by (symmetry; apply Z.ltb_lt; lia).
      rewrite Hc, (at_app_l _ _ i Hi), Hat. simpl.
      rewrite (Hother c Hne). split; reflexivity. }
    split; [exact Hsel |]. split.
    { eexists. split; [exact Hm |].
      destruct (cursorMarker_shapes xAxisScale yAxisScale) as (Hcross & Hbeam & _).
      split; [exact Hcross | exact Hbeam]. }
    split; [exact Hy |]. split; [exact Hx |]. split; [exact Hon | exact Hw].
  - eexists. unfold MPlotCursorTool.addCursor. fold w. rewrite Hpl.
    split; [reflexivity |]. split; [| intros H; congruence].
    intros _. repeat split.
Qed.

(** X14 on the sample tool, which is on a plot: a first cursor with a y
    axis scale only. *)
Lemma addCursor_witness :
  exists sc',
    MPlotCursorTool.addCursor 1000 Samples.defaultPoint 20%nat None (Some 1%nat)
      (mkPoint 2%Q 3%Q) Samples.cursorScene = Ret sc'
    /\ MPlotCursorTool.numCursors (MPlotCursorTool.world sc') = 1
    /\ MPlotCursorTool.value (MPlotCursorTool.world sc') 0 = Ret (mkPoint 2%Q 3%Q)
    /\ MPlotCursorTool.selectableOf sc' 20%nat = false.
Proof.
  destruct (addCursor_appends_a_cursor_at_initialPos 1000 Samples.defaultPoint
              20%nat None (Some 1%nat) (mkPoint 2%Q 3%Q) Samples.cursorScene)
    as [sc' (H1 & _ & H3)].
  - reflexivity.
  - intros [].
  - intros pl _. apply Z.leb_le. reflexivity.
  - exists sc'. split; [exact H1 |].
    destruct (H3 ltac:(discriminate)) as (Hn & _ & Hv & _ & Hs & _).
    split; [exact Hn |]. split; [exact Hv | exact Hs].
Defined.

(** X15.  [removeCursor] always returns.  With no cursor it changes
    nothing.  Otherwise it drops the last cursor: [numCursors()] shrinks by
    one, the other cursors keep their index, [cursor] at the new
    [numCursors()] is null, and the static [activeCursor] is left alone; when
    the cursor removed was the only one, the tool is back in the state in
    which a left-button press takes a remainder modulo zero.  It undoes
    [addCursor] on the list of cursors. *)
Theorem removeCursor_drops_the_last_cursor
    (mapDrawingToData : MPlotAxisScale -> qreal -> qreal)
    (MPLOT_CURSOR_BIG_HACK : qreal) (defaultPoint : MPlotCursorTool.MPlotPoint)
    (removeItem :
       nat -> nat ->
       (nat -> MPlotAccessors.MPlot) * (nat -> MPlotCursorTool.MPlotPoint) ->
       (nat -> MPlotAccessors.MPlot) * (nat -> MPlotCursorTool.MPlotPoint))
    (sc : MPlotCursorTool.Scene) :
  let w := MPlotCursorTool.world sc in
  count (MPlotCursorTool.cursors_ w) <= INT_MAX ->
  exists sc',
    MPlotCursorTool.removeCursor removeItem sc = Ret sc'
    /\ (MPlotCursorTool.cursors_ w = [] -> sc' = sc)
    /\ (forall cs c, MPlotCursorTool.cursors_ w = cs ++ [c] ->
        let w' := MPlotCursorTool.world sc' in
        MPlotCursorTool.cursors_ w' = cs
        /\ MPlotCursorTool.numCursors w' = MPlotCursorTool.numCursors w - 1
        /\ (forall i, 0 <= i < MPlotCursorTool.numCursors w' ->
            MPlotCursorTool.cursor w' i = MPlotCursorTool.cursor w i)
        /\ MPlotCursorTool.cursor w' (MPlotCursorTool.numCursors w') = Ret None
        /\ MPlotCursorTool.activeCursor w' = MPlotCursorTool.activeCursor w
        /\ (cs = [] -> forall event, button event = LeftButton ->
            MPlotCursorTool.mousePressEvent mapDrawingToData event w' = Undefined))
    /\ (forall sc0 newCursor xAxisScale yAxisScale initialPos,
        MPlotCursorTool.plot (MPlotCursorTool.world sc0) <> None ->
        MPlotCursorTool.addCursor MPLOT_CURSOR_BIG_HACK defaultPoint
          newCursor xAxisScale yAxisScale initialPos sc0 = Ret sc ->
        MPlotCursorTool.cursors_ (MPlotCursorTool.world sc')
        = MPlotCursorTool.cursors_ (MPlotCursorTool.world sc0)).
Proof.
  intros w Hfit.
  destruct (MPlotCursorTool.cursors_ w) as [| c0 cs0] eqn:Ecs.
  - exists sc. unfold MPlotCursorTool.removeCursor. fold w.
    rewrite (numCursors_zero w Ecs). split; [reflexivity |].
    split; [reflexivity |]. split.
    + intros cs c H. destruct cs; discriminate.
    + intros sc0 nc x y ip Hpl Hadd.
      pose proof (addCursor_cursors MPLOT_CURSOR_BIG_HACK defaultPoint
                    nc x y ip sc0 sc Hpl Hadd) as Hc.
      fold w in Hc. rewrite Ecs in Hc. symmetry in Hc.
      apply app_eq_nil in Hc. destruct Hc as [_ Hc]. discriminate Hc.
  - assert (Hne : MPlotCursorTool.cursors_ w <> []) by (rewrite Ecs; discriminate).
    rewrite <- Ecs in *.
    destruct (removeCursor_effect removeItem sc Hne Hfit)
      as [sc' [removeMe (H1 & Hc & _ & Ha & _)]].
    fold w in Hc. exists sc'. split; [exact H1 |].
    split; [intros H; contradiction |]. split.
    + intros cs c Hcs. cbv zeta.
      set (w' := MPlotCursorTool.world sc') in *.
      rewrite Hcs in Hc. apply app_inj_tail in Hc. destruct Hc as [Hc _].
      assert (Hcount : count (MPlotCursorTool.cursors_ w) = count cs + 1).
      { rewrite Hcs. unfold count. rewrite length_app. simpl. lia. }
      pose proof (count_nonneg cs) as Hcs0.
      assert (Hn : MPlotCursorTool.numCursors w = count cs + 1).
      { rewrite numCursors_small by exact Hfit. exact Hcount. }
      assert (Hn' : MPlotCursorTool.numCursors w' = count cs).
      { rewrite numCursors_small; rewrite Hc; [reflexivity | lia]. }
      split; [exact Hc |]. split; [rewrite Hn', Hn; lia |]. split; [| split; [| split]].
      * intros i Hi. rewrite Hn' in Hi.
        unfold MPlotCursorTool.cursor. rewrite Hn', Hn.
        replace (i <? count cs + 1) with true by (symmetry; apply Z.ltb_lt; lia).
        replace (i <? count cs) with true by (symmetry; apply Z.ltb_lt; lia).
        rewrite Hc, Hcs, (at_app_l cs [c] i Hi). reflexivity.
      * apply cursor_out_of_range. lia.
      * exact Ha.
      * intros -> event Hb. apply press_without_cursors; [exact Hb | exact Hc].
    + intros sc0 nc x y ip Hpl Hadd.
      pose proof (addCursor_cursors MPLOT_CURSOR_BIG_HACK defaultPoint
                    nc x y ip sc0 sc Hpl Hadd) as Hc0.
      fold w in Hc0. rewrite Hc0 in Hc. apply app_inj_tail in Hc.
      destruct Hc as [Hc _]. exact Hc.
Qed.

(** X15 on the sample tool after one [addCursor]. *)
Lemma removeCursor_witness :
  exists sc1 sc2,
    MPlotCursorTool.addCursor 1000 Samples.defaultPoint 20%nat None (Some 1%nat)
      (mkPoint 2%Q 3%Q) Samples.cursorScene = Ret sc1
    /\ MPlotCursorTool.removeCursor Samples.removeItem sc1 = Ret sc2
    /\ MPlotCursorTool.cursors_ (MPlotCursorTool.world sc2) = [].
Proof.
  eexists.
  match goal with
  | |- exists sc2, ?a = Ret ?s /\ _ =>
      assert (Hadd : a = Ret s) by reflexivity
  end.
  match type of Hadd with
  | _ = Ret ?s =>
      destruct (removeCursor_drops_the_last_cursor Samples.mapDrawingToData 1000
                  Samples.defaultPoint Samples.removeItem s)
        as [sc2 (H1 & _ & _ & H4)]
  end.
  - apply Z.leb_le. reflexivity.
  - exists sc2. split; [exact Hadd |]. split; [exact H1 |].
    apply (H4 Samples.cursorScene 20%nat None (Some 1%nat) (mkPoint 2%Q 3%Q)).
    + discriminate.
    + exact Hadd.
Defined.

(** X16.  A left-button press on a tool with cursors, all of them on the
    tool's plot, is defined.  It moves the cursor at index
    [activeCursor % numCursors()] to the position of the click, each
    coordinate mapped to data by the cursor's axis target when it has one and
    left in drawing coordinates when it has none; it emits
    [valueChanged] with that index and position, which [value] then returns
    at that index; the cursors at the other indices keep their values (the
    cursor list holding no address twice); and the next press uses the next
    index. *)
Theorem cursor_press_moves_the_active_cursor
    (mapDrawingToData : MPlotAxisScale -> qreal -> qreal)
    (event : QGraphicsSceneMouseEvent) (w : MPlotCursorTool.World) :
  button event = LeftButton ->
  MPlotCursorTool.cursors_ w <> [] ->
  count (MPlotCursorTool.cursors_ w) <= INT_MAX ->
  List.NoDup (MPlotCursorTool.cursors_ w) ->
  (forall cur, In cur (MPlotCursorTool.cursors_ w) ->
     MPlotCursorTool.plot_of (MPlotCursorTool.points w cur) = MPlotCursorTool.plot w) ->
  let c := MPlotCursorTool.activeCursor w mod MPlotCursorTool.numCursors w in
  exists w' cur,
    MPlotCursorTool.mousePressEvent mapDrawingToData event w = Ret w'
    /\ 0 <= c < MPlotCursorTool.numCursors w
    /\ MPlotCursorTool.cursor w c = Ret (Some cur)
    /\ (let newPos :=
          mkPoint
            match MPlotCursorTool.xAxisTarget (MPlotCursorTool.points w cur) with
            | Some a => mapDrawingToData (MPlotCursorTool.scales w a) (px (pos event))
            | None => px (pos event)
            end
            match MPlotCursorTool.yAxisTarget (MPlotCursorTool.points w cur) with
            | Some a => mapDrawingToData (MPlotCursorTool.scales w a) (py (pos event))
            | None => py (pos event)
            end in
        MPlotCursorTool.value w' c = Ret newPos
        /\ MPlotCursorTool.valueChanged w'
           = MPlotCursorTool.valueChanged w ++ [(c, newPos)])
    /\ (forall i, 0 <= i < MPlotCursorTool.numCursors w -> i <> c ->
        MPlotCursorTool.value w' i = MPlotCursorTool.value w i)
    /\ (forall i, MPlotCursorTool.cursor w' i = MPlotCursorTool.cursor w i)
    /\ MPlotCursorTool.activeCursor w'
       = (MPlotCursorTool.activeCursor w + 1) mod UINT_MOD
    /\ MPlotCursorTool.scales w' = MPlotCursorTool.scales w
    /\ MPlotCursorTool.plots w' = MPlotCursorTool.plots w.
Proof.
  intros Hb Hne Hfit Hnd Hon c.
  pose proof (numCursors_small w Hfit) as Hn.
  assert (Hpos : 0 < count (MPlotCursorTool.cursors_ w)).
  { unfold count. destruct (MPlotCursorTool.cursors_ w); [congruence | simpl; lia]. }
  assert (Hc : 0 <= c < MPlotCursorTool.numCursors w).
  { unfold c. apply Z.mod_pos_bound. rewrite Hn. exact Hpos. }
  destruct (press_with_cursors mapDrawingToData event w Hb Hne Hfit Hon)
    as [cur [Hl Hpress]].
  rewrite <- Hn in Hl, Hpress. fold c in Hl, Hpress.
  destruct (cursor_in_range w c Hc) as [cur' (Hl' & Hcur & _)].
  assert (cur' = cur) by congruence. subst cur'.
  match type of Hpress with _ = Ret ?r => set (w' := r) in * end.
  exists w', cur. split; [exact Hpress |]. split; [exact Hc |].
  split; [exact Hcur |].
  assert (Hcs : MPlotCursorTool.cursors_ w' = MPlotCursorTool.cursors_ w)
    by reflexivity.
  assert (Hnum : MPlotCursorTool.numCursors w' = MPlotCursorTool.numCursors w)
    by reflexivity.
  split; [| split; [| split; [| repeat split]]].
  - cbv zeta. split; [| reflexivity].
    unfold MPlotCursorTool.value. rewrite Hnum, Hcs.
    replace (c <? MPlotCursorTool.numCursors w) with true
      by (symmetry; apply Z.ltb_lt; lia).
    destruct (at_defined (MPlotCursorTool.cursors_ w) c) as [x [Hat Hlx]]; [lia |].
    assert (x = cur) by congruence. subst x.
    rewrite Hat. simpl. rewrite store_insert_eq. reflexivity.
  - intros i Hi Hic.
    unfold MPlotCursorTool.value. rewrite Hnum, Hcs.
    replace (i <? MPlotCursorTool.numCursors w) with true
      by (symmetry; apply Z.ltb_lt; lia).
    destruct (at_defined (MPlotCursorTool.cursors_ w) i) as [x [Hat Hlx]]; [lia |].
    rewrite Hat. simpl.
    assert (Hx : cur <> x).
    { intros ->. apply Hic.
      pose proof (NoDup_lookup _ _ _ _ (proj2 (NoDup_ListNoDup _) Hnd) Hlx Hl)
        as Heq. lia. }
    rewrite store_insert_ne by exact Hx. reflexivity.
  - intros i. reflexivity.
Qed.

(** X16 on two cursors: the first press moves cursor 0, to the data
    position of the click. *)
Lemma cursor_press_witness :
  exists w',
    MPlotCursorTool.mousePressEvent Samples.mapDrawingToData
      (Samples.mouse LeftButton 50 20) Samples.twoCursors = Ret w'
    /\ MPlotCursorTool.value w' 0
       = Ret (mkPoint (Samples.mapDrawingToData (Samples.axes true 0%nat) 50)
                      (Samples.mapDrawingToData (Samples.axes true 1%nat) 20))
    /\ MPlotCursorTool.activeCursor w' = 1.
Proof.
  destruct (cursor_press_moves_the_active_cursor Samples.mapDrawingToData
              (Samples.mouse LeftButton 50 20) Samples.twoCursors)
    as [w' [cur (H1 & _ & Hcur & [Hv _] & _ & _ & Ha & _)]].
  - reflexivity.
  - discriminate.
  - apply Z.leb_le. reflexivity.
  - repeat constructor; simpl; intuition discriminate.
  - intros cur _. reflexivity.
  - exists w'. split; [exact H1 |].
    assert (Hc : cur = 8%nat).
    { change (Ret (Some 8%nat) = Ret (Some cur)) in Hcur. congruence. }
    subst cur. split; [exact Hv | exact Ha].
Defined.

(** ** The further properties at concrete inputs *)

(** The axis round trip on the sample plot, whose only axis scale is 7. *)
Lemma axis_lookup_witness :
  MPlotAccessors.axisScale Samples.plot
    (MPlotAccessors.indexOfAxisScale Samples.plot 7%nat) = Ret (Some 7%nat)
  /\ MPlotAccessors.indexOfAxis Samples.plot 7%nat = -1
  /\ MPlotAccessors.axis Samples.plot
       (MPlotAccessors.indexOfAxis Samples.plot 7%nat) = Ret None.
Proof.
  assert (Hfit : MPlotAccessors.lists_fit Samples.plot).
  { repeat split; apply Z.leb_le; reflexivity. }
  destruct (axis_lookup_round_trip Samples.plot 7%nat 0 Hfit)
    as (H1 & _ & _ & H4 & _).
  split; [apply H1; left; reflexivity |].
  apply H4. simpl. intuition discriminate.
Defined.

(** The accessors by name on the sample plot, which has three axes and one
    axis scale. *)
Lemma named_accessors_witness :
  MPlotAccessors.axisNamed Samples.plot MPlotAccessors.Right
  = MPlotAccessors.axis Samples.plot 2
  /\ MPlotAccessors.axisScaleNamed Samples.plot MPlotAccessors.Right = Undefined
  /\ MPlotAccessors.axisScale Samples.plot 2 = Ret None.
Proof.
  assert (Hfit : MPlotAccessors.lists_fit Samples.plot).
  { repeat split; apply Z.leb_le; reflexivity. }
  destruct (named_accessors_agree_with_indexed Samples.plot MPlotAccessors.Right Hfit)
    as ((_ & Hs) & (Ha & _)).
  split; [apply Ha; reflexivity |].
  apply Hs. apply Z.leb_le. reflexivity.
Defined.

(** The block reads on the sample data, two points. *)
Lemma block_reads_witness :
  (exists out,
     MPlotVectorSeriesData.xValues Samples.vectorData 0 1 = Ret out
     /\ count out = 2)
  /\ MPlotVectorSeriesData.yValues Samples.vectorData 0
       (to_unsigned (count (MPlotVectorSeriesData.yValues_ Samples.vectorData) - 1))
     = Ret [3%Q; 4%Q].
Proof.
  destruct (block_reads_agree_with_element_reads Samples.vectorData 0 1)
    as (Hx & _ & _ & Hy).
  - split; apply Z.leb_le; reflexivity.
  - apply Z.leb_le. reflexivity.
  - apply Z.leb_le. reflexivity.
  - split; [| exact Hy].
    destruct Hx as [out (Ho & Hc & _)]; [reflexivity |].
    exists out. split; [exact Ho | exact Hc].
Defined.
